(** * rdf-factories: memoizing RDF data factories

    A shallow embedding of the two factories of the repository,

      - packages/memoized-hash-factory/src/index.ts  (module [HashFactory]),
        together with its earlier copy that gates the argument checks on
        [process.env.NODE_ENV] (module [HashFactory], the [_gated] entry
        points), and
      - packages/memoized-factory/src/index.ts       (module [IndexFactory]),

    and the properties of their interning, identity and equality operations. *)

From Stdlib Require Import ZArith String List Lia Bool.
From stdpp Require Import base option strings gmap pretty.

Set Warnings "-register-all".
Local Open Scope string_scope.
Local Open Scope Z_scope.

(** ** JavaScript values and RDF objects *)

(** An RDF object as the factories see it: a JavaScript object with the fields
    of the [BlankNode], [NamedNode], [Literal] and [Quad] interfaces of
    @ontologies/core. A field that the object does not have is [None]
    ([value] and [language] are strings by their declared types and are left
    empty where an interface has none).  [ref] is the object's reference: two
    objects are the same instance ([===]) when their references agree. The
    factories never change a term after they have returned it, so an instance
    is carried around as its reference together with its fields. *)
Inductive obj : Type :=
  Obj (ref : nat) (id : option Z) (termType : option string) (value : string)
      (language : string) (datatype : option obj)
      (subject predicate object graph : option obj).

Definition obj_ref (t : obj) : nat :=
  match t with Obj r _ _ _ _ _ _ _ _ _ => r end.
Definition obj_id (t : obj) : option Z :=
  match t with Obj _ i _ _ _ _ _ _ _ _ => i end.
Definition obj_termType (t : obj) : option string :=
  match t with Obj _ _ k _ _ _ _ _ _ _ => k end.
Definition obj_value (t : obj) : string :=
  match t with Obj _ _ _ v _ _ _ _ _ _ => v end.
Definition obj_language (t : obj) : string :=
  match t with Obj _ _ _ _ l _ _ _ _ _ => l end.
Definition obj_datatype (t : obj) : option obj :=
  match t with Obj _ _ _ _ _ d _ _ _ _ => d end.
Definition obj_subject (t : obj) : option obj :=
  match t with Obj _ _ _ _ _ _ s _ _ _ => s end.
Definition obj_predicate (t : obj) : option obj :=
  match t with Obj _ _ _ _ _ _ _ p _ _ => p end.
Definition obj_object (t : obj) : option obj :=
  match t with Obj _ _ _ _ _ _ _ _ o _ => o end.
Definition obj_graph (t : obj) : option obj :=
  match t with Obj _ _ _ _ _ _ _ _ _ g => g end.

(** The values a caller can hand to the factories. *)
Inductive jsval : Type :=
  | JUndefined
  | JNull
  | JBool (b : bool)
  | JNum (n : Z)
  | JStr (s : string)
  | JArr (xs : list jsval)
  | JObj (o : obj).

(** [!!v] of JavaScript. *)
Definition truthy (v : jsval) : bool :=
  match v with
  | JUndefined | JNull => false
  | JBool b => b
  | JNum n => negb (n =? 0)
  | JStr s => negb (String.eqb s "")
  | JArr _ | JObj _ => true
  end.

(** [typeof v === "string"]. *)
Definition is_string (v : jsval) : bool :=
  match v with JStr _ => true | _ => false end.

(** [a === b]: primitives by value, arrays and objects by reference. An array
    literal is a fresh object, so two array values are never the same one. *)
Definition strict_eq (a b : jsval) : bool :=
  match a, b with
  | JUndefined, JUndefined => true
  | JNull, JNull => true
  | JBool x, JBool y => Bool.eqb x y
  | JNum x, JNum y => x =? y
  | JStr x, JStr y => String.eqb x y
  | JObj x, JObj y => Nat.eqb (obj_ref x) (obj_ref y)
  | _, _ => false
  end.

(** Truthiness of the [id] field: absent and [0] are both falsy. *)
Definition truthy_id (i : option Z) : option Z :=
  match i with
  | Some n => if n =? 0 then None else Some n
  | None => None
  end.

(** What the factories throw. [createException] builds a [TypeError] whose
    message names the term type and the offending value; [Error] is the
    plain [Error] of [literal]. *)
Inductive exn : Type :=
  | TypeError (type : string) (value : jsval)
  | TypeErrorRead (property : string)
  | Error (msg : string).

Definition createException (type : string) (value : jsval) : exn :=
  TypeError type value.

(** The outcome of a call: a returned value or a thrown exception.
    [IllTyped] marks a call that went on with a value its TypeScript
    signature rules out (a number as the value of a node in the gated copy
    of the hash factory under [NODE_ENV = "development"], a number or a
    string as the argument of [id], a stored term without [id], a member
    of [Object.prototype] whose [id] is read); the typed model of terms does
    not follow such a call further.  [Inherited name] is the outcome of a
    call that returned, in the place of a term, the member of
    [Object.prototype] called [name], which it found in a table. *)
Inductive outcome (A : Type) : Type :=
  | Ok (a : A)
  | Throw (e : exn)
  | IllTyped
  | Inherited (name : string).
Arguments Ok {A} a.
Arguments Throw {A} e.
Arguments IllTyped {A}.
Arguments Inherited {A} name.

(** The names of the members of [Object.prototype]: the ones ECMAScript
    gives it, with those of its Annex B. The tables of the index factory are
    object literals [{}], so each of them inherits a value under every one
    of these names: a function, and under ["__proto__"] the prototype
    itself. None of these values is falsy, and none has an [id]. *)
Definition objectPrototype : list string :=
  [ "constructor"; "hasOwnProperty"; "isPrototypeOf"; "propertyIsEnumerable";
    "toLocaleString"; "toString"; "valueOf"; "__proto__";
    "__defineGetter__"; "__defineSetter__"; "__lookupGetter__";
    "__lookupSetter__" ].

Definition in_prototype (key : string) : bool :=
  existsb (String.eqb key) objectPrototype.

(** No blank or named node in the object, the object itself or one in its
    quad fields, has the name of a member of [Object.prototype] as its
    value. *)
Fixpoint prototype_free (t : obj) : bool :=
  match t with
  | Obj _ _ k v _ _ s p o g =>
    let field (x : option obj) : bool :=
      match x with Some y => prototype_free y | None => true end in
    match k with
    | Some kind =>
      if String.eqb kind "BlankNode" || String.eqb kind "NamedNode"
      then negb (in_prototype v) else true
    | None => true
    end && field s && field p && field o && field g
  end.

(** What [table[key]] finds in a table that was created as [{}]: an entry
    of the table's own, else a member of [Object.prototype], else nothing
    ([undefined]). *)
Inductive slot : Type :=
  | Own (t : obj)
  | FromPrototype (name : string)
  | Absent.

(** The [datatypes] table. *)
Module datatypes.
Definition boolean := "http://www.w3.org/2001/XMLSchema#boolean".
Definition dateTime := "http://www.w3.org/2001/XMLSchema#dateTime".
Definition decimal := "http://www.w3.org/2001/XMLSchema#decimal".
Definition double := "http://www.w3.org/2001/XMLSchema#double".
Definition integer := "http://www.w3.org/2001/XMLSchema#integer".
Definition langString := "http://www.w3.org/1999/02/22-rdf-syntax-ns#langString".
Definition string := "http://www.w3.org/2001/XMLSchema#string".
End datatypes.

(** Modelled from the spec: [isQuad] of [PlainFactory] (@ontologies/core),
    which both factories inherit and which is not part of the sources. The
    spec describes a Quad as the record of [subject], [predicate], [object]
    and [graph] with no kind tag; an object is taken to be a quad when it has
    a [subject]. *)
Definition isQuad (t : obj) : bool :=
  match obj_subject t with Some _ => true | None => false end.

(** The [Literal] interface asks for a [datatype]: an object tagged
    ["Literal"] has one, and so do the objects in its quad fields. *)
Fixpoint well_typed (t : obj) : bool :=
  match t with
  | Obj _ _ k _ _ d s p o g =>
    let field (x : option obj) : bool :=
      match x with Some y => well_typed y | None => true end in
    match k, d with
    | Some kind, None => negb (String.eqb kind "Literal")
    | _, _ => true
    end && field s && field p && field o && field g
  end.

(** The arguments [id] declares, and [undefined], which it tests for. *)
Definition is_term_arg (v : jsval) : bool :=
  match v with
  | JArr _ | JUndefined | JObj _ => true
  | _ => false
  end.

(** The kind tags that [id] knows. *)
Definition known_kind (k : option string) : bool :=
  match k with
  | Some kind =>
    String.eqb kind "BlankNode" || String.eqb kind "NamedNode"
    || String.eqb kind "Literal"
  | None => false
  end.

(** [Number.prototype.toString] on the integers the factories produce. *)
Definition toString (n : Z) : string := pretty n.

(** The numbers of the code are JavaScript numbers. Such a number holds
    every integer up to [2^53] in size, and on these integers [+], [++] and
    [toString] are the ones of the integers, which the model uses. Beyond
    [2^53] a sum is rounded. [exact n] says that [n] is in the range;
    [summand n] that it is small enough for any sum of four such numbers to
    be in the range, in whatever order they are added. *)
Definition exact (n : Z) : Prop := - 2 ^ 53 <= n <= 2 ^ 53.
Definition summand (n : Z) : Prop := - 2 ^ 51 <= n <= 2 ^ 51.

(** The object literals the factories pass to [id] and [mapId]. *)
Definition describeNode (termType value : string) : obj :=
  Obj 0 None (Some termType) value "" None None None None None.
Definition describeLiteral (value : string) (datatype : obj) (language : string) : obj :=
  Obj 0 None (Some "Literal") value language (Some datatype) None None None None.

(** The second argument of [literal]: omitted, a language tag, or a datatype. *)
Inductive languageOrDatatype : Type :=
  | Omitted
  | Language (l : string)
  | Datatype (d : obj).

(** [isLangString ? (languageOrDatatype as string || "") : ""]. *)
Definition languageOf (lod : languageOrDatatype) : string :=
  match lod with Language l => l | _ => "" end.

(** The IRI [literal] asks [namedNode] for: [langString] when the second
    argument is a string, [string] when there is none; a datatype that was
    passed is used as it is. *)
Definition datatypeIRI (lod : languageOrDatatype) : option string :=
  match lod with
  | Language _ => Some datatypes.langString
  | Datatype _ => None
  | Omitted => Some datatypes.string
  end.

(** ** The hash factory *)
Module HashFactory.
Section WithHash.

(** [murmur3] of murmurhash-js. *)
Variable murmur3 : string -> Z -> Z.

Record factory : Type := Factory {
  bnIndex : Z;
  seedBase : Z;
  memoizationMap : gmap Z obj;
  allocated : nat
}.

(** [new MemoizedHashFactory(opts)]; [||] replaces a missing or zero
    option by [0], a missing map by the empty one. *)
Definition create (opt_bnIndex opt_seedBase : option Z)
    (opt_map : option (gmap Z obj)) : factory :=
  Factory (default 0 opt_bnIndex) (default 0 opt_seedBase)
          (default ∅ opt_map) 1.

(** [id] on an object. The four identities of a quad are numbers and are
    added before [toString] is applied; the sum is the one of the integers
    as long as it is [exact]. *)
Fixpoint id_obj (seed : Z) (term : obj) : Z :=
  match term with
  | Obj _ i k v lang dt s p o g =>
    match truthy_id i with
    | Some n => n
    | None =>
      let sub (x : option obj) : Z :=
        match x with Some y => id_obj seed y | None => -1 end in
      match s with
      | Some _ =>
        murmur3
          (toString (sub s + sub p + sub o
                     + match g with Some y => id_obj seed y | None => 0 end))
          (seed + 3)
      | None =>
        match k with
        | Some kind =>
          if String.eqb kind "BlankNode" then murmur3 v (seed + 1)
          else if String.eqb kind "NamedNode" then murmur3 v (seed + 2)
          else if String.eqb kind "Literal" then
            let langOrDTId :=
              if String.eqb lang "" then sub dt else murmur3 lang seed in
            murmur3 v (seed + 4 + langOrDTId)
          else -1
        | None => -1
        end
      end
    end
  end.

(** [id] on its argument: arrays and [undefined] give [-1]; reading [.id]
    of [null] throws; the declared type [AnyRDFObject] has no other
    primitives. *)
Definition id (term : jsval) (f : factory) : outcome Z :=
  match term with
  | JArr _ | JUndefined => Ok (-1)
  | JNull => Throw (TypeErrorRead "id")
  | JObj t => Ok (id_obj (seedBase f) t)
  | JBool _ | JNum _ | JStr _ => IllTyped
  end.

(** [Object.create(proto)] followed by the field assignments and the store
    into [memoizationMap]. *)
Definition intern (i : Z) (mk : nat -> obj) (f : factory) : obj * factory :=
  match memoizationMap f !! i with
  | Some t => (t, f)
  | None =>
    let term := mk (allocated f) in
    (term, Factory (bnIndex f) (seedBase f)
                   (<[i := term]> (memoizationMap f)) (S (allocated f)))
  end.

(** [namedNode] past its argument check. *)
Definition namedNode_str (value : string) (f : factory) : obj * factory :=
  let i := id_obj (seedBase f) (describeNode "NamedNode" value) in
  intern i (fun r => Obj r (Some i) (Some "NamedNode") value "" None
                         None None None None) f.

Definition namedNode_with (check : bool) (value : jsval) (f : factory)
    : outcome obj * factory :=
  if check && negb (is_string value)
  then (Throw (createException "NamedNode" value), f)
  else match value with
       | JStr v => let '(t, f') := namedNode_str v f in (Ok t, f')
       | _ => (IllTyped, f)
       end.

Definition namedNode := namedNode_with true.

Definition defaultGraph (f : factory) : obj * factory :=
  namedNode_str "rdf:defaultGraph" f.

(** [blankNode] past its argument check, for a string or a falsy value. *)
Definition blankNode_str (value : option string) (f : factory) : obj * factory :=
  let '(usedValue, f1) :=
    match value with
    | Some v => (v, f)
    | None =>
      let n := bnIndex f + 1 in
      ("b" +:+ toString n,
       Factory n (seedBase f) (memoizationMap f) (allocated f))
    end in
  let i := id_obj (seedBase f1) (describeNode "BlankNode" usedValue) in
  intern i (fun r => Obj r (Some i) (Some "BlankNode") usedValue "" None
                         None None None None) f1.

Definition blankNode_with (check : bool) (value : jsval) (f : factory)
    : outcome obj * factory :=
  if check && truthy value && negb (is_string value)
  then (Throw (createException "BlankNode" value), f)
  else if truthy value
       then match value with
            | JStr v => let '(t, f') := blankNode_str (Some v) f in (Ok t, f')
            | _ => (IllTyped, f)
            end
       else let '(t, f') := blankNode_str None f in (Ok t, f').

Definition blankNode := blankNode_with true.

(** The copy of the factory whose checks run only when
    [process.env.NODE_ENV !== "development"]. *)
Definition namedNode_gated (node_env : string) :=
  namedNode_with (negb (String.eqb node_env "development")).
Definition blankNode_gated (node_env : string) :=
  blankNode_with (negb (String.eqb node_env "development")).

(** [literal] for a string [value]; any other value is handed to
    [parseLiteral] of [PlainFactory], outside these sources. *)
Definition literal_datatype (lod : languageOrDatatype) (f : factory)
    : obj * factory :=
  match lod with
  | Language _ => namedNode_str datatypes.langString f
  | Datatype d => (d, f)
  | Omitted => namedNode_str datatypes.string f
  end.

Definition literal (value : string) (lod : languageOrDatatype) (f : factory)
    : obj * factory :=
  let '(datatype, f1) := literal_datatype lod f in
  let language := languageOf lod in
  let i := id_obj (seedBase f1) (describeLiteral value datatype language) in
  intern i (fun r => Obj r (Some i) (Some "Literal") value language
                         (Some datatype) None None None None) f1.

Definition quad (subject predicate object : obj) (graph : option obj)
    (f : factory) : obj * factory :=
  let '(usedGraph, f1) :=
    match graph with
    | Some g => (g, f)
    | None => defaultGraph f
    end in
  let i :=
    murmur3
      (toString (id_obj (seedBase f1) subject + id_obj (seedBase f1) predicate
                 + id_obj (seedBase f1) object + id_obj (seedBase f1) usedGraph))
      (seedBase f1 + 3) in
  intern i (fun r => Obj r (Some i) None "" "" None
                         (Some subject) (Some predicate) (Some object)
                         (Some usedGraph)) f1.

Definition fromId (i : Z) (f : factory) : option obj :=
  memoizationMap f !! i.

(** [this.id(x) === this.id(y)], left operand first. *)
Definition same_id (x y : jsval) (f : factory) : outcome bool :=
  match id x f with
  | Ok n => match id y f with
            | Ok m => Ok (n =? m)
            | Throw e => Throw e
            | IllTyped => IllTyped
            | Inherited name => Inherited name
            end
  | Throw e => Throw e
  | IllTyped => IllTyped
  | Inherited name => Inherited name
  end.

(** [l && r] on outcomes: [r] is evaluated only when [l] is [true]. *)
Definition and_then (l r : outcome bool) : outcome bool :=
  match l with
  | Ok true => r
  | _ => l
  end.

Definition equals (a b : jsval) (f : factory) : outcome bool :=
  if negb (truthy a) || negb (truthy b) then Ok (strict_eq a b)
  else match a, b with
       | JArr xs, JArr ys =>
         let at_ (l : list jsval) (i : nat) := nth i l JUndefined in
         and_then (same_id (at_ xs 0%nat) (at_ ys 0%nat) f)
        (and_then (same_id (at_ xs 1%nat) (at_ ys 1%nat) f)
        (and_then (same_id (at_ xs 2%nat) (at_ ys 2%nat) f)
                  (same_id (at_ xs 3%nat) (at_ ys 3%nat) f)))
       | _, _ => same_id a b f
       end.

(** [f'] keeps the seed of [f] and every term [f] had. *)
Definition extends (f f' : factory) : Prop :=
  seedBase f' = seedBase f /\
  forall k t, memoizationMap f !! k = Some t -> memoizationMap f' !! k = Some t.

(** Every stored term sits under its own identity: the key is the term's
    [id] field and what [id] computes for the term. It holds of the empty
    store and every operation keeps it. *)
Definition consistent (f : factory) : Prop :=
  forall k t, memoizationMap f !! k = Some t ->
    obj_id t = Some k /\ id_obj (seedBase f) t = k.

(** [this.id(x)] for a field [x] that may be missing. *)
Definition id_of (seed : Z) (x : option obj) : Z :=
  match x with Some y => id_obj seed y | None => -1 end.

(** The identity [quad] gives: the hash, under seed [seedBase + 3], of the
    decimal form of the sum of the four identities. *)
Definition quadIdentity (seed : Z) (s p o g : obj) : Z :=
  murmur3 (toString (id_obj seed s + id_obj seed p + id_obj seed o + id_obj seed g))
          (seed + 3).

(** The quad identity in the words of the specification: the hash of the
    four identities' decimal forms written one after the other. *)
Definition concatenatedIdentity (seed : Z) (s p o : obj) (g : option obj) : Z :=
  murmur3 (toString (id_obj seed s) +:+ toString (id_obj seed p)
           +:+ toString (id_obj seed o)
           +:+ toString (match g with Some y => id_obj seed y | None => 0 end))
          (seed + 3).

(** The graph that [quad] stores: the one supplied, or the default graph. *)
Definition usedGraph (graph : option obj) (f : factory) : obj :=
  match graph with
  | Some g => g
  | None => fst (defaultGraph f)
  end.

(** The factories a program can get to: a new one without a store handed
    in, and whatever the four operations make of it. *)
Inductive reachable : factory -> Prop :=
  | reach_create bn seed : reachable (create bn seed None)
  | reach_blankNode v f : reachable f -> reachable (snd (blankNode v f))
  | reach_namedNode v f : reachable f -> reachable (snd (namedNode v f))
  | reach_literal v lod f : reachable f -> reachable (snd (literal v lod f))
  | reach_quad s p o g f : reachable f -> reachable (snd (quad s p o g f)).

(** The identity of the literal that [literal] makes of a value and its
    second argument, written out: the language or else the datatype goes
    into the seed. *)
Definition literalIdentity (seed : Z) (v : string) (lod : languageOrDatatype) : Z :=
  murmur3 v
    (seed + 4 +
     match lod with
     | Omitted => murmur3 datatypes.string (seed + 2)
     | Language l =>
       if String.eqb l "" then murmur3 datatypes.langString (seed + 2)
       else murmur3 l seed
     | Datatype d => id_obj seed d
     end).

(** [rdfBase(factory).equals], the method every term inherits:
    [factory.equals(this, other)]. *)
Definition term_equals (this : obj) (other : jsval) (f : factory) : outcome bool :=
  equals (JObj this) other f.

End WithHash.
End HashFactory.

(** ** The index factory *)
Module IndexFactory.

Record factory : Type := Factory {
  bnIndex : Z;
  index : Z;
  memoizationMap : gmap Z obj;
  blankNodeMap : gmap string obj;
  namedNodeMap : gmap string obj;
  literalMap : gmap string obj;
  quadMap : gmap string obj;
  allocated : nat
}.

(** [new MemoizedHashFactory(opts)]: [bnIndex] is [opts.bnIndex || 1], the
    identity counter starts at [1] and the five tables are empty. *)
Definition create (opt_bnIndex : option Z) : factory :=
  Factory (match truthy_id opt_bnIndex with Some n => n | None => 1 end)
          1 ∅ ∅ ∅ ∅ ∅ 1.

(** A computation on the factory that may throw. *)
Definition M (A : Type) : Type := factory -> outcome A * factory.

Definition ret {A} (a : A) : M A := fun f => (Ok a, f).

(** Sequencing. A computation that is bound here never ends in
    [Inherited]: [id] and [mapId] return no table entry, and the two nodes
    that [literal] and [quad] ask [namedNode] for have names that are no
    members of [Object.prototype]. *)

Definition bind {A B} (m : M A) (k : A -> M B) : M B :=
  fun f =>
    match m f with
    | (Ok a, f') => k a f'
    | (Throw e, f') => (Throw e, f')
    | (IllTyped, f') => (IllTyped, f')
    | (Inherited name, f') => (Inherited name, f')
    end.

(** [this.index++]. *)
Definition next_index : M Z :=
  fun f => (Ok (index f),
            Factory (bnIndex f) (index f + 1) (memoizationMap f)
                    (blankNodeMap f) (namedNodeMap f) (literalMap f)
                    (quadMap f) (allocated f)).

(** [mapValue ? mapValue.id as number : this.index++]. A member of
    [Object.prototype] is truthy and has no [id]. *)
Definition id_or_next (mapValue : slot) : M Z :=
  match mapValue with
  | Own t => fun f => (match obj_id t with Some n => Ok n | None => IllTyped end, f)
  | FromPrototype _ => fun f => (IllTyped, f)
  | Absent => next_index
  end.

(** The template string of a quad's four identities. *)
Definition quadKey (s p o g : Z) : string :=
  toString s +:+ "," +:+ toString p +:+ "," +:+ toString o +:+ "," +:+ toString g.

(** [mapId], given the function that computes the identity of a component
    ([this.id]); [None] is [undefined]. *)
Definition mapId_with (id_of : option obj -> M Z) (term : obj) : M (option string) :=
  match term with
  | Obj _ _ k v lang dt s p o g =>
    match s with
    | Some _ =>
      bind (id_of s) (fun si =>
      bind (id_of p) (fun pi =>
      bind (id_of o) (fun oi =>
      bind (match g with Some _ => id_of g | None => ret 0 end) (fun gi =>
      ret (Some (quadKey si pi oi gi))))))
    | None =>
      match k with
      | Some kind =>
        if String.eqb kind "BlankNode" || String.eqb kind "NamedNode"
        then ret (Some v)
        else if String.eqb kind "Literal" then
          match dt with
          | Some d => ret (Some (v +:+ "," +:+ lang +:+ "," +:+ obj_value d))
          | None => fun f => (Throw (TypeErrorRead "value"), f)
          end
        else ret None
      | None => ret None
      end
    end
  end.

(** The kind table that [id] consults for a term; [None] is the
    [default] branch of its [switch]. *)
Definition kindMap (term : obj) (f : factory) : option (gmap string obj) :=
  if isQuad term then Some (quadMap f)
  else match obj_termType term with
       | Some kind =>
         if String.eqb kind "BlankNode" then Some (blankNodeMap f)
         else if String.eqb kind "NamedNode" then Some (namedNodeMap f)
         else if String.eqb kind "Literal" then Some (literalMap f)
         else None
       | None => None
       end.

(** [table[mapId]] on a table created as [{}]; an [undefined] key is the
    property ["undefined"]. The table's own entry comes first, then what it
    inherits from [Object.prototype]. *)
Definition at_key (table : gmap string obj) (mapId : option string) : slot :=
  let key := default "undefined" mapId in
  match table !! key with
  | Some t => Own t
  | None => if in_prototype key then FromPrototype key else Absent
  end.

(** [id] on an object. *)
Fixpoint id_obj (term : obj) : M Z :=
  match term with
  | Obj r i k v lang dt s p o g =>
    match truthy_id i with
    | Some n => ret n
    | None =>
      let id_of (x : option obj) : M Z :=
        match x with Some y => id_obj y | None => ret (-1) end in
      bind (mapId_with id_of (Obj r i k v lang dt s p o g)) (fun mapId f =>
        match kindMap (Obj r i k v lang dt s p o g) f with
        | Some table => id_or_next (at_key table mapId) f
        | None => (Ok (-1), f)
        end)
    end
  end.

(** [id] on its argument, as in the hash factory. *)
Definition id (term : jsval) : M Z :=
  match term with
  | JArr _ | JUndefined => ret (-1)
  | JNull => fun f => (Throw (TypeErrorRead "id"), f)
  | JObj t => id_obj t
  | JBool _ | JNum _ | JStr _ => fun f => (IllTyped, f)
  end.

Definition id_of (x : option obj) : M Z :=
  match x with Some y => id_obj y | None => ret (-1) end.

Definition mapId (term : obj) : M (option string) := mapId_with id_of term.

(** The tail of the four factory operations: the new term takes
    [this.index++] as its [id] and is stored in its kind table under
    [mapId] and in [memoizationMap] under its [id]. *)
Inductive kind : Type := KBlankNode | KNamedNode | KLiteral | KQuad.

Definition register (k : kind) (mapId : option string) (mk : nat -> Z -> obj)
    : M obj :=
  fun f =>
    let term := mk (allocated f) (index f) in
    let key := default "undefined" mapId in
    let upd (k' : kind) (table : gmap string obj) :=
      match k, k' with
      | KBlankNode, KBlankNode | KNamedNode, KNamedNode
      | KLiteral, KLiteral | KQuad, KQuad => <[key := term]> table
      | _, _ => table
      end in
    (Ok term,
     Factory (bnIndex f) (index f + 1)
             (<[index f := term]> (memoizationMap f))
             (upd KBlankNode (blankNodeMap f)) (upd KNamedNode (namedNodeMap f))
             (upd KLiteral (literalMap f)) (upd KQuad (quadMap f))
             (S (allocated f))).

(** [`_:b${++this.bnIndex}`]; the increment is the one of the integers as
    long as its result is [exact]. *)
Definition next_bnode_name : M string :=
  fun f =>
    let n := bnIndex f + 1 in
    (Ok ("_:b" +:+ toString n),
     Factory n (index f) (memoizationMap f) (blankNodeMap f) (namedNodeMap f)
             (literalMap f) (quadMap f) (allocated f)).

(** [blankNode] past its argument check, for a string or a falsy value. *)
Definition blankNode_str (value : option string) : M obj :=
  bind (match value with Some v => ret v | None => next_bnode_name end)
    (fun usedValue =>
  bind (mapId (describeNode "BlankNode" usedValue)) (fun mapId f =>
    match (if truthy (match mapId with Some m => JStr m | None => JUndefined end)
           then at_key (blankNodeMap f) mapId else Absent) with
    | Own t => (Ok t, f)
    | FromPrototype name => (Inherited name, f)
    | Absent =>
      register KBlankNode mapId
        (fun r i => Obj r (Some i) (Some "BlankNode") usedValue "" None
                        None None None None) f
    end)).

Definition blankNode (value : jsval) : M obj :=
  fun f =>
    if truthy value && negb (is_string value)
    then (Throw (createException "BlankNode" value), f)
    else match (if truthy value then value else JUndefined) with
         | JStr v => blankNode_str (Some v) f
         | _ => blankNode_str None f
         end.

(** [namedNode] past its argument check. *)
Definition namedNode_str (value : string) : M obj :=
  bind (mapId (describeNode "NamedNode" value)) (fun mapId f =>
    match at_key (namedNodeMap f) mapId with
    | Own t => (Ok t, f)
    | FromPrototype name => (Inherited name, f)
    | Absent =>
      register KNamedNode mapId
        (fun r i => Obj r (Some i) (Some "NamedNode") value "" None
                        None None None None) f
    end).

Definition namedNode (value : jsval) : M obj :=
  match value with
  | JStr v => namedNode_str v
  | _ => fun f => (Throw (createException "NamedNode" value), f)
  end.

Definition defaultGraph : M obj := namedNode_str "rdf:defaultGraph".

(** [literal] for a string [value]; any other value is handed to
    [parseLiteral] of [PlainFactory], outside these sources. *)
Definition literal_datatype (lod : languageOrDatatype) : M obj :=
  match lod with
  | Language _ => namedNode_str datatypes.langString
  | Datatype d => ret d
  | Omitted => namedNode_str datatypes.string
  end.

Definition literal (value : string) (lod : languageOrDatatype) : M obj :=
  bind (literal_datatype lod) (fun datatype =>
  let language := languageOf lod in
  bind (mapId (describeLiteral value datatype language)) (fun mapId f =>
    match at_key (literalMap f) mapId with
    | Own t => (Ok t, f)
    | FromPrototype name => (Inherited name, f)
    | Absent =>
      register KLiteral mapId
        (fun r i => Obj r (Some i) (Some "Literal") value language
                        (Some datatype) None None None None) f
    end)).

(** The content key of [quad]: the template string over the identities of
    the three components and of the [graph] argument, [0] when there is
    none. *)
Definition quadMapId (subject predicate object : obj) (graph : option obj)
    : M string :=
  bind (id_obj subject) (fun si =>
  bind (id_obj predicate) (fun pi =>
  bind (id_obj object) (fun oi =>
  bind (match graph with Some g => id_obj g | None => ret 0 end) (fun gi =>
  ret (quadKey si pi oi gi))))).

Definition quad (subject predicate object : obj) (graph : option obj) : M obj :=
  bind (match graph with Some g => ret g | None => defaultGraph end)
    (fun usedGraph =>
  bind (quadMapId subject predicate object graph) (fun quadMapId f =>
    match at_key (quadMap f) (Some quadMapId) with
    | Own t => (Ok t, f)
    | FromPrototype name => (Inherited name, f)
    | Absent =>
      register KQuad (Some quadMapId)
        (fun r i => Obj r (Some i) None "" "" None
                        (Some subject) (Some predicate) (Some object)
                        (Some usedGraph)) f
    end)).

Definition fromId (i : Z) (f : factory) : option obj :=
  memoizationMap f !! i.

(** [this.id(x) === this.id(y)], left operand first. *)
Definition same_id (x y : jsval) : M bool :=
  bind (id x) (fun n => bind (id y) (fun m => ret (n =? m))).

(** [l && r]: [r] runs only when [l] gave [true]. *)
Definition and_then (l r : M bool) : M bool :=
  bind l (fun b => if b then r else ret false).

Definition equals (a b : jsval) : M bool :=
  if negb (truthy a) || negb (truthy b) then ret (strict_eq a b)
  else match a, b with
       | JArr xs, JArr ys =>
         let at_ (l : list jsval) (i : nat) := nth i l JUndefined in
         and_then (same_id (at_ xs 0%nat) (at_ ys 0%nat))
        (and_then (same_id (at_ xs 1%nat) (at_ ys 1%nat))
        (and_then (same_id (at_ xs 2%nat) (at_ ys 2%nat))
                  (same_id (at_ xs 3%nat) (at_ ys 3%nat))))
       | _, _ => same_id a b
       end.

(** A term that carries an identity: its [id] field is a non-zero number. *)
Definition stamped (t : obj) (n : Z) : Prop := truthy_id (obj_id t) = Some n.

(** [literal] once its datatype node is at hand. The key holds two commas
    and so names no member of [Object.prototype]. *)
Definition literal_tail (value language : string) (datatype : obj) : M obj :=
  fun f =>
    let key := value +:+ "," +:+ language +:+ "," +:+ obj_value datatype in
    match literalMap f !! key with
    | Some t => (Ok t, f)
    | None =>
      register KLiteral (Some key)
        (fun r i => Obj r (Some i) (Some "Literal") value language
                        (Some datatype) None None None None) f
    end.

(** [quad] once the graph to use and the content key are at hand; [key] is
    the template string of four numbers, with its commas. *)
Definition quad_tail (s p o usedGraph : obj) (key : string) : M obj :=
  fun f =>
    match quadMap f !! key with
    | Some t => (Ok t, f)
    | None =>
      register KQuad (Some key)
        (fun r i => Obj r (Some i) None "" "" None
                        (Some s) (Some p) (Some o) (Some usedGraph)) f
    end.

(** [f] with its identity counter moved to [n]: what [id] can do to the
    factory. *)
Definition with_index (f : factory) (n : Z) : factory :=
  Factory (bnIndex f) n (memoizationMap f) (blankNodeMap f) (namedNodeMap f)
          (literalMap f) (quadMap f) (allocated f).

(** A term stored in one of the four kind tables. *)
Definition stored (f : factory) (t : obj) : Prop :=
  exists key, blankNodeMap f !! key = Some t \/ namedNodeMap f !! key = Some t
              \/ literalMap f !! key = Some t \/ quadMap f !! key = Some t.

(** The state the operations keep the factory in: the identity counter is
    positive and above every identity in use, and every stored term is found
    in [memoizationMap] under the identity it carries. *)
Definition wf (f : factory) : Prop :=
  0 < index f /\
  (forall k t, memoizationMap f !! k = Some t -> 0 < k < index f) /\
  (forall t, stored f t ->
     exists n, obj_id t = Some n /\ memoizationMap f !! n = Some t).

(** [m] moves nothing but the identity counter, and only upwards. *)
Definition bumps {A} (m : M A) : Prop :=
  forall f r f', m f = (r, f') -> f' = with_index f (index f') /\ index f <= index f'.

(** [m] returns a value from every well-formed factory. *)
Definition returns {A} (m : M A) : Prop :=
  forall f, wf f -> exists a f', m f = (Ok a, f').

(** The factories a program can get to. *)
Inductive reachable : factory -> Prop :=
  | reach_create bn : reachable (create bn)
  | reach_blankNode v f : reachable f -> reachable (snd (blankNode v f))
  | reach_namedNode v f : reachable f -> reachable (snd (namedNode v f))
  | reach_literal v lod f : reachable f -> reachable (snd (literal v lod f))
  | reach_quad s p o g f : reachable f -> reachable (snd (quad s p o g f))
  | reach_id v f : reachable f -> reachable (snd (id v f))
  | reach_equals a b f : reachable f -> reachable (snd (equals a b f)).

(** [rdfBase(factory).equals], the method every term inherits:
    [factory.equals(this, other)]. *)
Definition term_equals (this : obj) (other : jsval) : M bool :=
  equals (JObj this) other.

(** What a kind table holds under a key: a blank or named node with the key
    as its value, a literal, a quad. *)
Definition fits (k : kind) (key : string) (t : obj) : Prop :=
  match k with
  | KBlankNode =>
    obj_termType t = Some "BlankNode" /\ obj_value t = key /\ isQuad t = false
  | KNamedNode =>
    obj_termType t = Some "NamedNode" /\ obj_value t = key /\ isQuad t = false
  | KLiteral => obj_termType t = Some "Literal" /\ isQuad t = false
  | KQuad => isQuad t = true /\ obj_termType t = None
  end.

#[global] Instance kind_eq_dec : EqDecision kind.
Proof. solve_decision. Defined.

Definition table (k : kind) (f : factory) : gmap string obj :=
  match k with
  | KBlankNode => blankNodeMap f
  | KNamedNode => namedNodeMap f
  | KLiteral => literalMap f
  | KQuad => quadMap f
  end.

(** Every entry of a kind table fits its key, and every entry of
    [memoizationMap] carries the identity it is stored under. *)
Definition keyed (f : factory) : Prop :=
  (forall k key t, table k f !! key = Some t -> fits k key t) /\
  (forall n t, memoizationMap f !! n = Some t -> obj_id t = Some n).

(** [f'] has every entry that [f] has, in the kind tables and in
    [memoizationMap]. *)
Definition grows (f f' : factory) : Prop :=
  (forall k key t, table k f !! key = Some t -> table k f' !! key = Some t) /\
  (forall n t, memoizationMap f !! n = Some t -> memoizationMap f' !! n = Some t).

(** [n] calls of [blankNode()] in a row, with what each returned. *)
Fixpoint blankNodes (n : nat) (f : factory) : list (outcome obj) * factory :=
  match n with
  | O => ([], f)
  | S m =>
    let '(r, f1) := blankNode JUndefined f in
    let '(rs, f2) := blankNodes m f1 in
    (r :: rs, f2)
  end.

End IndexFactory.

(** ** Running the factories on examples *)

(** A small hash to run the hash factory with; the theorems hold for any
    function in the place of [murmur3]. *)
Definition lengthHash (s : string) (seed : Z) : Z :=
  (Z.of_nat (String.length s) * 31 + seed) mod 4294967296.

Definition hash0 : HashFactory.factory := HashFactory.create None None None.
Definition index0 : IndexFactory.factory := IndexFactory.create None.

(** A second call gives back what the first one gave and leaves the factory
    as the first call left it. *)
Definition repeats {S A : Type} (op : S -> A * S) (f : S) : Prop :=
  op (op f).2 = op f.

(** Two calls in a row return two different instances. *)
Definition distinct_instances {S : Type} (op : S -> outcome obj * S) (f : S) : Prop :=
  exists t1 f1 t2 f2,
    op f = (Ok t1, f1) /\ op f1 = (Ok t2, f2) /\
    strict_eq (JObj t1) (JObj t2) = false.

(** What the specification says of the literal that [literal] returns for a
    string [v]: without second argument, language [""] and datatype
    [xsd:string]; with a language, that language and datatype
    [rdf:langString]; with a datatype, a datatype of that IRI and language
    [""]. *)
Definition literalShape (lod : languageOrDatatype) (v : string) (t : obj) : Prop :=
  obj_termType t = Some "Literal" /\ obj_value t = v /\
  match lod with
  | Omitted =>
    obj_language t = "" /\
    exists d, obj_datatype t = Some d /\
              obj_value d = "http://www.w3.org/2001/XMLSchema#string"
  | Language l =>
    obj_language t = l /\
    exists d, obj_datatype t = Some d /\
              obj_value d = "http://www.w3.org/1999/02/22-rdf-syntax-ns#langString"
  | Datatype d =>
    obj_language t = "" /\
    exists d', obj_datatype t = Some d' /\ obj_value d' = obj_value d
  end.

(** Every entry of [literalMap] is a literal that sits under the content key
    made of its own value, language and datatype IRI. *)
Definition literals_keyed (f : IndexFactory.factory) : Prop :=
  forall key t,
    IndexFactory.literalMap f !! key = Some t ->
    obj_termType t = Some "Literal" /\
    exists d, obj_datatype t = Some d /\
              key = obj_value t +:+ "," +:+ obj_language t +:+ "," +:+ obj_value d.

(** The literal that [literal] makes when the store has none: the value, the
    language of the second argument, the datatype node [d]. *)
Definition newLiteral (v : string) (lod : languageOrDatatype) (d t : obj) : Prop :=
  obj_termType t = Some "Literal" /\ obj_value t = v /\
  obj_language t = languageOf lod /\ obj_datatype t = Some d.

(** The datatype node that [literal] uses, in the hash factory [f]: the node
    passed, or for the IRI that the second argument stands for the term
    the store holds under the identity of that IRI, or else a new named
    node with that IRI. *)
Definition datatypeNode (murmur3 : string -> Z -> Z) (f : HashFactory.factory)
    (lod : languageOrDatatype) (d : obj) : Prop :=
  match lod with
  | Datatype d0 => d = d0
  | _ =>
    exists iri, datatypeIRI lod = Some iri /\
      (HashFactory.memoizationMap f !! murmur3 iri (HashFactory.seedBase f + 2) = Some d
       \/ (HashFactory.memoizationMap f !! murmur3 iri (HashFactory.seedBase f + 2) = None
           /\ obj_termType d = Some "NamedNode" /\ obj_value d = iri))
  end.

(** [id] gives [n] for [v] and leaves the factory as it is: [v] carries its
    identity or is found in the tables. *)
Definition settled (f : IndexFactory.factory) (v : jsval) (n : Z) : Prop :=
  IndexFactory.id v f = (Ok n, f).


Definition index_roundtrip (f : IndexFactory.factory) (t : obj) : Prop :=
  exists n, obj_id t = Some n /\ IndexFactory.fromId n f = Some t.

(** The look-up that [id] makes for [t] finds nothing: [mapId] gives [key],
    leaving the factory as [f1], and the kind table of [t] has no entry
    under [key]. *)
Definition misses (t : obj) (f : IndexFactory.factory) (key : option string)
    (f1 : IndexFactory.factory) : Prop :=
  IndexFactory.mapId t f = (Ok key, f1) /\
  exists table, IndexFactory.kindMap t f1 = Some table /\
                IndexFactory.at_key table key = Absent.

(** The content key of [t] is [key] whatever the identity counter is, and
    computing it leaves the factory alone. *)
Definition stable_key (t : obj) (f : IndexFactory.factory) (key : option string) : Prop :=
  forall k, IndexFactory.mapId t (IndexFactory.with_index f k)
            = (Ok key, IndexFactory.with_index f k).

(** The components of a quad description are nodes and literals, as the
    [Quad] interface has them, not quads themselves. *)
Definition flat (t : obj) : bool :=
  let node (x : option obj) : bool :=
    match x with Some c => negb (isQuad c) | None => true end in
  node (obj_subject t) && node (obj_predicate t) && node (obj_object t)
  && node (obj_graph t).

(** No stored quad has a content key that mentions a number the identity
    counter has not reached yet: the identities in the keys were drawn from
    this counter. *)
Definition fresh_keys (f : IndexFactory.factory) : Prop :=
  forall a b c d u,
    IndexFactory.quadMap f !! IndexFactory.quadKey a b c d = Some u ->
    a < IndexFactory.index f /\ b < IndexFactory.index f /\
    c < IndexFactory.index f /\ d < IndexFactory.index f.

(** What [id] does for a component, whatever the identity counter [m] is:
    it returns a number [n] that does not depend on [m] ([Some n]: the
    component carries [n], or is found in its table, or is of no known
    kind), or it draws [m] ([None]). [drawn] is the number of identities
    drawn. *)
Definition drawn (a : option Z) : Z :=
  match a with Some _ => 0 | None => 1 end.

Definition answers (f : IndexFactory.factory) (m : IndexFactory.M Z) (a : option Z) : Prop :=
  forall k, m (IndexFactory.with_index f k)
            = (Ok (default k a), IndexFactory.with_index f (k + drawn a)).

(** The identity of [c] is [n] in [f] and in every factory that has the
    entries of [f], and [id] finds it without moving the counter: [c]
    carries [n], or describes a node that [f] has stored. *)
Definition resolved (f : IndexFactory.factory) (c : obj) (n : Z) : Prop :=
  forall f', IndexFactory.grows f f' -> IndexFactory.id_obj c f' = (Ok n, f').

(** Terms that carry identities, for the examples. *)
Definition node1 : obj := Obj 11 (Some 1) (Some "NamedNode") "s" "" None None None None None.
Definition node2 : obj := Obj 12 (Some 2) (Some "NamedNode") "p" "" None None None None None.
Definition node3 : obj := Obj 13 (Some 3) (Some "NamedNode") "o" "" None None None None None.
Definition node4 : obj := Obj 14 (Some 4) (Some "NamedNode") "g" "" None None None None None.

Definition oddDatatype : obj :=
  describeNode "NamedNode" "b,,http://www.w3.org/2001/XMLSchema#string".

Definition nodeP : obj := Obj 21 (Some 100) (Some "NamedNode") "p" "" None None None None None.
Definition nodeO : obj := Obj 22 (Some 101) (Some "NamedNode") "o" "" None None None None None.
Definition nodeX : obj := Obj 23 (Some 5) (Some "NamedNode") "x" "" None None None None None.

(** A quad description without identity whose subject is a description
    without identity. *)
Definition looseQuad : obj :=
  Obj 0 None None "" "" None
      (Some (describeNode "NamedNode" "a")) (Some nodeP) (Some nodeO) None.

(** A comma occurs in the string. *)
Fixpoint has_comma (s : string) : bool :=
  match s with
  | EmptyString => false
  | String c r => Ascii.eqb c (Ascii.ascii_of_nat 44) || has_comma r
  end.

(** [rdflibQuadPatch.why], the getter every quad inherits: its [graph]. *)
Definition why (quad : obj) : option obj := obj_graph quad.

(** A quad with exactly these four fields. *)
Definition quad_of (s p o u t : obj) : Prop :=
  obj_subject t = Some s /\ obj_predicate t = Some p /\ obj_object t = Some o /\
  obj_graph t = Some u /\ why t = Some u /\ obj_termType t = None.

(** A description of a node: the kind tag and the value, no identity, no
    quad fields. *)
Definition describes (kind v : string) (d : obj) : Prop :=
  obj_termType d = Some kind /\ obj_value d = v /\
  truthy_id (obj_id d) = None /\ isQuad d = false.

(** An index factory that has interned the named nodes ["s"], ["p"], ["o"]
    and ["g"]. *)
Definition namedStore : IndexFactory.factory :=
  snd (IndexFactory.namedNode (JStr "g")
    (snd (IndexFactory.namedNode (JStr "o")
      (snd (IndexFactory.namedNode (JStr "p")
        (snd (IndexFactory.namedNode (JStr "s") index0))))))).

(** The content of an object: its fields and those of the objects in its
    fields, without the references. Two descriptions are equal by content
    when their contents agree. *)
Fixpoint content (t : obj) : obj :=
  match t with
  | Obj _ i k v l d s p o g =>
    let field (x : option obj) : option obj :=
      match x with Some y => Some (content y) | None => None end in
    Obj 0 i k v l (field d) (field s) (field p) (field o) (field g)
  end.

Definition same_content (a b : obj) : Prop := content a = content b.

(** Two [graph] arguments of [quad] that are equal by content: both left
    out, or two graphs of the same content. *)
Definition same_graph (g g' : option obj) : Prop :=
  match g, g' with
  | Some x, Some y => same_content x y
  | None, None => True
  | _, _ => False
  end.

(** Two second arguments of [literal] that are equal by content. *)
Definition same_request (lod lod' : languageOrDatatype) : Prop :=
  match lod, lod' with
  | Omitted, Omitted => True
  | Language l, Language l' => l = l'
  | Datatype d, Datatype d' => same_content d d'
  | _, _ => False
  end.

(** [f'] is [f] after any number of calls of the operations. *)
Inductive hash_later (murmur3 : string -> Z -> Z) (f : HashFactory.factory)
    : HashFactory.factory -> Prop :=
  | hash_now : hash_later murmur3 f f
  | hash_then_blankNode v f' :
      hash_later murmur3 f f' ->
      hash_later murmur3 f (snd (HashFactory.blankNode murmur3 v f'))
  | hash_then_namedNode v f' :
      hash_later murmur3 f f' ->
      hash_later murmur3 f (snd (HashFactory.namedNode murmur3 v f'))
  | hash_then_literal v lod f' :
      hash_later murmur3 f f' ->
      hash_later murmur3 f (snd (HashFactory.literal murmur3 v lod f'))
  | hash_then_quad s p o g f' :
      hash_later murmur3 f f' ->
      hash_later murmur3 f (snd (HashFactory.quad murmur3 s p o g f')).

Inductive index_later (f : IndexFactory.factory) : IndexFactory.factory -> Prop :=
  | index_now : index_later f f
  | index_then_blankNode v f' :
      index_later f f' -> index_later f (snd (IndexFactory.blankNode v f'))
  | index_then_namedNode v f' :
      index_later f f' -> index_later f (snd (IndexFactory.namedNode v f'))
  | index_then_literal v lod f' :
      index_later f f' -> index_later f (snd (IndexFactory.literal v lod f'))
  | index_then_quad s p o g f' :
      index_later f f' -> index_later f (snd (IndexFactory.quad s p o g f'))
  | index_then_id v f' :
      index_later f f' -> index_later f (snd (IndexFactory.id v f'))
  | index_then_equals a b f' :
      index_later f f' -> index_later f (snd (IndexFactory.equals a b f')).

(** [namedStore] after [quad] on three terms that carry the identities of
    its nodes ["s"], ["p"] and ["o"]. *)
Definition quadStore : IndexFactory.factory :=
  snd (IndexFactory.quad node1 node2 node3 None namedStore).

(** * Properties *)

(** Induction on an object through its fields. *)
Section ObjInduction.

Variable P : obj -> Prop.

Definition onField (x : option obj) : Prop :=
  match x with Some y => P y | None => True end.

Hypothesis step : forall r i k v l d s p o g,
  onField d -> onField s -> onField p -> onField o -> onField g ->
  P (Obj r i k v l d s p o g).

Fixpoint obj_fields_ind (t : obj) : P t :=
  match t with
  | Obj r i k v l d s p o g =>
    let rec (x : option obj) : onField x :=
      match x with Some y => obj_fields_ind y | None => I end in
    step r i k v l d s p o g (rec d) (rec s) (rec p) (rec o) (rec g)
  end.

End ObjInduction.

(** ** Interning in the hash factory *)
Module HashFacts.
Section WithHash.

Variable murmur3 : string -> Z -> Z.

Local Abbreviation factory := HashFactory.factory.
Local Abbreviation id_obj := (HashFactory.id_obj murmur3).
Local Abbreviation intern := HashFactory.intern.
Local Abbreviation namedNode_str := (HashFactory.namedNode_str murmur3).
Local Abbreviation blankNode_str := (HashFactory.blankNode_str murmur3).
Local Abbreviation literal := (HashFactory.literal murmur3).
Local Abbreviation quad := (HashFactory.quad murmur3).
Local Abbreviation memoizationMap := HashFactory.memoizationMap.
Local Abbreviation seedBase := HashFactory.seedBase.
Local Abbreviation extends := HashFactory.extends.

Lemma hash_extends_refl f : extends f f.
Proof. split; auto. Qed.

Lemma hash_extends_trans f g h : extends f g -> extends g h -> extends f h.
Proof. intros [? ?] [? ?]; split; [congruence | auto]. Qed.

Lemma hash_intern_hit i mk f t :
  memoizationMap f !! i = Some t -> intern i mk f = (t, f).
Proof. unfold HashFactory.intern. intros ->. reflexivity. Qed.

Lemma hash_intern_spec i mk f t f' :
  intern i mk f = (t, f') ->
  memoizationMap f' !! i = Some t /\ extends f f'.
Proof.
  unfold HashFactory.intern.
  destruct (memoizationMap f !! i) as [u|] eqn:E; intros [= <- <-].
  - split; [exact E | apply hash_extends_refl].
  - split; [apply lookup_insert_eq |].
    split; [reflexivity |]. simpl. intros k t Hk.
    rewrite lookup_insert_ne; [exact Hk | congruence].
Qed.

Lemma hash_id_describe_named seed v :
  id_obj seed (describeNode "NamedNode" v) = murmur3 v (seed + 2).
Proof. reflexivity. Qed.

Lemma hash_id_describe_blank seed v :
  id_obj seed (describeNode "BlankNode" v) = murmur3 v (seed + 1).
Proof. reflexivity. Qed.

Lemma hash_namedNode_str_spec v f t f' :
  namedNode_str v f = (t, f') ->
  memoizationMap f' !! murmur3 v (seedBase f + 2) = Some t /\ extends f f'.
Proof. unfold HashFactory.namedNode_str. rewrite hash_id_describe_named. apply hash_intern_spec. Qed.

Lemma hash_namedNode_str_hit v f t :
  memoizationMap f !! murmur3 v (seedBase f + 2) = Some t ->
  namedNode_str v f = (t, f).
Proof. unfold HashFactory.namedNode_str. rewrite hash_id_describe_named. apply hash_intern_hit. Qed.

Lemma hash_namedNode_str_repeats v f : repeats (namedNode_str v) f.
Proof.
  unfold repeats. destruct (namedNode_str v f) as [t f'] eqn:E. simpl.
  apply hash_namedNode_str_spec in E as [Ht [Hs _]].
  apply hash_namedNode_str_hit. rewrite Hs. exact Ht.
Qed.

Local Abbreviation consistent := (HashFactory.consistent murmur3).

Lemma hash_consistent_create bn seed :
  consistent (HashFactory.create bn seed None).
Proof. intros k t. unfold HashFactory.create. simpl. rewrite lookup_empty. discriminate. Qed.

(** Stamping a description with the identity computed for it does not change
    what [id] returns. *)
Lemma hash_id_obj_stamp seed r r' k v l d s p o g :
  id_obj seed (Obj r' (Some (id_obj seed (Obj r None k v l d s p o g)))
                   k v l d s p o g)
  = id_obj seed (Obj r None k v l d s p o g).
Proof.
  simpl. destruct (_ =? 0); reflexivity.
Qed.

Lemma hash_intern_consistent i mk f t f' :
  consistent f ->
  (forall r, obj_id (mk r) = Some i /\ id_obj (seedBase f) (mk r) = i) ->
  intern i mk f = (t, f') ->
  consistent f' /\ obj_id t = Some i /\ id_obj (seedBase f) t = i.
Proof.
  intros Hc Hmk. unfold HashFactory.intern.
  destruct (memoizationMap f !! i) as [u|] eqn:E; intros [= <- <-].
  - split; [exact Hc | apply Hc, E].
  - split; [| apply Hmk].
    intros k t. simpl. destruct (decide (k = i)) as [->|Hk].
    + rewrite lookup_insert_eq. intros [= <-]. apply Hmk.
    + rewrite lookup_insert_ne by congruence. apply Hc.
Qed.

Lemma hash_namedNode_str_consistent v f t f' :
  consistent f -> namedNode_str v f = (t, f') ->
  consistent f' /\ obj_id t = Some (murmur3 v (seedBase f + 2))
  /\ id_obj (seedBase f) t = murmur3 v (seedBase f + 2).
Proof.
  intros Hc. unfold HashFactory.namedNode_str. rewrite hash_id_describe_named.
  apply hash_intern_consistent; [exact Hc |].
  intros r. split; [reflexivity |].
  apply (hash_id_obj_stamp (seedBase f) 0 r (Some "NamedNode") v "" None None None None None).
Qed.

Lemma hash_blankNode_str_consistent v f t f' :
  consistent f -> blankNode_str v f = (t, f') -> consistent f'.
Proof.
  intros Hc. unfold HashFactory.blankNode_str.
  destruct v as [v|]; rewrite hash_id_describe_blank; intros E;
    eapply hash_intern_consistent in E; try apply E; try exact Hc;
    intros r; (split; [reflexivity |]); simpl.
  - apply (hash_id_obj_stamp (seedBase f) 0 r (Some "BlankNode") v "" None None None None None).
  - apply (hash_id_obj_stamp (seedBase f) 0 r (Some "BlankNode") _ "" None None None None None).
Qed.

Lemma hash_literal_consistent v lod f t f' :
  consistent f -> literal v lod f = (t, f') -> consistent f'.
Proof.
  intros Hc. unfold HashFactory.literal, HashFactory.literal_datatype, languageOf.
  assert (T : forall d l f1, consistent f1 ->
            intern (id_obj (seedBase f1) (describeLiteral v d l))
              (fun r => Obj r (Some (id_obj (seedBase f1) (describeLiteral v d l)))
                         (Some "Literal") v l (Some d) None None None None) f1
            = (t, f') -> consistent f').
  { intros d l f1 Hc1 E. eapply hash_intern_consistent in E; [apply E | exact Hc1 |].
    intros r. split; [reflexivity |].
    apply (hash_id_obj_stamp (seedBase f1) 0 r (Some "Literal") v l (Some d) None None None None). }
  destruct lod as [|l|d].
  - destruct (namedNode_str datatypes.string f) as [d f1] eqn:E1.
    apply hash_namedNode_str_consistent in E1 as [Hc1 _]; [| exact Hc].
    apply T, Hc1.
  - destruct (namedNode_str datatypes.langString f) as [d f1] eqn:E1.
    apply hash_namedNode_str_consistent in E1 as [Hc1 _]; [| exact Hc].
    apply T, Hc1.
  - apply T, Hc.
Qed.

Local Abbreviation quadIdentity := (HashFactory.quadIdentity murmur3).

Lemma hash_quad_consistent s p o g f t f' :
  consistent f -> quad s p o g f = (t, f') ->
  consistent f' /\
  obj_id t = Some (quadIdentity (seedBase f) s p o (HashFactory.usedGraph murmur3 g f)) /\
  id_obj (seedBase f) t
    = quadIdentity (seedBase f) s p o (HashFactory.usedGraph murmur3 g f).
Proof.
  intros Hc. unfold HashFactory.quad, HashFactory.usedGraph, quadIdentity.
  destruct g as [g|].
  - intros E. eapply hash_intern_consistent in E; [exact E | exact Hc |].
    intros r. split; [reflexivity |]. simpl. destruct (_ =? 0); reflexivity.
  - unfold HashFactory.defaultGraph.
    destruct (namedNode_str "rdf:defaultGraph" f) as [d f1] eqn:E1. simpl.
    pose proof (hash_namedNode_str_spec _ _ _ _ E1) as [_ [Hs _]].
    apply hash_namedNode_str_consistent in E1 as [Hc1 _]; [| exact Hc].
    rewrite Hs. intros E.
    eapply hash_intern_consistent in E; [| exact Hc1 |].
    + rewrite Hs in E. exact E.
    + intros r. rewrite Hs. split; [reflexivity |]. simpl. destruct (_ =? 0); reflexivity.
Qed.

(** *** From a term to its identity and back *)






(** *** Every reachable store is consistent *)

Lemma hash_reachable_consistent f : HashFactory.reachable murmur3 f -> consistent f.
Proof.
  induction 1 as [bn seed | v f _ IH | v f _ IH | v lod f _ IH | s p o g f _ IH].
  - apply hash_consistent_create.
  - unfold HashFactory.blankNode, HashFactory.blankNode_with.
    destruct (_ && _ && _); [exact IH |].
    destruct (truthy v).
    + destruct v; try exact IH.
      destruct (blankNode_str (Some s) f) as [t f'] eqn:E. simpl.
      eapply hash_blankNode_str_consistent; eauto.
    + destruct (blankNode_str None f) as [t f'] eqn:E. simpl.
      eapply hash_blankNode_str_consistent; eauto.
  - unfold HashFactory.namedNode, HashFactory.namedNode_with.
    destruct (_ && _); [exact IH |].
    destruct v; try exact IH.
    destruct (namedNode_str s f) as [t f'] eqn:E. simpl.
    eapply hash_namedNode_str_consistent; eauto.
  - destruct (literal v lod f) as [t f'] eqn:E. simpl.
    eapply hash_literal_consistent; eauto.
  - destruct (quad s p o g f) as [t f'] eqn:E. simpl.
    eapply hash_quad_consistent; eauto.
Qed.

End WithHash.
End HashFacts.

(** ** Keys and the members of [Object.prototype] *)

Lemma has_comma_app a b : has_comma (a +:+ b) = has_comma a || has_comma b.
Proof.
  induction a as [|c a IH]; simpl; [reflexivity |].
  rewrite IH. apply orb_assoc.
Qed.

(** No member of [Object.prototype] has a comma in its name. *)
Lemma in_prototype_no_comma key : in_prototype key = true -> has_comma key = false.
Proof.
  unfold in_prototype, objectPrototype. simpl. intros H.
  repeat match type of H with
  | (String.eqb ?k ?c || _) = true =>
    destruct (String.eqb_spec k c) as [E|_]; [subst k; reflexivity | simpl in H]
  end.
  discriminate.
Qed.

Lemma comma_key_plain a b : in_prototype (a +:+ "," +:+ b) = false.
Proof.
  destruct (in_prototype _) eqn:E; [| reflexivity].
  apply in_prototype_no_comma in E.
  rewrite has_comma_app in E. simpl in E.
  rewrite orb_true_r in E. discriminate.
Qed.

Lemma at_key_plain table key :
  in_prototype key = false ->
  IndexFactory.at_key table (Some key)
  = match table !! key with Some t => Own t | None => Absent end.
Proof. unfold IndexFactory.at_key. simpl. intros ->. reflexivity. Qed.

Lemma at_key_absent table key :
  IndexFactory.at_key table (Some key) = Absent ->
  table !! key = None /\ in_prototype key = false.
Proof.
  unfold IndexFactory.at_key. simpl.
  destruct (table !! key); [discriminate |].
  destruct (in_prototype key); [discriminate | auto].
Qed.

Lemma quadKey_plain s p o g : in_prototype (IndexFactory.quadKey s p o g) = false.
Proof. unfold IndexFactory.quadKey. apply comma_key_plain. Qed.

(** The decimal form of a number has no comma. *)
Lemma pretty_N_char_no_comma x :
  Ascii.eqb (pretty_N_char x) (Ascii.ascii_of_nat 44) = false.
Proof. unfold pretty_N_char. repeat case_match; reflexivity. Qed.

Lemma pretty_N_go_no_comma x s :
  has_comma (pretty_N_go x s) = has_comma s.
Proof.
  revert s. induction (N.lt_wf_0 x) as [x _ IH]; intros s.
  assert (x = 0 \/ 0 < x)%N as [->|Hx] by lia.
  - rewrite pretty_N_go_0. reflexivity.
  - rewrite pretty_N_go_step by exact Hx.
    rewrite IH by (apply N.div_lt; lia).
    simpl. rewrite pretty_N_char_no_comma. reflexivity.
Qed.

Lemma pretty_N_no_comma (x : N) : has_comma (pretty x) = false.
Proof.
  unfold pretty, pretty_N. destruct (decide (x = 0%N)); [reflexivity |].
  apply pretty_N_go_no_comma.
Qed.

Lemma toString_no_comma (x : Z) : has_comma (toString x) = false.
Proof.
  unfold toString, pretty, pretty_Z. destruct x as [|p|p].
  - reflexivity.
  - apply (pretty_N_no_comma (Npos p)).
  - rewrite has_comma_app. simpl. apply (pretty_N_no_comma (Npos p)).
Qed.

(** Splitting two joined strings at the first comma. *)
Lemma comma_split a a' r r' :
  has_comma a = false ->
  a +:+ "," +:+ r = a' +:+ "," +:+ r' ->
  (a = a' /\ r = r') \/ (exists x, a' = a +:+ "," +:+ x /\ r = x +:+ "," +:+ r').
Proof.
  revert a'. induction a as [|c a IH]; intros a' Ha H.
  - destruct a' as [|c' a']; simpl in H.
    + left. injection H as H. auto.
    + right. injection H as Hc H. subst c'. exists a'. simpl. auto.
  - simpl in Ha. apply orb_false_iff in Ha as [Hc Ha].
    destruct a' as [|c' a']; simpl in H.
    + injection H as Hcc _. subst c. discriminate.
    + injection H as Hcc H. subst c'.
      destruct (IH a' Ha H) as [[-> ->]|(x & -> & ->)].
      * left. auto.
      * right. exists x. auto.
Qed.

Lemma comma_split_free a a' r r' :
  has_comma a = false -> has_comma a' = false ->
  a +:+ "," +:+ r = a' +:+ "," +:+ r' -> a = a' /\ r = r'.
Proof.
  intros Ha Ha' H.
  destruct (comma_split a a' r r' Ha H) as [?|(x & -> & _)]; [assumption |].
  rewrite has_comma_app in Ha'. simpl in Ha'. rewrite orb_true_r in Ha'. discriminate.
Qed.

(** The content key of a quad determines the four identities. *)
Lemma quadKey_inj a b c d a' b' c' d' :
  IndexFactory.quadKey a b c d = IndexFactory.quadKey a' b' c' d' ->
  a = a' /\ b = b' /\ c = c' /\ d = d'.
Proof.
  unfold IndexFactory.quadKey. intros H.
  apply comma_split_free in H as [Ha H]; try apply toString_no_comma.
  apply comma_split_free in H as [Hb H]; try apply toString_no_comma.
  apply comma_split_free in H as [Hc Hd]; try apply toString_no_comma.
  unfold toString in *.
  repeat split; apply (inj pretty); assumption.
Qed.

(** The content key of a literal determines the value, the language and the
    IRI of the datatype when none of the three has a comma. *)
Lemma literalKey_inj v l dv v' l' dv' :
  has_comma v = false -> has_comma l = false -> has_comma dv = false ->
  v +:+ "," +:+ l +:+ "," +:+ dv = v' +:+ "," +:+ l' +:+ "," +:+ dv' ->
  v = v' /\ l = l' /\ dv = dv'.
Proof.
  intros Hv Hl Hd H.
  assert (Hno : forall x y, dv <> x +:+ "," +:+ y).
  { intros x y E. rewrite E, has_comma_app in Hd. simpl in Hd.
    rewrite orb_true_r in Hd. discriminate. }
  destruct (comma_split _ _ _ _ Hv H) as [[<- H1]|(x & -> & H1)].
  - destruct (comma_split _ _ _ _ Hl H1) as [[<- <-]|(y & -> & H2)]; [auto |].
    destruct (Hno _ _ H2).
  - destruct (comma_split _ _ _ _ Hl H1) as [[<- H2]|(y & -> & H2)];
      destruct (Hno _ _ H2).
Qed.

(** ** Interning in the index factory *)
Module IndexFacts.
Import IndexFactory.

Lemma index_namedNode_str_eq v f :
  namedNode_str v f =
  match namedNodeMap f !! v with
  | Some t => (Ok t, f)
  | None =>
    if in_prototype v then (Inherited v, f)
    else register KNamedNode (Some v)
           (fun r i => Obj r (Some i) (Some "NamedNode") v "" None
                           None None None None) f
  end.
Proof.
  unfold namedNode_str, bind, mapId, at_key. simpl.
  destruct (namedNodeMap f !! v); [reflexivity |].
  destruct (in_prototype v); reflexivity.
Qed.

Lemma index_blankNode_str_eq v f :
  v <> "" ->
  blankNode_str (Some v) f =
  match blankNodeMap f !! v with
  | Some t => (Ok t, f)
  | None =>
    if in_prototype v then (Inherited v, f)
    else register KBlankNode (Some v)
           (fun r i => Obj r (Some i) (Some "BlankNode") v "" None
                           None None None None) f
  end.
Proof.
  intros Hv. unfold blankNode_str, bind, mapId, at_key. simpl.
  destruct (String.eqb_spec v "") as [->|_]; [congruence |]. simpl.
  destruct (blankNodeMap f !! v); [reflexivity |].
  destruct (in_prototype v); reflexivity.
Qed.

(** What [namedNode] leaves behind: the node is in [namedNodeMap] under its
    value, and the literal and quad tables are as they were. *)
Lemma index_namedNode_str_spec v f :
  in_prototype v = false ->
  exists t f',
    namedNode_str v f = (Ok t, f') /\
    namedNodeMap f' !! v = Some t /\
    literalMap f' = literalMap f /\ quadMap f' = quadMap f /\
    blankNodeMap f' = blankNodeMap f.
Proof.
  intros Hv. rewrite index_namedNode_str_eq, Hv.
  destruct (namedNodeMap f !! v) as [t|] eqn:E.
  - exists t, f. auto.
  - eexists _, _. split; [reflexivity |]. simpl.
    split; [apply lookup_insert_eq | auto].
Qed.

Lemma index_namedNode_str_hit v f t :
  namedNodeMap f !! v = Some t -> namedNode_str v f = (Ok t, f).
Proof. intros E. rewrite index_namedNode_str_eq, E. reflexivity. Qed.

Lemma index_literal_eq v lod f :
  literal v lod f =
  bind (literal_datatype lod) (literal_tail v (languageOf lod)) f.
Proof.
  unfold literal, bind, literal_tail, mapId. simpl.
  destruct (literal_datatype lod f) as [[d| | |] f1]; try reflexivity.
  rewrite at_key_plain by apply comma_key_plain.
  destruct (literalMap f1 !! _); reflexivity.
Qed.

Lemma index_literal_tail_repeats v l d f :
  exists t f',
    literal_tail v l d f = (Ok t, f') /\
    literal_tail v l d f' = (Ok t, f') /\
    namedNodeMap f' = namedNodeMap f.
Proof.
  unfold literal_tail.
  destruct (literalMap f !! _) as [t|] eqn:E.
  - exists t, f. rewrite E. auto.
  - eexists _, _. split; [reflexivity |]. simpl.
    rewrite lookup_insert_eq. auto.
Qed.

Lemma index_id_obj_stamped t n f : stamped t n -> id_obj t f = (Ok n, f).
Proof. destruct t. unfold stamped. simpl. intros ->. reflexivity. Qed.

Lemma index_quadMapId_stamped s p o g ns np no ng f :
  stamped s ns -> stamped p np -> stamped o no ->
  (match g with Some x => stamped x ng | None => ng = 0 end) ->
  quadMapId s p o g f = (Ok (quadKey ns np no ng), f).
Proof.
  intros Hs Hp Ho Hg. unfold quadMapId, bind.
  rewrite (index_id_obj_stamped s ns f Hs), (index_id_obj_stamped p np f Hp),
          (index_id_obj_stamped o no f Ho).
  destruct g as [x|].
  - rewrite (index_id_obj_stamped x ng f Hg). reflexivity.
  - subst ng. reflexivity.
Qed.

Lemma index_quadMapId_plain s p o g f key f' :
  quadMapId s p o g f = (Ok key, f') -> in_prototype key = false.
Proof.
  unfold quadMapId, bind, ret.
  destruct (id_obj s f) as [[si| | |] f1]; try discriminate.
  destruct (id_obj p f1) as [[pi| | |] f2]; try discriminate.
  destruct (id_obj o f2) as [[oi| | |] f3]; try discriminate.
  destruct (match g with Some g0 => id_obj g0 | None => fun f0 => (Ok 0, f0) end f3)
    as [[gi| | |] f4]; try discriminate.
  intros [= <- _]. apply quadKey_plain.
Qed.

Lemma index_quad_eq s p o g f :
  quad s p o g f =
  bind (match g with Some x => ret x | None => defaultGraph end)
       (fun usedGraph => bind (quadMapId s p o g) (quad_tail s p o usedGraph)) f.
Proof.
  unfold quad, bind, quad_tail.
  destruct (match g with Some x => ret x | None => defaultGraph end f)
    as [[u| | |] f1]; try reflexivity.
  destruct (quadMapId s p o g f1) as [[key| | |] f2] eqn:E; try reflexivity.
  rewrite at_key_plain by exact (index_quadMapId_plain _ _ _ _ _ _ _ E).
  destruct (quadMap f2 !! key); reflexivity.
Qed.

Lemma index_quad_tail_repeats s p o u key f :
  exists t f',
    quad_tail s p o u key f = (Ok t, f') /\
    quad_tail s p o u key f' = (Ok t, f') /\
    namedNodeMap f' = namedNodeMap f.
Proof.
  unfold quad_tail.
  destruct (quadMap f !! key) as [t|] eqn:E.
  - exists t, f. rewrite E. auto.
  - eexists _, _. split; [reflexivity |]. simpl.
    rewrite lookup_insert_eq. auto.
Qed.

(** *** What [id] does to the factory *)

(** [id] as the source writes it: the stamped identity if there is one, and
    otherwise [mapId] followed by the look-up in the kind table. *)
Lemma index_id_obj_eq t :
  id_obj t =
  match truthy_id (obj_id t) with
  | Some n => ret n
  | None =>
    bind (mapId t) (fun mapId f =>
      match kindMap t f with
      | Some table => id_or_next (at_key table mapId) f
      | None => (Ok (-1), f)
      end)
  end.
Proof. destruct t. reflexivity. Qed.

Lemma index_with_index_self f : with_index f (index f) = f.
Proof. destruct f. reflexivity. Qed.

Lemma index_with_index_twice f n m : with_index (with_index f n) m = with_index f m.
Proof. reflexivity. Qed.

Lemma index_bumps_ret {A} (a : A) : bumps (ret a).
Proof.
  intros f r f' [= <- <-]. rewrite index_with_index_self. split; [reflexivity | lia].
Qed.

Lemma index_bumps_bind {A B} (m : M A) (k : A -> M B) :
  bumps m -> (forall a, bumps (k a)) -> bumps (bind m k).
Proof.
  intros Hm Hk f r f'. unfold bind.
  destruct (m f) as [[a|e| |] f1] eqn:E; apply Hm in E as [E1 L1].
  - intros E2. apply Hk in E2 as [E2 L2]. split; [| lia].
    rewrite E2, E1. reflexivity.
  - intros [= <- <-]. split; [exact E1 | lia].
  - intros [= <- <-]. split; [exact E1 | lia].
  - intros [= <- <-]. split; [exact E1 | lia].
Qed.

Lemma index_bumps_next_index : bumps next_index.
Proof. intros f r f' [= <- <-]. simpl. split; [reflexivity | lia]. Qed.

Lemma index_bumps_id_or_next x : bumps (id_or_next x).
Proof.
  destruct x as [t|name|]; [| | apply index_bumps_next_index];
    intros f r f' [= <- <-]; rewrite index_with_index_self;
    (split; [reflexivity | lia]).
Qed.

Lemma index_bumps_mapId_with id_of term :
  (forall x, onField (fun t => bumps (id_obj t)) x -> bumps (id_of x)) ->
  onField (fun t => bumps (id_obj t)) (obj_subject term) ->
  onField (fun t => bumps (id_obj t)) (obj_predicate term) ->
  onField (fun t => bumps (id_obj t)) (obj_object term) ->
  onField (fun t => bumps (id_obj t)) (obj_graph term) ->
  bumps (mapId_with id_of term).
Proof.
  intros Hid. destruct term as [r i k v l d s p o g]. simpl.
  intros Hs Hp Ho Hg.
  destruct s as [s|].
  - repeat (apply index_bumps_bind; [| intros ?]); auto using index_bumps_ret.
    destruct g; auto using index_bumps_ret.
  - destruct k as [kind|]; [| apply index_bumps_ret].
    destruct (_ || _); [apply index_bumps_ret |].
    destruct (String.eqb kind "Literal"); [| apply index_bumps_ret].
    destruct d; [apply index_bumps_ret |].
    intros f x f' [= <- <-]. rewrite index_with_index_self. split; [reflexivity | lia].
Qed.

Lemma index_bumps_id_obj t : bumps (id_obj t).
Proof.
  induction t as [r i k v l d s p o g Hd Hs Hp Ho Hg] using obj_fields_ind.
  rewrite index_id_obj_eq. cbn [obj_id].
  destruct (truthy_id i); [apply index_bumps_ret |].
  apply index_bumps_bind.
  - apply index_bumps_mapId_with; auto.
    intros [y|] Hy; [exact Hy | apply index_bumps_ret].
  - intros mapId f x f'.
    destruct (kindMap _ f); [apply index_bumps_id_or_next |].
    intros [= <- <-]. rewrite index_with_index_self. split; [reflexivity | lia].
Qed.

Lemma index_bumps_mapId t : bumps (mapId t).
Proof.
  apply index_bumps_mapId_with.
  - intros [y|] _; [apply index_bumps_id_obj | apply index_bumps_ret].
  - destruct (obj_subject t); simpl; auto using index_bumps_id_obj.
  - destruct (obj_predicate t); simpl; auto using index_bumps_id_obj.
  - destruct (obj_object t); simpl; auto using index_bumps_id_obj.
  - destruct (obj_graph t); simpl; auto using index_bumps_id_obj.
Qed.

Lemma index_kindMap_with_index t f m : kindMap t (with_index f m) = kindMap t f.
Proof. reflexivity. Qed.

Lemma index_at_key_own table key u :
  at_key table key = Own u -> table !! default "undefined" key = Some u.
Proof.
  unfold at_key. destruct (table !! _); [congruence |].
  destruct (in_prototype _); discriminate.
Qed.

Lemma index_kindMap_stored t f table key u :
  kindMap t f = Some table -> table !! key = Some u -> stored f u.
Proof.
  unfold kindMap, stored. intros Hk Hu. exists key.
  destruct (isQuad t); [injection Hk as <-; auto |].
  destruct (obj_termType t) as [kind|]; [| discriminate].
  destruct (String.eqb kind "BlankNode"); [injection Hk as <-; auto |].
  destruct (String.eqb kind "NamedNode"); [injection Hk as <-; auto |].
  destruct (String.eqb kind "Literal"); [injection Hk as <-; auto | discriminate].
Qed.

Lemma index_wf_with_index f m : wf f -> index f <= m -> wf (with_index f m).
Proof.
  intros (Hpos & Hmemo & Hst) Hm. split; [simpl; lia |]. split.
  - intros k t Hk. simpl in *. apply Hmemo in Hk. lia.
  - intros t Ht. apply Hst. exact Ht.
Qed.

Lemma index_wf_create bn : wf (create bn).
Proof.
  split; [simpl; lia |]. split.
  - intros k t. simpl. rewrite lookup_empty. discriminate.
  - intros t [key Hk]. simpl in Hk. rewrite !lookup_empty in Hk.
    destruct Hk as [?|[?|[?|?]]]; discriminate.
Qed.



(** *** The content key of a quad *)



Lemma index_stamped_positive n t : obj_id t = Some n -> 0 < n -> stamped t n.
Proof.
  unfold stamped. intros -> Hn. simpl.
  destruct (Z.eqb_spec n 0); [lia | reflexivity].
Qed.

(** *** [id] returns *)

Lemma index_wf_bumped {A} (m : M A) (r : outcome A) f f' :
  bumps m -> wf f -> m f = (r, f') -> wf f'.
Proof.
  intros B Hwf E. apply B in E as [E L]. rewrite E.
  apply index_wf_with_index; assumption.
Qed.

Lemma index_returns_ret {A} (a : A) : returns (ret a).
Proof. intros f _. exists a, f. reflexivity. Qed.

Lemma index_returns_post_bind {A B} (Q : B -> Prop) (m : M A) (k : A -> M B) :
  bumps m -> returns m ->
  (forall a f, wf f -> exists b f', k a f = (Ok b, f') /\ Q b) ->
  forall f, wf f -> exists b f', bind m k f = (Ok b, f') /\ Q b.
Proof.
  intros Bm Hm Hk f Hwf. unfold bind.
  destruct (Hm f Hwf) as (a & f1 & E). rewrite E.
  apply Hk. eapply index_wf_bumped; eauto.
Qed.

Lemma index_well_typed_fields r i k v l d s p o g :
  well_typed (Obj r i k v l d s p o g) = true ->
  (forall kind, k = Some kind -> String.eqb kind "Literal" = true -> d <> None) /\
  (forall x y, x = s \/ x = p \/ x = o \/ x = g -> x = Some y -> well_typed y = true).
Proof.
  simpl. rewrite !andb_true_iff. intros ((((Hk & Hs) & Hp) & Ho) & Hg). split.
  - intros kind -> Hl. destruct d; [discriminate |]. rewrite Hl in Hk. discriminate.
  - intros x y [->|[->|[->| ->]]] ->; assumption.
Qed.

Lemma index_prototype_free_fields r i k v l d s p o g :
  prototype_free (Obj r i k v l d s p o g) = true ->
  (forall kind, k = Some kind ->
     String.eqb kind "BlankNode" || String.eqb kind "NamedNode" = true ->
     in_prototype v = false) /\
  (forall x y, x = s \/ x = p \/ x = o \/ x = g -> x = Some y -> prototype_free y = true).
Proof.
  simpl. rewrite !andb_true_iff. intros ((((Hk & Hs) & Hp) & Ho) & Hg). split.
  - intros kind -> Hn. rewrite Hn in Hk. destruct (in_prototype v); [discriminate | reflexivity].
  - intros x y [->|[->|[->| ->]]] ->; assumption.
Qed.

Lemma index_id_obj_returns t :
  well_typed t = true -> prototype_free t = true -> returns (id_obj t).
Proof.
  induction t as [r i k v l d s p o g Hd Hs Hp Ho Hg] using obj_fields_ind.
  intros Hwt Hpf. apply index_well_typed_fields in Hwt as [Hlit Hsub].
  apply index_prototype_free_fields in Hpf as [Hnode Hsubp].
  assert (Hf : forall x, x = s \/ x = p \/ x = o \/ x = g -> returns (id_of x)).
  { intros x Hx. destruct x as [y|]; [| apply index_returns_ret].
    simpl.
    destruct Hx as [<-|[<-|[<-| <-]]]; simpl in *;
      first [apply Hs | apply Hp | apply Ho | apply Hg];
      first [apply (Hsub (Some y) y); [auto 6 | reflexivity]
            | apply (Hsubp (Some y) y); [auto 6 | reflexivity]]. }
  assert (Bf : forall x, bumps (id_of x)).
  { intros [y|]; [apply index_bumps_id_obj | apply index_bumps_ret]. }
  rewrite index_id_obj_eq. cbn [obj_id].
  destruct (truthy_id i); [apply index_returns_ret |].
  assert (Hmap : forall f, wf f ->
            exists key f', mapId (Obj r i k v l d s p o g) f = (Ok key, f') /\
                           in_prototype (default "undefined" key) = false).
  { unfold mapId. cbn [mapId_with].
    destruct s as [s0|].
    + apply index_returns_post_bind; [apply Bf | apply Hf; auto |]. intros si.
      apply index_returns_post_bind; [apply Bf | apply Hf; auto |]. intros pi.
      apply index_returns_post_bind; [apply Bf | apply Hf; auto |]. intros oi.
      apply index_returns_post_bind.
      * destruct g; [apply (Bf (Some o0)) | apply index_bumps_ret].
      * destruct g; [apply (Hf (Some o0)); auto | apply index_returns_ret].
      * intros gi f0 _. eexists _, _. split; [reflexivity | apply quadKey_plain].
    + destruct k as [kind|];
        [| intros f0 _; eexists _, _; split; reflexivity].
      destruct (_ || _) eqn:En.
      { intros f0 _. eexists _, _. split; [reflexivity |]. simpl. eauto. }
      destruct (String.eqb kind "Literal") eqn:El;
        [| intros f0 _; eexists _, _; split; reflexivity].
      destruct d as [d0|]; [| exfalso; eapply Hlit; eauto].
      intros f0 _. eexists _, _. split; [reflexivity | apply comma_key_plain]. }
  intros f Hwf. unfold bind.
  destruct (Hmap f Hwf) as (key & f1 & E & Hkey). rewrite E.
  assert (Hwf1 : wf f1) by (eapply index_wf_bumped; [apply index_bumps_mapId | |]; eauto).
  destruct (kindMap _ f1) as [table|] eqn:Ek; [| eauto].
  unfold id_or_next. destruct (at_key table key) as [u|name|] eqn:Eu.
  - apply index_at_key_own in Eu.
    pose proof (index_kindMap_stored _ _ _ _ _ Ek Eu) as Hu.
    destruct Hwf1 as (_ & _ & Hst).
    destruct (Hst u Hu) as (m & Hm & _). rewrite Hm. eauto.
  - unfold at_key in Eu. rewrite Hkey in Eu.
    destruct (table !! _); discriminate.
  - unfold next_index. eauto.
Qed.

(** *** From a term to its identity and back *)

Lemma index_stored_roundtrip f t : wf f -> stored f t -> index_roundtrip f t.
Proof. intros (_ & _ & Hst) Ht. apply Hst, Ht. Qed.

Lemma index_register_roundtrip k key mk f r f' :
  wf f -> (forall a i, obj_id (mk a i) = Some i) ->
  register k key mk f = (r, f') ->
  wf f' /\ exists t, r = Ok t /\ index_roundtrip f' t.
Proof.
  intros (Hpos & Hmemo & Hst) Hmk. unfold register. intros [= <- <-].
  split; [split; [| split] |].
  - simpl. lia.
  - intros n t. simpl. destruct (decide (n = index f)) as [->|Hn].
    + intros _. lia.
    + rewrite lookup_insert_ne by congruence. intros Hl. apply Hmemo in Hl. lia.
  - intros t [key' Ht]. simpl in Ht.
    assert (t = mk (allocated f) (index f) \/ stored f t) as [->|Hold].
    { destruct k;
        repeat match type of Ht with
        | _ \/ _ => destruct Ht as [Ht|Ht]
        end;
        try (destruct (decide (key' = default "undefined" key)) as [->|Hk];
             [rewrite lookup_insert_eq in Ht; injection Ht as <-; left; reflexivity
             | rewrite lookup_insert_ne in Ht by congruence]);
        right; exists key'; auto. }
    + exists (index f). split; [apply Hmk |]. simpl. apply lookup_insert_eq.
    + destruct (Hst t Hold) as (n & Hn & Hl). exists n. split; [exact Hn |].
      simpl. rewrite lookup_insert_ne; [exact Hl |].
      apply Hmemo in Hl. lia.
  - eexists. split; [reflexivity |].
    exists (index f). split; [apply Hmk |]. unfold fromId. simpl. apply lookup_insert_eq.
Qed.

Lemma index_register_roundtrip' k key mk f r f' :
  wf f -> (forall a i, obj_id (mk a i) = Some i) ->
  register k key mk f = (r, f') ->
  wf f' /\ forall t, r = Ok t -> index_roundtrip f' t.
Proof.
  intros Hwf Hmk E.
  destruct (index_register_roundtrip k key mk f r f' Hwf Hmk E) as (Hwf' & t & -> & Ht).
  split; [exact Hwf' |]. intros t' [= <-]. exact Ht.
Qed.

Lemma index_namedNode_str_roundtrip v f r f' :
  wf f -> namedNode_str v f = (r, f') ->
  wf f' /\ forall t, r = Ok t -> index_roundtrip f' t.
Proof.
  intros Hwf. rewrite index_namedNode_str_eq.
  destruct (namedNodeMap f !! v) as [t|] eqn:E.
  - intros [= <- <-]. split; [exact Hwf |]. intros t' [= <-].
    apply index_stored_roundtrip; [exact Hwf |]. exists v. auto.
  - destruct (in_prototype v).
    + intros [= <- <-]. split; [exact Hwf | discriminate].
    + apply index_register_roundtrip'; [exact Hwf | reflexivity].
Qed.

Lemma index_blankNode_str_roundtrip v f r f' :
  wf f -> blankNode_str v f = (r, f') ->
  wf f' /\ forall t, r = Ok t -> index_roundtrip f' t.
Proof.
  intros Hwf. unfold blankNode_str, bind.
  destruct (match v with Some v0 => ret v0 | None => next_bnode_name end f)
    as [[name|e| |] f1] eqn:E1;
    try (destruct v; discriminate).
  assert (Hwf1 : wf f1).
  { destruct v; [injection E1 as <- <-; exact Hwf |].
    unfold next_bnode_name in E1. injection E1 as <- <-. exact Hwf. }
  change (mapId (describeNode "BlankNode" name) f1) with (Ok (Some name), f1).
  cbv iota beta.
  destruct (if truthy (JStr name) then at_key (blankNodeMap f1) (Some name) else Absent)
    as [t|member|] eqn:E.
  - intros [= <- <-]. split; [exact Hwf1 |]. intros t' [= <-].
    apply index_stored_roundtrip; [exact Hwf1 |].
    destruct (truthy (JStr name)); [| discriminate].
    apply index_at_key_own in E. exists name. auto.
  - intros [= <- <-]. split; [exact Hwf1 | discriminate].
  - apply index_register_roundtrip'; [exact Hwf1 | reflexivity].
Qed.

Lemma index_namedNode_str_plain_wf v f :
  in_prototype v = false -> wf f ->
  exists t f', namedNode_str v f = (Ok t, f') /\ wf f'.
Proof.
  intros Hv Hwf.
  destruct (index_namedNode_str_spec v f Hv) as (t & f' & E & _).
  exists t, f'. split; [exact E |].
  apply index_namedNode_str_roundtrip in E as [? _]; assumption.
Qed.

Lemma index_literal_datatype_wf lod f :
  wf f -> exists d f1, literal_datatype lod f = (Ok d, f1) /\ wf f1.
Proof.
  intros Hwf. unfold literal_datatype.
  destruct lod; try (apply index_namedNode_str_plain_wf; [reflexivity | exact Hwf]).
  exists d, f. auto.
Qed.

Lemma index_literal_roundtrip v lod f r f' :
  wf f -> literal v lod f = (r, f') ->
  wf f' /\ exists t, r = Ok t /\ index_roundtrip f' t.
Proof.
  intros Hwf. rewrite index_literal_eq. unfold bind.
  destruct (index_literal_datatype_wf lod f Hwf) as (d & f1 & -> & Hwf1).
  unfold literal_tail.
  destruct (literalMap f1 !! _) as [t|] eqn:E.
  - intros [= <- <-]. split; [exact Hwf1 |]. exists t. split; [reflexivity |].
    apply index_stored_roundtrip; [exact Hwf1 |]. eexists. eauto.
  - apply index_register_roundtrip; [exact Hwf1 | reflexivity].
Qed.

Lemma index_bumps_quadMapId s p o g : bumps (quadMapId s p o g).
Proof.
  unfold quadMapId.
  repeat (apply index_bumps_bind; [| intros ?]);
    auto using index_bumps_id_obj, index_bumps_ret.
  destruct g; auto using index_bumps_id_obj, index_bumps_ret.
Qed.

Lemma index_quad_roundtrip s p o g f t f' :
  wf f -> quad s p o g f = (Ok t, f') ->
  wf f' /\ index_roundtrip f' t.
Proof.
  intros Hwf. rewrite index_quad_eq. unfold bind.
  destruct (match g with Some x => ret x | None => defaultGraph end f)
    as [ru f1] eqn:E1.
  assert (Hwf1 : wf f1 /\ exists u, ru = Ok u).
  { destruct g as [x|]; [injection E1 as <- <-; eauto |].
    destruct (index_namedNode_str_plain_wf "rdf:defaultGraph" f eq_refl Hwf)
      as (u & f1' & E1' & Hwf1).
    unfold defaultGraph in E1. rewrite E1' in E1. injection E1 as <- <-. eauto. }
  destruct Hwf1 as (Hwf1 & u & ->).
  destruct (quadMapId s p o g f1) as [[key|e| |] f2] eqn:E2; try discriminate.
  pose proof (index_wf_bumped _ _ _ _ (index_bumps_quadMapId s p o g) Hwf1 E2) as Hwf2.
  unfold quad_tail.
  destruct (quadMap f2 !! key) as [t'|] eqn:E.
  - intros [= <- <-]. split; [exact Hwf2 |].
    apply index_stored_roundtrip; [exact Hwf2 |]. exists key. auto.
  - intros E3.
    apply index_register_roundtrip in E3 as (? & t' & [= <-] & ?);
      [auto | exact Hwf2 | reflexivity].
Qed.

(** *** Every reachable factory is well formed *)

Lemma index_quad_wf s p o g f : wf f -> wf (snd (quad s p o g f)).
Proof.
  intros Hwf. rewrite index_quad_eq. unfold bind.
  destruct (match g with Some x => ret x | None => defaultGraph end f)
    as [ru f1] eqn:E1.
  assert (Hwf1 : wf f1 /\ exists u, ru = Ok u).
  { destruct g as [x|]; [injection E1 as <- <-; eauto |].
    destruct (index_namedNode_str_plain_wf "rdf:defaultGraph" f eq_refl Hwf)
      as (u & f1' & E1' & Hwf1).
    unfold defaultGraph in E1. rewrite E1' in E1. injection E1 as <- <-. eauto. }
  destruct Hwf1 as (Hwf1 & u & ->).
  destruct (quadMapId s p o g f1) as [r2 f2] eqn:E2.
  pose proof (index_wf_bumped _ _ _ _ (index_bumps_quadMapId s p o g) Hwf1 E2) as Hwf2.
  destruct r2 as [key|e| |]; try exact Hwf2.
  unfold quad_tail.
  destruct (quadMap f2 !! key) as [t'|] eqn:E; [exact Hwf2 |].
  destruct (register KQuad (Some key)
              (fun r i => Obj r (Some i) None "" "" None (Some s) (Some p) (Some o) (Some u)) f2)
    as [r3 f3] eqn:E3.
  apply index_register_roundtrip in E3 as [? _]; [assumption | exact Hwf2 | reflexivity].
Qed.

Lemma index_bumps_id v : bumps (id v).
Proof.
  destruct v; simpl; try apply index_bumps_ret; try apply index_bumps_id_obj;
    intros f r f' [= <- <-]; rewrite index_with_index_self;
    (split; [reflexivity | lia]).
Qed.

Lemma index_bumps_same_id a b : bumps (same_id a b).
Proof.
  unfold same_id.
  apply index_bumps_bind; [apply index_bumps_id |]. intros n.
  apply index_bumps_bind; [apply index_bumps_id |]. intros m.
  apply index_bumps_ret.
Qed.

Lemma index_bumps_and_then l r : bumps l -> bumps r -> bumps (and_then l r).
Proof.
  intros Hl Hr. unfold and_then. apply index_bumps_bind; [exact Hl |].
  intros [|]; [exact Hr | apply index_bumps_ret].
Qed.

Lemma index_bumps_equals a b : bumps (equals a b).
Proof.
  unfold equals. destruct (_ || _); [apply index_bumps_ret |].
  destruct a, b; try apply index_bumps_same_id.
  repeat apply index_bumps_and_then; apply index_bumps_same_id.
Qed.

Lemma index_wf_blankNode v f : wf f -> wf (snd (blankNode v f)).
Proof.
  intros IH. unfold blankNode. destruct (_ && _); [exact IH |].
  assert (exists w, blankNode_str w f
                    = match (if truthy v then v else JUndefined) with
                      | JStr v0 => blankNode_str (Some v0) f
                      | _ => blankNode_str None f
                      end) as [w <-].
  { destruct (if truthy v then v else JUndefined); eauto. }
  destruct (blankNode_str w f) as [r f'] eqn:E. simpl.
  apply index_blankNode_str_roundtrip in E as [? _]; assumption.
Qed.

Lemma index_wf_namedNode v f : wf f -> wf (snd (namedNode v f)).
Proof.
  intros IH. destruct v; try exact IH. simpl.
  destruct (namedNode_str s f) as [r f'] eqn:E. simpl.
  apply index_namedNode_str_roundtrip in E as [? _]; assumption.
Qed.

Lemma index_wf_literal v lod f : wf f -> wf (snd (literal v lod f)).
Proof.
  intros IH. destruct (literal v lod f) as [r f'] eqn:E. simpl.
  apply index_literal_roundtrip in E as [? _]; assumption.
Qed.

Lemma index_reachable_wf f : reachable f -> wf f.
Proof.
  induction 1 as [bn | v f _ IH | v f _ IH | v lod f _ IH | s p o g f _ IH
                 | v f _ IH | a b f _ IH].
  - apply index_wf_create.
  - apply index_wf_blankNode, IH.
  - apply index_wf_namedNode, IH.
  - apply index_wf_literal, IH.
  - apply index_quad_wf, IH.
  - destruct (id v f) as [r f'] eqn:E. simpl.
    eapply index_wf_bumped; [apply index_bumps_id | exact IH | exact E].
  - destruct (equals a b f) as [r f'] eqn:E. simpl.
    eapply index_wf_bumped; [apply index_bumps_equals | exact IH | exact E].
Qed.

End IndexFacts.

(** * Further properties of the index factory *)
Module IndexMore.
Import IndexFactory.

Lemma more_table_with_index k f m : table k (with_index f m) = table k f.
Proof. destruct k; reflexivity. Qed.

Lemma more_keyed_with_index f m : keyed f -> keyed (with_index f m).
Proof.
  intros [Ht Hm]. split.
  - intros k key t. rewrite more_table_with_index. apply Ht.
  - exact Hm.
Qed.

Lemma more_keyed_bumped {A} (m : M A) (r : outcome A) f f' :
  bumps m -> keyed f -> m f = (r, f') -> keyed f'.
Proof.
  intros B Hk E. apply B in E as [E _]. rewrite E. apply more_keyed_with_index, Hk.
Qed.

Lemma more_keyed_create bn : keyed (create bn).
Proof.
  split.
  - intros k key t. destruct k; simpl; rewrite lookup_empty; discriminate.
  - intros n t. simpl. rewrite lookup_empty. discriminate.
Qed.

(** The tables after [register]. *)
Lemma more_register_table k k' key mk f :
  table k' (snd (register k (Some key) mk f)) =
  if decide (k' = k)
  then <[key := mk (allocated f) (index f)]> (table k' f)
  else table k' f.
Proof.
  destruct k, k'; reflexivity.
Qed.

Lemma more_keyed_register k key mk f :
  keyed f ->
  fits k key (mk (allocated f) (index f)) ->
  obj_id (mk (allocated f) (index f)) = Some (index f) ->
  keyed (snd (register k (Some key) mk f)).
Proof.
  intros [Ht Hm] Hfit Hid. split.
  - intros k' key' t. rewrite more_register_table.
    destruct (decide (k' = k)) as [->|Hk]; [| apply Ht].
    destruct (decide (key' = key)) as [->|Hkey].
    + rewrite lookup_insert_eq. intros [= <-]. exact Hfit.
    + rewrite lookup_insert_ne by congruence. apply Ht.
  - intros n t. simpl. destruct (decide (n = index f)) as [->|Hn].
    + rewrite lookup_insert_eq. intros [= <-]. exact Hid.
    + rewrite lookup_insert_ne by congruence. apply Hm.
Qed.

Lemma more_keyed_namedNode_str v f : keyed f -> keyed (snd (namedNode_str v f)).
Proof.
  intros Hk. rewrite IndexFacts.index_namedNode_str_eq.
  destruct (namedNodeMap f !! v); [exact Hk |].
  destruct (in_prototype v); [exact Hk |].
  apply more_keyed_register; [exact Hk | repeat split | reflexivity].
Qed.

Lemma more_keyed_blankNode_str w f : keyed f -> keyed (snd (blankNode_str w f)).
Proof.
  intros Hk. unfold blankNode_str, bind.
  destruct (match w with Some v0 => ret v0 | None => next_bnode_name end f)
    as [[name|e| |] f1] eqn:E1; try (destruct w; discriminate).
  assert (Hk1 : keyed f1).
  { destruct w; [injection E1 as <- <-; exact Hk |].
    unfold next_bnode_name in E1. injection E1 as <- <-. exact Hk. }
  change (mapId (describeNode "BlankNode" name) f1) with (Ok (Some name), f1).
  cbv iota beta.
  destruct (if truthy (JStr name) then at_key (blankNodeMap f1) (Some name) else Absent);
    [exact Hk1 | exact Hk1 |].
  apply more_keyed_register; [exact Hk1 | repeat split | reflexivity].
Qed.

Lemma more_keyed_blankNode v f : keyed f -> keyed (snd (blankNode v f)).
Proof.
  intros Hk. unfold blankNode. destruct (_ && _); [exact Hk |].
  destruct (if truthy v then v else JUndefined); apply more_keyed_blankNode_str, Hk.
Qed.

Lemma more_keyed_namedNode v f : keyed f -> keyed (snd (namedNode v f)).
Proof.
  intros Hk. destruct v; try exact Hk. apply more_keyed_namedNode_str, Hk.
Qed.

Lemma more_keyed_literal v lod f : keyed f -> keyed (snd (literal v lod f)).
Proof.
  intros Hk. rewrite IndexFacts.index_literal_eq. unfold bind.
  destruct (literal_datatype lod f) as [rd f1] eqn:E1.
  assert (Hk1 : keyed f1).
  { unfold literal_datatype in E1.
    destruct lod as [|l|d].
    - pose proof (more_keyed_namedNode_str datatypes.string f Hk) as H.
      rewrite E1 in H. exact H.
    - pose proof (more_keyed_namedNode_str datatypes.langString f Hk) as H.
      rewrite E1 in H. exact H.
    - unfold ret in E1. injection E1 as <- <-. exact Hk. }
  destruct rd as [d|e| |]; try exact Hk1.
  unfold literal_tail. destruct (literalMap f1 !! _); [exact Hk1 |].
  apply more_keyed_register; [exact Hk1 | repeat split | reflexivity].
Qed.

Lemma more_keyed_quad s p o g f : keyed f -> keyed (snd (quad s p o g f)).
Proof.
  intros Hk. rewrite IndexFacts.index_quad_eq. unfold bind.
  destruct (match g with Some x => ret x | None => defaultGraph end f)
    as [ru f1] eqn:E1.
  assert (Hk1 : keyed f1).
  { destruct g as [x|]; [injection E1 as <- <-; exact Hk |].
    pose proof (more_keyed_namedNode_str "rdf:defaultGraph" f Hk) as H.
    unfold defaultGraph in E1. rewrite E1 in H. exact H. }
  destruct ru as [u|e| |]; try exact Hk1.
  destruct (quadMapId s p o g f1) as [r2 f2] eqn:E2.
  pose proof (more_keyed_bumped _ _ _ _ (IndexFacts.index_bumps_quadMapId s p o g) Hk1 E2)
    as Hk2.
  destruct r2 as [key|e| |]; try exact Hk2.
  unfold quad_tail. destruct (quadMap f2 !! key); [exact Hk2 |].
  apply more_keyed_register; [exact Hk2 | repeat split | reflexivity].
Qed.

Lemma more_reachable_keyed f : reachable f -> keyed f.
Proof.
  induction 1 as [bn | v f _ IH | v f _ IH | v lod f _ IH | s p o g f _ IH
                 | v f _ IH | a b f _ IH].
  - apply more_keyed_create.
  - apply more_keyed_blankNode, IH.
  - apply more_keyed_namedNode, IH.
  - apply more_keyed_literal, IH.
  - apply more_keyed_quad, IH.
  - destruct (id v f) as [r f'] eqn:E. simpl.
    eapply more_keyed_bumped; [apply IndexFacts.index_bumps_id | exact IH | exact E].
  - destruct (equals a b f) as [r f'] eqn:E. simpl.
    eapply more_keyed_bumped; [apply IndexFacts.index_bumps_equals | exact IH | exact E].
Qed.

(** *** What the node operations return *)

Lemma more_namedNode_spec v f :
  in_prototype v = false -> wf f -> keyed f ->
  exists t f1,
    namedNode_str v f = (Ok t, f1) /\ namedNodeMap f1 !! v = Some t /\
    fits KNamedNode v t /\ wf f1 /\ keyed f1 /\
    blankNodeMap f1 = blankNodeMap f /\ literalMap f1 = literalMap f /\
    quadMap f1 = quadMap f.
Proof.
  intros Hv Hwf Hk.
  destruct (IndexFacts.index_namedNode_str_spec v f Hv) as (t & f1 & E & Ht & Hl & Hq & Hb).
  pose proof (IndexFacts.index_namedNode_str_roundtrip v f _ _ Hwf E) as [Hwf1 _].
  pose proof (more_keyed_namedNode_str v f Hk) as Hk1. rewrite E in Hk1. simpl in Hk1.
  pose proof (proj1 Hk1 KNamedNode v t Ht) as Hfit.
  exists t, f1. repeat (split; [assumption |]). assumption.
Qed.

Lemma more_blankNode_spec v f :
  v <> "" -> in_prototype v = false -> wf f -> keyed f ->
  exists t f1,
    blankNode (JStr v) f = (Ok t, f1) /\ blankNodeMap f1 !! v = Some t /\
    fits KBlankNode v t /\ wf f1 /\ keyed f1 /\
    namedNodeMap f1 = namedNodeMap f /\ literalMap f1 = literalMap f /\
    quadMap f1 = quadMap f.
Proof.
  intros Hv Hp Hwf Hk.
  assert (E0 : blankNode (JStr v) f = blankNode_str (Some v) f).
  { unfold blankNode. simpl.
    destruct (String.eqb_spec v "") as [->|_]; [congruence | reflexivity]. }
  destruct (blankNode_str (Some v) f) as [r f1] eqn:E.
  pose proof (IndexFacts.index_blankNode_str_roundtrip _ f _ _ Hwf E) as (Hwf1 & _).
  pose proof (more_keyed_blankNode_str (Some v) f Hk) as Hk1. rewrite E in Hk1. simpl in Hk1.
  assert (Ht : exists t, r = Ok t /\
               blankNodeMap f1 !! v = Some t /\ namedNodeMap f1 = namedNodeMap f /\
               literalMap f1 = literalMap f /\ quadMap f1 = quadMap f).
  { rewrite (IndexFacts.index_blankNode_str_eq v f Hv), Hp in E.
    destruct (blankNodeMap f !! v) as [u|] eqn:Eu.
    - injection E as <- <-. eauto 6.
    - unfold register in E. injection E as <- <-. simpl.
      rewrite lookup_insert_eq. eauto 6. }
  destruct Ht as (t & -> & Ht & Hn & Hl & Hq).
  pose proof (proj1 Hk1 KBlankNode v t Ht) as Hfit.
  exists t, f1. repeat (split; [assumption |]). assumption.
Qed.

(** Two stored terms with the same identity are one term. *)
Lemma more_stored_same_id f t u n :
  wf f -> stored f t -> stored f u -> obj_id t = Some n -> obj_id u = Some n -> t = u.
Proof.
  intros (_ & _ & Hst) Ht Hu Hn Hm.
  destruct (Hst t Ht) as (a & Ha & Hla). destruct (Hst u Hu) as (b & Hb & Hlb).
  congruence.
Qed.

Lemma more_stored_stamped f t :
  wf f -> stored f t -> exists n, obj_id t = Some n /\ stamped t n /\ 0 < n < index f.
Proof.
  intros (Hpos & Hmemo & Hst) Ht. destruct (Hst t Ht) as (n & Hn & Hl).
  apply Hmemo in Hl. exists n. split; [exact Hn |]. split; [| exact Hl].
  apply IndexFacts.index_stamped_positive; [exact Hn | lia].
Qed.

(** *** Blank nodes without a value *)

Lemma more_blankNode_auto f :
  wf f -> keyed f ->
  exists t f1,
    blankNode JUndefined f = (Ok t, f1) /\
    obj_value t = "_:b" +:+ toString (bnIndex f + 1) /\
    bnIndex f1 = bnIndex f + 1 /\ wf f1 /\ keyed f1.
Proof.
  intros Hwf Hk.
  change (blankNode JUndefined f) with (blankNode_str None f).
  destruct (blankNode_str None f) as [r f1] eqn:E.
  pose proof (IndexFacts.index_blankNode_str_roundtrip _ f _ _ Hwf E) as (Hwf1 & _).
  pose proof (more_keyed_blankNode_str None f Hk) as Hk1. rewrite E in Hk1. simpl in Hk1.
  unfold blankNode_str, bind, next_bnode_name in E.
  set (name := "_:b" +:+ toString (bnIndex f + 1)) in *.
  set (fb := Factory (bnIndex f + 1) (index f) (memoizationMap f) (blankNodeMap f)
               (namedNodeMap f) (literalMap f) (quadMap f) (allocated f)) in *.
  change (mapId (describeNode "BlankNode" name) fb) with (Ok (Some name), fb) in E.
  cbv iota beta in E.
  change (truthy (JStr name)) with true in E. cbv iota in E.
  rewrite (at_key_plain _ name eq_refl) in E. simpl in E.
  destruct (blankNodeMap f !! name) as [u|] eqn:Eu.
  - injection E as <- <-. exists u, fb. split; [reflexivity |].
    destruct (proj1 Hk KBlankNode name u Eu) as (_ & Hv & _).
    repeat (split; [assumption || reflexivity |]). assumption.
  - unfold register in E. injection E as <- <-.
    eexists _, _. split; [reflexivity |].
    repeat (split; [assumption || reflexivity |]). assumption.
Qed.

Lemma more_blankNodes_values n :
  forall f rs f',
    wf f -> keyed f -> blankNodes n f = (rs, f') ->
    exists ts,
      rs = Ok <$> ts /\
      obj_value <$> ts
        = (fun i => "_:b" +:+ toString (bnIndex f + Z.of_nat i)) <$> seq 1 n /\
      bnIndex f' = bnIndex f + Z.of_nat n.
Proof.
  induction n as [|n IH]; intros f rs f' Hwf Hk.
  - simpl. intros [= <- <-]. exists []. split; [reflexivity |].
    split; [reflexivity | lia].
  - cbn [blankNodes].
    destruct (more_blankNode_auto f Hwf Hk) as (t & f1 & E & Hv & Hb & Hwf1 & Hk1).
    rewrite E.
    destruct (blankNodes n f1) as [rs1 f2] eqn:E2.
    intros [= <- <-].
    destruct (IH f1 rs1 f2 Hwf1 Hk1 E2) as (ts & -> & Hvs & Hb2).
    exists (t :: ts). split; [reflexivity |]. split; [| lia].
    cbn [seq fmap list_fmap]. f_equal; [exact Hv |].
    change (list_fmap obj string obj_value ts) with (obj_value <$> ts).
    rewrite Hvs, <- (fmap_S_seq 1), <- list_fmap_compose.
    apply list_fmap_ext. intros i x _. simpl. f_equal. f_equal. lia.
Qed.

Lemma more_auto_name_inj (b : Z) :
  Inj (=) (=) (fun i : nat => "_:b" +:+ toString (b + Z.of_nat i)).
Proof.
  intros i j H. simpl in H. injection H as H.
  apply (pretty_Z_inj _ _) in H. lia.
Qed.

(** *** Nothing is dropped or replaced *)

Lemma more_grows_refl f : grows f f.
Proof. split; auto. Qed.

Lemma more_grows_trans f g h : grows f g -> grows g h -> grows f h.
Proof. intros [? ?] [? ?]. split; auto. Qed.

Lemma more_grows_bumped {A} (m : M A) (r : outcome A) f f' :
  bumps m -> m f = (r, f') -> grows f f'.
Proof.
  intros B E. apply B in E as [E _]. rewrite E. split.
  - intros k key t. rewrite more_table_with_index. auto.
  - auto.
Qed.

Lemma more_grows_register k key mk f :
  wf f -> table k f !! key = None ->
  grows f (snd (register k (Some key) mk f)).
Proof.
  intros (_ & Hmemo & _) Hnone. split.
  - intros k' key' t Ht. rewrite more_register_table.
    destruct (decide (k' = k)) as [->|_]; [| exact Ht].
    rewrite lookup_insert_ne; [exact Ht | congruence].
  - intros n t Hn. simpl. rewrite lookup_insert_ne; [exact Hn |].
    apply Hmemo in Hn. lia.
Qed.

Lemma more_grows_namedNode_str v f : wf f -> grows f (snd (namedNode_str v f)).
Proof.
  intros Hwf. rewrite IndexFacts.index_namedNode_str_eq.
  destruct (namedNodeMap f !! v) eqn:E; [apply more_grows_refl |].
  destruct (in_prototype v); [apply more_grows_refl |].
  apply (more_grows_register KNamedNode); assumption.
Qed.

Lemma more_grows_blankNode_named v f :
  v <> "" -> wf f -> grows f (snd (blankNode_str (Some v) f)).
Proof.
  intros Hv Hwf. rewrite (IndexFacts.index_blankNode_str_eq v f Hv).
  destruct (blankNodeMap f !! v) eqn:E; [apply more_grows_refl |].
  destruct (in_prototype v); [apply more_grows_refl |].
  apply (more_grows_register KBlankNode); assumption.
Qed.

Lemma more_grows_blankNode_auto f : wf f -> grows f (snd (blankNode_str None f)).
Proof.
  intros Hwf. unfold blankNode_str, bind, next_bnode_name.
  set (name := "_:b" +:+ toString (bnIndex f + 1)).
  set (fb := Factory (bnIndex f + 1) (index f) (memoizationMap f) (blankNodeMap f)
               (namedNodeMap f) (literalMap f) (quadMap f) (allocated f)).
  change (mapId (describeNode "BlankNode" name) fb) with (Ok (Some name), fb).
  cbv iota beta.
  change (truthy (JStr name)) with true. cbv iota.
  assert (G : grows f fb) by (split; [intros []; auto | auto]).
  rewrite (at_key_plain _ name eq_refl). simpl.
  destruct (blankNodeMap f !! name) eqn:E; [exact G |].
  eapply more_grows_trans; [exact G |].
  apply (more_grows_register KBlankNode); assumption.
Qed.

Lemma more_grows_blankNode v f : wf f -> grows f (snd (blankNode v f)).
Proof.
  intros Hwf. unfold blankNode.
  destruct (truthy v && negb (is_string v)) eqn:Eg; [apply more_grows_refl |].
  destruct (truthy v) eqn:Et.
  - destruct v; try discriminate.
    apply more_grows_blankNode_named; [| exact Hwf].
    intros ->. discriminate.
  - apply more_grows_blankNode_auto, Hwf.
Qed.

Lemma more_grows_namedNode v f : wf f -> grows f (snd (namedNode v f)).
Proof.
  intros Hwf. destruct v; try apply more_grows_refl.
  apply more_grows_namedNode_str, Hwf.
Qed.

Lemma more_grows_literal v lod f : wf f -> grows f (snd (literal v lod f)).
Proof.
  intros Hwf. rewrite IndexFacts.index_literal_eq. unfold bind.
  destruct (literal_datatype lod f) as [rd f1] eqn:E1.
  assert (H1 : wf f1 /\ grows f f1).
  { unfold literal_datatype in E1. destruct lod as [|l|d].
    - pose proof (more_grows_namedNode_str datatypes.string f Hwf) as G.
      pose proof (IndexFacts.index_namedNode_str_roundtrip _ _ _ _ Hwf E1) as [W _].
      rewrite E1 in G. auto.
    - pose proof (more_grows_namedNode_str datatypes.langString f Hwf) as G.
      pose proof (IndexFacts.index_namedNode_str_roundtrip _ _ _ _ Hwf E1) as [W _].
      rewrite E1 in G. auto.
    - unfold ret in E1. injection E1 as <- <-. split; [exact Hwf | apply more_grows_refl]. }
  destruct H1 as [Hwf1 G1].
  destruct rd as [d|e| |]; try exact G1.
  unfold literal_tail. destruct (literalMap f1 !! _) eqn:E; [exact G1 |].
  eapply more_grows_trans; [exact G1 |].
  apply (more_grows_register KLiteral); assumption.
Qed.

Lemma more_grows_quad s p o g f : wf f -> grows f (snd (quad s p o g f)).
Proof.
  intros Hwf. rewrite IndexFacts.index_quad_eq. unfold bind.
  destruct (match g with Some x => ret x | None => defaultGraph end f)
    as [ru f1] eqn:E1.
  assert (H1 : wf f1 /\ grows f f1).
  { destruct g as [x|].
    - injection E1 as <- <-. split; [exact Hwf | apply more_grows_refl].
    - unfold defaultGraph in E1.
      pose proof (more_grows_namedNode_str "rdf:defaultGraph" f Hwf) as G.
      pose proof (IndexFacts.index_namedNode_str_roundtrip _ _ _ _ Hwf E1) as [W _].
      rewrite E1 in G. auto. }
  destruct H1 as [Hwf1 G1].
  destruct ru as [u|e| |]; try exact G1.
  destruct (quadMapId s p o g f1) as [r2 f2] eqn:E2.
  pose proof (IndexFacts.index_wf_bumped _ _ _ _
                (IndexFacts.index_bumps_quadMapId s p o g) Hwf1 E2) as Hwf2.
  pose proof (more_grows_bumped _ _ _ _ (IndexFacts.index_bumps_quadMapId s p o g) E2)
    as G2.
  pose proof (more_grows_trans _ _ _ G1 G2) as G12.
  destruct r2 as [key|e| |]; try exact G12.
  unfold quad_tail. destruct (quadMap f2 !! key) eqn:E; [exact G12 |].
  eapply more_grows_trans; [exact G12 |].
  apply (more_grows_register KQuad); assumption.
Qed.

End IndexMore.

(** * Further properties of the hash factory *)
Module HashMore.
Section WithHash.

Variable murmur3 : string -> Z -> Z.

Local Abbreviation extends := HashFactory.extends.

Lemma hmore_extends_blankNode_str w f :
  extends f (snd (HashFactory.blankNode_str murmur3 w f)).
Proof.
  unfold HashFactory.blankNode_str.
  destruct w as [v|].
  - destruct (HashFactory.intern _ _ f) as [t f'] eqn:E.
    apply HashFacts.hash_intern_spec in E as [_ E]. exact E.
  - destruct (HashFactory.intern _ _ _) as [t f'] eqn:E.
    apply HashFacts.hash_intern_spec in E as [_ [Hs Hm]].
    split; [exact Hs | exact Hm].
Qed.

Lemma hmore_extends_namedNode_str v f :
  extends f (snd (HashFactory.namedNode_str murmur3 v f)).
Proof.
  destruct (HashFactory.namedNode_str murmur3 v f) as [t f'] eqn:E.
  apply HashFacts.hash_namedNode_str_spec in E as [_ E]. exact E.
Qed.

Lemma hmore_extends_blankNode v f :
  extends f (snd (HashFactory.blankNode murmur3 v f)).
Proof.
  unfold HashFactory.blankNode, HashFactory.blankNode_with.
  destruct (_ && _ && _); [apply HashFacts.hash_extends_refl |].
  destruct (truthy v).
  - destruct v; try apply HashFacts.hash_extends_refl.
    pose proof (hmore_extends_blankNode_str (Some s) f) as H.
    destruct (HashFactory.blankNode_str murmur3 (Some s) f). exact H.
  - pose proof (hmore_extends_blankNode_str None f) as H.
    destruct (HashFactory.blankNode_str murmur3 None f). exact H.
Qed.

Lemma hmore_extends_namedNode v f :
  extends f (snd (HashFactory.namedNode murmur3 v f)).
Proof.
  unfold HashFactory.namedNode, HashFactory.namedNode_with.
  destruct (_ && _); [apply HashFacts.hash_extends_refl |].
  destruct v; try apply HashFacts.hash_extends_refl.
  pose proof (hmore_extends_namedNode_str s f) as H.
  destruct (HashFactory.namedNode_str murmur3 s f). exact H.
Qed.

Lemma hmore_extends_literal v lod f :
  extends f (snd (HashFactory.literal murmur3 v lod f)).
Proof.
  unfold HashFactory.literal.
  destruct (HashFactory.literal_datatype murmur3 lod f) as [d f1] eqn:E1.
  assert (G1 : extends f f1).
  { unfold HashFactory.literal_datatype in E1. destruct lod.
    - pose proof (hmore_extends_namedNode_str datatypes.string f) as H.
      rewrite E1 in H. exact H.
    - pose proof (hmore_extends_namedNode_str datatypes.langString f) as H.
      rewrite E1 in H. exact H.
    - injection E1 as <- <-. apply HashFacts.hash_extends_refl. }
  destruct (HashFactory.intern _ _ f1) as [t f'] eqn:E.
  apply HashFacts.hash_intern_spec in E as [_ E].
  eapply HashFacts.hash_extends_trans; eauto.
Qed.

Lemma hmore_extends_quad s p o g f :
  extends f (snd (HashFactory.quad murmur3 s p o g f)).
Proof.
  unfold HashFactory.quad.
  destruct (match g with Some g0 => (g0, f) | None => HashFactory.defaultGraph murmur3 f end)
    as [u f1] eqn:E1.
  assert (G1 : extends f f1).
  { destruct g.
    - injection E1 as <- <-. apply HashFacts.hash_extends_refl.
    - pose proof (hmore_extends_namedNode_str "rdf:defaultGraph" f) as H.
      unfold HashFactory.defaultGraph in E1. rewrite E1 in H. exact H. }
  destruct (HashFactory.intern _ _ f1) as [t f'] eqn:E.
  apply HashFacts.hash_intern_spec in E as [_ E].
  eapply HashFacts.hash_extends_trans; eauto.
Qed.

End WithHash.
End HashMore.

(** ** Identities that later calls do not change *)

Lemma index_id_described kind v d f t n :
  describes kind v d ->
  IndexFactory.kindMap d f = Some (IndexFactory.table
     (if String.eqb kind "BlankNode" then IndexFactory.KBlankNode
      else IndexFactory.KNamedNode) f) ->
  (kind = "BlankNode" \/ kind = "NamedNode") ->
  IndexFactory.table
     (if String.eqb kind "BlankNode" then IndexFactory.KBlankNode
      else IndexFactory.KNamedNode) f !! v = Some t ->
  obj_id t = Some n ->
  IndexFactory.id_obj d f = (Ok n, f).
Proof.
  intros (Hty & Hv & Hi & Hq) Hk Hkind Ht Hn.
  rewrite IndexFacts.index_id_obj_eq, Hi. unfold IndexFactory.bind.
  assert (Hm : IndexFactory.mapId d f = (Ok (Some v), f)).
  { destruct d as [r i k val l dt s p o g]. unfold isQuad in Hq. simpl in *.
    destruct s; [discriminate |]. unfold IndexFactory.mapId. simpl.
    subst k val. destruct Hkind as [-> | ->]; reflexivity. }
  rewrite Hm, Hk. unfold IndexFactory.id_or_next, IndexFactory.at_key. simpl.
  rewrite Ht, Hn. reflexivity.
Qed.

Lemma resolved_stamped f c n : IndexFactory.stamped c n -> resolved f c n.
Proof. intros H f' _. apply IndexFacts.index_id_obj_stamped, H. Qed.

Lemma resolved_grows f f' c n :
  resolved f c n -> IndexFactory.grows f f' -> resolved f' c n.
Proof.
  intros H G f'' G'. apply H. eapply IndexMore.more_grows_trans; eauto.
Qed.

Lemma resolved_now f c n : resolved f c n -> IndexFactory.id_obj c f = (Ok n, f).
Proof. intros H. apply H, IndexMore.more_grows_refl. Qed.

Lemma resolved_described kind v d f t n :
  describes kind v d -> (kind = "BlankNode" \/ kind = "NamedNode") ->
  IndexFactory.table
     (if String.eqb kind "BlankNode" then IndexFactory.KBlankNode
      else IndexFactory.KNamedNode) f !! v = Some t ->
  obj_id t = Some n ->
  resolved f d n.
Proof.
  intros Hd Hkind Ht Hn f' G.
  apply (index_id_described kind v d f' t n); auto.
  - destruct Hd as (Hty & _ & _ & Hq). unfold IndexFactory.kindMap.
    rewrite Hq, Hty. destruct Hkind as [-> | ->]; reflexivity.
  - apply (proj1 G), Ht.
Qed.

Lemma resolved_literal d dt f t n :
  obj_termType d = Some "Literal" -> truthy_id (obj_id d) = None ->
  isQuad d = false -> obj_datatype d = Some dt ->
  IndexFactory.literalMap f
    !! (obj_value d +:+ "," +:+ obj_language d +:+ "," +:+ obj_value dt) = Some t ->
  obj_id t = Some n ->
  resolved f d n.
Proof.
  intros Hty Hi Hq Hdt Ht Hn f' G.
  apply (proj1 G IndexFactory.KLiteral) in Ht. simpl in Ht.
  rewrite IndexFacts.index_id_obj_eq, Hi. unfold IndexFactory.bind.
  destruct d as [r i k v l d0 s p o g]. unfold isQuad in Hq. simpl in *.
  destruct s; [discriminate |]. subst k d0.
  unfold IndexFactory.mapId, IndexFactory.kindMap, isQuad. simpl.
  rewrite (at_key_plain _ _ (comma_key_plain _ _)), Ht. simpl. rewrite Hn. reflexivity.
Qed.

Lemma index_quadMapId_settled s p o g ns np no ng f :
  IndexFactory.id_obj s f = (Ok ns, f) -> IndexFactory.id_obj p f = (Ok np, f) ->
  IndexFactory.id_obj o f = (Ok no, f) ->
  (match g with Some x => IndexFactory.id_obj x f = (Ok ng, f) | None => ng = 0 end) ->
  IndexFactory.quadMapId s p o g f = (Ok (IndexFactory.quadKey ns np no ng), f).
Proof.
  intros Hs Hp Ho Hg. unfold IndexFactory.quadMapId, IndexFactory.bind.
  rewrite Hs, Hp, Ho. destruct g as [x|].
  - rewrite Hg. reflexivity.
  - subst ng. reflexivity.
Qed.

(** What the tail of [quad] does: it returns what the table holds under the
    key, or stores a new quad there. *)
Lemma index_quad_tail_spec s p o u key f :
  IndexFactory.wf f ->
  exists q f',
    IndexFactory.quad_tail s p o u key f = (Ok q, f') /\
    IndexFactory.quadMap f' !! key = Some q /\
    IndexFactory.grows f f' /\ IndexFactory.wf f' /\
    IndexFactory.namedNodeMap f' = IndexFactory.namedNodeMap f /\
    (forall q', IndexFactory.quadMap f !! key = Some q' -> q = q' /\ f' = f) /\
    (IndexFactory.quadMap f !! key = None ->
     q = Obj (IndexFactory.allocated f) (Some (IndexFactory.index f)) None "" "" None
             (Some s) (Some p) (Some o) (Some u) /\
     IndexFactory.allocated f' = S (IndexFactory.allocated f) /\
     IndexFactory.quadMap f' = <[key := q]> (IndexFactory.quadMap f)).
Proof.
  intros Hwf. unfold IndexFactory.quad_tail.
  destruct (IndexFactory.quadMap f !! key) as [q0|] eqn:E.
  - exists q0, f. split; [reflexivity |]. split; [exact E |].
    split; [apply IndexMore.more_grows_refl |]. split; [exact Hwf |].
    split; [reflexivity |]. split; [intros q' [= <-]; auto | discriminate].
  - set (mk := fun (r : nat) (i : Z) =>
                 Obj r (Some i) None "" "" None (Some s) (Some p) (Some o) (Some u)).
    destruct (IndexFactory.register IndexFactory.KQuad (Some key) mk f) as [r f'] eqn:Er.
    assert (Hmk : forall a i, obj_id (mk a i) = Some i) by reflexivity.
    pose proof (IndexFacts.index_register_roundtrip _ _ _ _ _ _ Hwf Hmk Er) as (Hwf' & _).
    pose proof (IndexMore.more_grows_register IndexFactory.KQuad key mk f Hwf E) as G.
    rewrite Er in G. simpl in G.
    unfold IndexFactory.register in Er. injection Er as <- <-.
    eexists _, _. split; [reflexivity |]. simpl.
    split; [apply lookup_insert_eq |]. split; [exact G |]. split; [exact Hwf' |].
    split; [reflexivity |]. split; [discriminate |]. intros _. auto.
Qed.

Lemma index_defaultGraph_spec f :
  IndexFactory.wf f ->
  exists dg f1 n,
    IndexFactory.defaultGraph f = (Ok dg, f1) /\
    IndexFactory.namedNodeMap f1 !! "rdf:defaultGraph" = Some dg /\
    obj_id dg = Some n /\ IndexFactory.stamped dg n /\
    IndexFactory.wf f1 /\ IndexFactory.grows f f1 /\
    IndexFactory.quadMap f1 = IndexFactory.quadMap f.
Proof.
  intros Hwf. unfold IndexFactory.defaultGraph.
  destruct (IndexFacts.index_namedNode_str_spec "rdf:defaultGraph" f eq_refl)
    as (dg & f1 & E & Hd & _ & Hq & _).
  pose proof (IndexFacts.index_namedNode_str_roundtrip _ _ _ _ Hwf E) as [Hwf1 _].
  pose proof (IndexMore.more_grows_namedNode_str "rdf:defaultGraph" f Hwf) as G.
  rewrite E in G. simpl in G.
  assert (Hs : IndexFactory.stored f1 dg) by (exists "rdf:defaultGraph"; auto).
  destruct (IndexMore.more_stored_stamped f1 dg Hwf1 Hs) as (n & Hn & Hst & _).
  exists dg, f1, n. auto 10.
Qed.

(** *** Descriptions that are equal by content *)

Lemma content_value t : obj_value (content t) = obj_value t.
Proof. destruct t. reflexivity. Qed.

Lemma same_content_value a b : same_content a b -> obj_value a = obj_value b.
Proof.
  unfold same_content. intros H.
  rewrite <- (content_value a), <- (content_value b), H. reflexivity.
Qed.

(** In the hash factory [id] sees the content only. *)
Lemma hash_id_content murmur3 seed t :
  HashFactory.id_obj murmur3 seed (content t) = HashFactory.id_obj murmur3 seed t.
Proof.
  induction t as [r i k v l d s p o g Hd Hs Hp Ho Hg] using obj_fields_ind.
  simpl. destruct (truthy_id i); [reflexivity |].
  assert (F : forall x,
            onField (fun t => HashFactory.id_obj murmur3 seed (content t)
                              = HashFactory.id_obj murmur3 seed t) x ->
            match match x with Some y => Some (content y) | None => None end with
            | Some y => HashFactory.id_obj murmur3 seed y
            | None => -1
            end
            = match x with Some y => HashFactory.id_obj murmur3 seed y | None => -1 end).
  { intros [y|] H; [exact H | reflexivity]. }
  destruct s as [s|].
  - simpl in Hs. rewrite Hs, (F p Hp), (F o Ho).
    destruct g as [g|]; [simpl in Hg; rewrite Hg |]; reflexivity.
  - destruct k as [kind|]; [| reflexivity].
    destruct (String.eqb kind "BlankNode"); [reflexivity |].
    destruct (String.eqb kind "NamedNode"); [reflexivity |].
    destruct (String.eqb kind "Literal"); [| reflexivity].
    rewrite (F d Hd). reflexivity.
Qed.

Lemma hash_same_content_id murmur3 seed a b :
  same_content a b ->
  HashFactory.id_obj murmur3 seed a = HashFactory.id_obj murmur3 seed b.
Proof.
  unfold same_content. intros H.
  rewrite <- (hash_id_content murmur3 seed a), <- (hash_id_content murmur3 seed b), H.
  reflexivity.
Qed.

(** And so it does in the index factory. *)
Lemma index_id_content t :
  forall f, IndexFactory.id_obj (content t) f = IndexFactory.id_obj t f.
Proof.
  induction t as [r i k v l d s p o g Hd Hs Hp Ho Hg] using obj_fields_ind.
  intros f. rewrite !IndexFacts.index_id_obj_eq. cbn [content obj_id].
  destruct (truthy_id i); [reflexivity |].
  assert (F : forall x,
            onField (fun t => forall f, IndexFactory.id_obj (content t) f
                                        = IndexFactory.id_obj t f) x ->
            forall f,
              IndexFactory.id_of
                (match x with Some y => Some (content y) | None => None end) f
              = IndexFactory.id_of x f).
  { intros [y|] H f0; [apply H | reflexivity]. }
  assert (M : IndexFactory.mapId
                (Obj 0 i k v l
                   (match d with Some y => Some (content y) | None => None end)
                   (match s with Some y => Some (content y) | None => None end)
                   (match p with Some y => Some (content y) | None => None end)
                   (match o with Some y => Some (content y) | None => None end)
                   (match g with Some y => Some (content y) | None => None end)) f
              = IndexFactory.mapId (Obj r i k v l d s p o g) f).
  { unfold IndexFactory.mapId. cbn [IndexFactory.mapId_with].
    destruct s as [s|].
    - unfold IndexFactory.bind.
      rewrite (F (Some s) Hs f).
      destruct (IndexFactory.id_of (Some s) f) as [[si| | |] f1]; try reflexivity.
      rewrite (F p Hp f1).
      destruct (IndexFactory.id_of p f1) as [[pi| | |] f2]; try reflexivity.
      rewrite (F o Ho f2).
      destruct (IndexFactory.id_of o f2) as [[oi| | |] f3]; try reflexivity.
      destruct g as [g|]; [| reflexivity].
      rewrite (F (Some g) Hg f3). reflexivity.
    - destruct k as [kind|]; [| reflexivity].
      destruct (_ || _); [reflexivity |].
      destruct (String.eqb kind "Literal"); [| reflexivity].
      destruct d as [d|]; [| reflexivity].
      rewrite content_value. reflexivity. }
  unfold IndexFactory.bind. rewrite M.
  destruct (IndexFactory.mapId (Obj r i k v l d s p o g) f) as [[key| | |] f1];
    try reflexivity.
  assert (K : forall f0,
            IndexFactory.kindMap
              (Obj 0 i k v l
                 (match d with Some y => Some (content y) | None => None end)
                 (match s with Some y => Some (content y) | None => None end)
                 (match p with Some y => Some (content y) | None => None end)
                 (match o with Some y => Some (content y) | None => None end)
                 (match g with Some y => Some (content y) | None => None end)) f0
            = IndexFactory.kindMap (Obj r i k v l d s p o g) f0).
  { intros f0. unfold IndexFactory.kindMap, isQuad. simpl. destruct s; reflexivity. }
  rewrite K. reflexivity.
Qed.

Lemma resolved_content f c c' n :
  same_content c c' -> resolved f c n -> resolved f c' n.
Proof.
  unfold same_content. intros H R f' G.
  rewrite <- index_id_content, <- H, index_id_content. apply R, G.
Qed.

(** *** Later factories keep what earlier ones had *)

Lemma hash_later_extends murmur3 f f' :
  hash_later murmur3 f f' -> HashFactory.extends f f'.
Proof.
  induction 1 as [| v f' _ IH | v f' _ IH | v lod f' _ IH | s p o g f' _ IH].
  - apply HashFacts.hash_extends_refl.
  - eapply HashFacts.hash_extends_trans; [exact IH | apply HashMore.hmore_extends_blankNode].
  - eapply HashFacts.hash_extends_trans; [exact IH | apply HashMore.hmore_extends_namedNode].
  - eapply HashFacts.hash_extends_trans; [exact IH | apply HashMore.hmore_extends_literal].
  - eapply HashFacts.hash_extends_trans; [exact IH | apply HashMore.hmore_extends_quad].
Qed.

Lemma index_later_grows f f' :
  IndexFactory.wf f -> index_later f f' -> IndexFactory.wf f' /\ IndexFactory.grows f f'.
Proof.
  intros Hwf. induction 1 as [| v f' _ [W G] | v f' _ [W G] | v lod f' _ [W G]
                             | s p o g f' _ [W G] | v f' _ [W G] | a b f' _ [W G]].
  - split; [exact Hwf | apply IndexMore.more_grows_refl].
  - split; [apply IndexFacts.index_wf_blankNode, W |].
    eapply IndexMore.more_grows_trans; [exact G | apply IndexMore.more_grows_blankNode, W].
  - split; [apply IndexFacts.index_wf_namedNode, W |].
    eapply IndexMore.more_grows_trans; [exact G | apply IndexMore.more_grows_namedNode, W].
  - split; [apply IndexFacts.index_wf_literal, W |].
    eapply IndexMore.more_grows_trans; [exact G | apply IndexMore.more_grows_literal, W].
  - split; [apply IndexFacts.index_quad_wf, W |].
    eapply IndexMore.more_grows_trans; [exact G | apply IndexMore.more_grows_quad, W].
  - destruct (IndexFactory.id v f') as [r f''] eqn:E. simpl. split.
    + eapply IndexFacts.index_wf_bumped; [apply IndexFacts.index_bumps_id | exact W | exact E].
    + eapply IndexMore.more_grows_trans; [exact G |].
      eapply IndexMore.more_grows_bumped; [apply IndexFacts.index_bumps_id | exact E].
  - destruct (IndexFactory.equals a b f') as [r f''] eqn:E. simpl. split.
    + eapply IndexFacts.index_wf_bumped; [apply IndexFacts.index_bumps_equals | exact W | exact E].
    + eapply IndexMore.more_grows_trans; [exact G |].
      eapply IndexMore.more_grows_bumped; [apply IndexFacts.index_bumps_equals | exact E].
Qed.

(** *** A term once returned is returned again *)

Lemma hash_intern_persists i mk f t f1 :
  HashFactory.intern i mk f = (t, f1) ->
  forall mk' f2, HashFactory.extends f1 f2 -> HashFactory.intern i mk' f2 = (t, f2).
Proof.
  intros E mk' f2 [_ X]. apply HashFacts.hash_intern_spec in E as [Ht _].
  apply HashFacts.hash_intern_hit, X, Ht.
Qed.

Lemma hash_namedNode_str_persists murmur3 v f t f1 :
  HashFactory.namedNode_str murmur3 v f = (t, f1) ->
  forall f2, HashFactory.extends f1 f2 ->
    HashFactory.namedNode_str murmur3 v f2 = (t, f2).
Proof.
  intros E f2 X. pose proof X as [S _].
  pose proof (HashFacts.hash_namedNode_str_spec murmur3 _ _ _ _ E) as (_ & S1 & _).
  unfold HashFactory.namedNode_str in *. rewrite S, S1.
  eapply hash_intern_persists; eauto.
Qed.

Lemma hash_blankNode_str_persists murmur3 v f t f1 :
  HashFactory.blankNode_str murmur3 (Some v) f = (t, f1) ->
  forall f2, HashFactory.extends f1 f2 ->
    HashFactory.blankNode_str murmur3 (Some v) f2 = (t, f2).
Proof.
  intros E f2 X. pose proof X as [S _].
  unfold HashFactory.blankNode_str in *.
  pose proof (HashFacts.hash_intern_spec _ _ _ _ _ E) as (_ & S1 & _).
  rewrite S, S1. eapply hash_intern_persists; eauto.
Qed.

Lemma hash_literal_id_content murmur3 seed v d d' l :
  same_content d d' ->
  HashFactory.id_obj murmur3 seed (describeLiteral v d l)
  = HashFactory.id_obj murmur3 seed (describeLiteral v d' l).
Proof.
  intros H. simpl. rewrite (hash_same_content_id murmur3 seed d d' H). reflexivity.
Qed.

Lemma hash_literal_persists murmur3 v lod f t f1 :
  HashFactory.literal murmur3 v lod f = (t, f1) ->
  forall lod' f2,
    same_request lod lod' -> HashFactory.extends f1 f2 ->
    HashFactory.literal murmur3 v lod' f2 = (t, f2).
Proof.
  intros E lod' f2 R X. unfold HashFactory.literal in *.
  destruct (HashFactory.literal_datatype murmur3 lod f) as [d f0] eqn:Ed.
  pose proof (HashFacts.hash_intern_spec _ _ _ _ _ E) as (_ & X01).
  pose proof (HashFacts.hash_extends_trans _ _ _ X01 X) as X02.
  assert (Node : forall iri,
            HashFactory.namedNode_str murmur3 iri f = (d, f0) ->
            HashFactory.namedNode_str murmur3 iri f2 = (d, f2)).
  { intros iri En. eapply hash_namedNode_str_persists; eauto. }
  pose proof X02 as [S02 _].
  destruct lod as [|l|d0], lod' as [|l'|d0']; simpl in R; try contradiction;
    unfold HashFactory.literal_datatype in *.
  - rewrite (Node _ Ed), S02. eapply hash_intern_persists; eauto.
  - subst l'. rewrite (Node _ Ed), S02. eapply hash_intern_persists; eauto.
  - injection Ed as <- <-. rewrite S02. simpl languageOf in *.
    rewrite <- (hash_literal_id_content murmur3 (HashFactory.seedBase f) v d0 d0' "" R).
    eapply hash_intern_persists; [exact E | exact X].
Qed.

Lemma hash_quad_persists murmur3 s p o g f t f1 :
  HashFactory.quad murmur3 s p o g f = (t, f1) ->
  forall s' p' o' g' f2,
    same_content s s' -> same_content p p' -> same_content o o' ->
    same_graph g g' -> HashFactory.extends f1 f2 ->
    HashFactory.quad murmur3 s' p' o' g' f2 = (t, f2).
Proof.
  intros E s' p' o' g' f2 Cs Cp Co Cg X. unfold HashFactory.quad in *.
  destruct g as [x|], g' as [y|]; simpl in Cg; try contradiction.
  - pose proof (HashFacts.hash_intern_spec _ _ _ _ _ E) as (_ & X01).
    pose proof (HashFacts.hash_extends_trans _ _ _ X01 X) as [S02 _]. rewrite S02.
    rewrite <- (hash_same_content_id murmur3 _ s s' Cs),
            <- (hash_same_content_id murmur3 _ p p' Cp),
            <- (hash_same_content_id murmur3 _ o o' Co),
            <- (hash_same_content_id murmur3 _ x y Cg).
    eapply hash_intern_persists; [exact E | exact X].
  - unfold HashFactory.defaultGraph in *.
    destruct (HashFactory.namedNode_str murmur3 "rdf:defaultGraph" f) as [d f0] eqn:Ed.
    pose proof (HashFacts.hash_intern_spec _ _ _ _ _ E) as (_ & X01).
    pose proof (HashFacts.hash_extends_trans _ _ _ X01 X) as X02.
    rewrite (hash_namedNode_str_persists murmur3 _ _ _ _ Ed f2 X02).
    pose proof X02 as [S02 _]. rewrite S02.
    rewrite <- (hash_same_content_id murmur3 _ s s' Cs),
            <- (hash_same_content_id murmur3 _ p p' Cp),
            <- (hash_same_content_id murmur3 _ o o' Co).
    eapply hash_intern_persists; [exact E | exact X].
Qed.

Lemma index_namedNode_str_persists v f t f1 :
  IndexFactory.namedNode_str v f = (Ok t, f1) ->
  forall f2, IndexFactory.grows f1 f2 -> IndexFactory.namedNode_str v f2 = (Ok t, f2).
Proof.
  intros E f2 [G _]. apply IndexFacts.index_namedNode_str_hit.
  apply (G IndexFactory.KNamedNode). simpl.
  rewrite IndexFacts.index_namedNode_str_eq in E.
  destruct (IndexFactory.namedNodeMap f !! v) as [u|] eqn:Eu.
  - injection E as <- <-. exact Eu.
  - destruct (in_prototype v); [discriminate |].
    unfold IndexFactory.register in E. injection E as <- <-. simpl.
    apply lookup_insert_eq.
Qed.

Lemma index_blankNode_str_persists v f t f1 :
  v <> "" ->
  IndexFactory.blankNode_str (Some v) f = (Ok t, f1) ->
  forall f2, IndexFactory.grows f1 f2 ->
    IndexFactory.blankNode_str (Some v) f2 = (Ok t, f2).
Proof.
  intros Hv E f2 [G _].
  rewrite (IndexFacts.index_blankNode_str_eq v f2 Hv).
  rewrite (IndexFacts.index_blankNode_str_eq v f Hv) in E.
  assert (H : IndexFactory.blankNodeMap f1 !! v = Some t).
  { destruct (IndexFactory.blankNodeMap f !! v) as [u|] eqn:Eu.
    - injection E as <- <-. exact Eu.
    - destruct (in_prototype v); [discriminate |].
      unfold IndexFactory.register in E. injection E as <- <-. simpl.
      apply lookup_insert_eq. }
  apply (G IndexFactory.KBlankNode) in H. simpl in H. rewrite H. reflexivity.
Qed.

Lemma index_literal_persists v lod f :
  IndexFactory.wf f ->
  exists t f1,
    IndexFactory.literal v lod f = (Ok t, f1) /\
    forall lod' f2,
      same_request lod lod' -> IndexFactory.grows f1 f2 ->
      IndexFactory.literal v lod' f2 = (Ok t, f2).
Proof.
  intros Hwf.
  destruct (IndexFacts.index_literal_datatype_wf lod f Hwf) as (d & f0 & Ed & Hwf0).
  destruct (IndexFacts.index_literal_tail_repeats v (languageOf lod) d f0)
    as (t & f1 & Et & Et' & Hn).
  exists t, f1. split.
  { rewrite IndexFacts.index_literal_eq. unfold IndexFactory.bind. rewrite Ed. exact Et. }
  intros lod' f2 R G.
  assert (Hkey : IndexFactory.literalMap f2
                   !! (v +:+ "," +:+ languageOf lod +:+ "," +:+ obj_value d) = Some t).
  { apply (proj1 G IndexFactory.KLiteral). simpl.
    unfold IndexFactory.literal_tail in Et'.
    destruct (IndexFactory.literalMap f1 !! _) as [u|] eqn:Eu.
    - injection Et' as <-. reflexivity.
    - unfold IndexFactory.register in Et'. injection Et' as _ Ef.
      apply (f_equal IndexFactory.index) in Ef. simpl in Ef. lia. }
  assert (Node : forall iri,
            IndexFactory.namedNode_str iri f = (Ok d, f0) ->
            IndexFactory.namedNode_str iri f2 = (Ok d, f2)).
  { intros iri En.
    apply IndexFacts.index_namedNode_str_hit.
    apply (proj1 G IndexFactory.KNamedNode). simpl. rewrite Hn.
    pose proof (index_namedNode_str_persists iri f d f0 En f0
                  (IndexMore.more_grows_refl f0)) as Hit.
    rewrite IndexFacts.index_namedNode_str_eq in Hit.
    destruct (IndexFactory.namedNodeMap f0 !! iri) as [u|] eqn:Eu.
    - injection Hit as <-. reflexivity.
    - destruct (in_prototype iri); [discriminate |].
      unfold IndexFactory.register in Hit. injection Hit as _ Ef.
      apply (f_equal IndexFactory.index) in Ef. simpl in Ef. lia. }
  rewrite IndexFacts.index_literal_eq. unfold IndexFactory.bind.
  destruct lod as [|l|d0], lod' as [|l'|d0']; simpl in R; try contradiction;
    unfold IndexFactory.literal_datatype in *.
  - rewrite (Node _ Ed). unfold IndexFactory.literal_tail. simpl in Hkey.
    simpl. rewrite Hkey. reflexivity.
  - subst l'. rewrite (Node _ Ed). unfold IndexFactory.literal_tail. simpl in Hkey.
    simpl. rewrite Hkey. reflexivity.
  - injection Ed as <- <-. unfold IndexFactory.ret, IndexFactory.literal_tail.
    simpl in *. rewrite <- (same_content_value _ _ R), Hkey. reflexivity.
Qed.

Lemma index_quad_persists s p o g ns np no ng f :
  IndexFactory.wf f ->
  resolved f s ns -> resolved f p np -> resolved f o no ->
  (match g with Some x => resolved f x ng | None => ng = 0 end) ->
  exists q f1,
    IndexFactory.quad s p o g f = (Ok q, f1) /\
    IndexFactory.wf f1 /\
    forall s' p' o' g' f2,
      IndexFactory.wf f2 -> IndexFactory.grows f1 f2 ->
      resolved f2 s' ns -> resolved f2 p' np -> resolved f2 o' no ->
      (match g, g' with
       | Some _, Some x' => resolved f2 x' ng
       | None, None => True
       | _, _ => False
       end) ->
      IndexFactory.quad s' p' o' g' f2 = (Ok q, f2).
Proof.
  intros Hwf Rs Rp Ro Rg.
  assert (Hu : exists u f0,
            (match g with
             | Some x => IndexFactory.ret x
             | None => IndexFactory.defaultGraph
             end) f = (Ok u, f0) /\
            IndexFactory.wf f0 /\ IndexFactory.grows f f0 /\
            (g = None -> IndexFactory.namedNodeMap f0 !! "rdf:defaultGraph" = Some u)).
  { destruct g as [x|].
    - exists x, f. split; [reflexivity |]. split; [exact Hwf |].
      split; [apply IndexMore.more_grows_refl | discriminate].
    - destruct (index_defaultGraph_spec f Hwf) as (dg & f0 & n & E & Hd & _ & _ & W & G & _).
      exists dg, f0. auto. }
  destruct Hu as (u & f0 & Eu & Hwf0 & G0 & Hdg).
  assert (K : IndexFactory.quadMapId s p o g f0
              = (Ok (IndexFactory.quadKey ns np no ng), f0)).
  { apply index_quadMapId_settled.
    - apply resolved_now. eapply resolved_grows; eauto.
    - apply resolved_now. eapply resolved_grows; eauto.
    - apply resolved_now. eapply resolved_grows; eauto.
    - destruct g as [x|]; [| exact Rg].
      apply resolved_now. eapply resolved_grows; eauto. }
  destruct (index_quad_tail_spec s p o u (IndexFactory.quadKey ns np no ng) f0 Hwf0)
    as (q & f1 & Et & Hq & G1 & Hwf1 & Hn & _).
  exists q, f1. split.
  { rewrite IndexFacts.index_quad_eq. unfold IndexFactory.bind. rewrite Eu, K. exact Et. }
  split; [exact Hwf1 |].
  intros s' p' o' g' f2 Hwf2 G2 Rs' Rp' Ro' Rg'.
  assert (K' : IndexFactory.quadMapId s' p' o' g' f2
               = (Ok (IndexFactory.quadKey ns np no ng), f2)).
  { apply index_quadMapId_settled; try (apply resolved_now; assumption).
    destruct g as [x|], g' as [x'|]; try contradiction.
    - apply resolved_now, Rg'.
    - exact Rg. }
  assert (Hq2 : IndexFactory.quadMap f2 !! IndexFactory.quadKey ns np no ng = Some q).
  { apply (proj1 G2 IndexFactory.KQuad), Hq. }
  rewrite IndexFacts.index_quad_eq. unfold IndexFactory.bind.
  assert (Eu' : exists u',
            (match g' with
             | Some x => IndexFactory.ret x
             | None => IndexFactory.defaultGraph
             end) f2 = (Ok u', f2)).
  { destruct g' as [x'|]; [exists x'; reflexivity |].
    destruct g as [x|]; [contradiction |].
    exists u. apply IndexFacts.index_namedNode_str_hit.
    apply (proj1 G2 IndexFactory.KNamedNode). simpl. rewrite Hn. apply Hdg. reflexivity. }
  destruct Eu' as [u' ->]. rewrite K'.
  unfold IndexFactory.quad_tail. rewrite Hq2. reflexivity.
Qed.

(** ** Singleton interning *)

(** C1, as the code has it. Once an operation has returned a term, every
    later call on a description that is equal by content returns the very
    same instance and changes nothing, whatever calls of the operations
    came in between.
    In the hash factory this holds for [blankNode] with a non-empty value,
    for [namedNode], for [literal] (with the same language, or datatypes of
    equal content) and for [quad] (with components of equal content).
    In the index factory, from a well-formed factory on, it holds for
    [blankNode] with a non-empty value and for [namedNode], on values that
    name no member of [Object.prototype]; for [literal]; and for [quad]
    when the identities of the components are settled: the components carry
    them or are descriptions of stored nodes or literals, and then two
    calls on components with the same identities, as those of equal content
    have, return the same quad. On the name of a member of [Object.prototype]
    that has no entry of its own, [namedNode] and [blankNode] return that
    member at every call. *)
Theorem singleton_interning (murmur3 : string -> Z -> Z) :
  (forall v f, v <> "" ->
     exists t f1,
       HashFactory.blankNode murmur3 (JStr v) f = (Ok t, f1) /\
       forall f2, hash_later murmur3 f1 f2 ->
         HashFactory.blankNode murmur3 (JStr v) f2 = (Ok t, f2)) /\
  (forall v f,
     exists t f1,
       HashFactory.namedNode murmur3 (JStr v) f = (Ok t, f1) /\
       forall f2, hash_later murmur3 f1 f2 ->
         HashFactory.namedNode murmur3 (JStr v) f2 = (Ok t, f2)) /\
  (forall v lod f t f1,
     HashFactory.literal murmur3 v lod f = (t, f1) ->
     forall lod' f2,
       same_request lod lod' -> hash_later murmur3 f1 f2 ->
       HashFactory.literal murmur3 v lod' f2 = (t, f2)) /\
  (forall s p o g f t f1,
     HashFactory.quad murmur3 s p o g f = (t, f1) ->
     forall s' p' o' g' f2,
       same_content s s' -> same_content p p' -> same_content o o' ->
       same_graph g g' -> hash_later murmur3 f1 f2 ->
       HashFactory.quad murmur3 s' p' o' g' f2 = (t, f2)) /\
  (forall v f,
     IndexFactory.wf f -> v <> "" -> in_prototype v = false ->
     exists t f1,
       IndexFactory.blankNode (JStr v) f = (Ok t, f1) /\
       forall f2, index_later f1 f2 ->
         IndexFactory.blankNode (JStr v) f2 = (Ok t, f2)) /\
  (forall v f,
     IndexFactory.wf f -> in_prototype v = false ->
     exists t f1,
       IndexFactory.namedNode (JStr v) f = (Ok t, f1) /\
       forall f2, index_later f1 f2 ->
         IndexFactory.namedNode (JStr v) f2 = (Ok t, f2)) /\
  (forall v lod f,
     IndexFactory.wf f ->
     exists t f1,
       IndexFactory.literal v lod f = (Ok t, f1) /\
       forall lod' f2,
         same_request lod lod' -> index_later f1 f2 ->
         IndexFactory.literal v lod' f2 = (Ok t, f2)) /\
  (forall s p o g ns np no ng f,
     IndexFactory.wf f ->
     resolved f s ns -> resolved f p np -> resolved f o no ->
     (match g with Some x => resolved f x ng | None => ng = 0 end) ->
     exists q f1,
       IndexFactory.quad s p o g f = (Ok q, f1) /\
       forall s' p' o' g' f2,
         index_later f1 f2 ->
         resolved f2 s' ns -> resolved f2 p' np -> resolved f2 o' no ->
         (match g, g' with
          | Some _, Some x' => resolved f2 x' ng
          | None, None => True
          | _, _ => False
          end) ->
         IndexFactory.quad s' p' o' g' f2 = (Ok q, f2)) /\
  (forall f c n, IndexFactory.stamped c n -> resolved f c n) /\
  (forall f v d t n,
     describes "NamedNode" v d ->
     IndexFactory.namedNodeMap f !! v = Some t -> obj_id t = Some n ->
     resolved f d n) /\
  (forall f v d t n,
     describes "BlankNode" v d ->
     IndexFactory.blankNodeMap f !! v = Some t -> obj_id t = Some n ->
     resolved f d n) /\
  (forall f d dt t n,
     obj_termType d = Some "Literal" -> truthy_id (obj_id d) = None ->
     isQuad d = false -> obj_datatype d = Some dt ->
     IndexFactory.literalMap f
       !! (obj_value d +:+ "," +:+ obj_language d +:+ "," +:+ obj_value dt) = Some t ->
     obj_id t = Some n ->
     resolved f d n) /\
  (forall f c c' n, same_content c c' -> resolved f c n -> resolved f c' n) /\
  (forall f f' c n, IndexFactory.wf f -> index_later f f' ->
     resolved f c n -> resolved f' c n) /\
  (forall v f,
     in_prototype v = true ->
     IndexFactory.namedNodeMap f !! v = None ->
     IndexFactory.blankNodeMap f !! v = None ->
     IndexFactory.namedNode (JStr v) f = (Inherited v, f) /\
     IndexFactory.blankNode (JStr v) f = (Inherited v, f)).
Proof.
  assert (HB : forall v f, v <> "" ->
            HashFactory.blankNode murmur3 (JStr v) f
            = (Ok (fst (HashFactory.blankNode_str murmur3 (Some v) f)),
               snd (HashFactory.blankNode_str murmur3 (Some v) f))).
  { intros v f Hv. unfold HashFactory.blankNode, HashFactory.blankNode_with. simpl.
    destruct (String.eqb_spec v "") as [->|_]; [congruence |]. simpl.
    destruct (HashFactory.blankNode_str murmur3 (Some v) f). reflexivity. }
  assert (HN : forall v f,
            HashFactory.namedNode murmur3 (JStr v) f
            = (Ok (fst (HashFactory.namedNode_str murmur3 v f)),
               snd (HashFactory.namedNode_str murmur3 v f))).
  { intros v f. unfold HashFactory.namedNode, HashFactory.namedNode_with. simpl.
    destruct (HashFactory.namedNode_str murmur3 v f). reflexivity. }
  assert (IB : forall v f, v <> "" ->
            IndexFactory.blankNode (JStr v) f = IndexFactory.blankNode_str (Some v) f).
  { intros v f Hv. unfold IndexFactory.blankNode. simpl.
    destruct (String.eqb_spec v "") as [->|_]; [congruence | reflexivity]. }
  repeat match goal with |- _ /\ _ => split end.
  - intros v f Hv.
    destruct (HashFactory.blankNode_str murmur3 (Some v) f) as [t f1] eqn:E.
    exists t, f1. rewrite (HB v f Hv), E. split; [reflexivity |].
    intros f2 L. apply hash_later_extends in L.
    rewrite (HB v f2 Hv), (hash_blankNode_str_persists murmur3 v f t f1 E f2 L).
    reflexivity.
  - intros v f.
    destruct (HashFactory.namedNode_str murmur3 v f) as [t f1] eqn:E.
    exists t, f1. rewrite (HN v f), E. split; [reflexivity |].
    intros f2 L. apply hash_later_extends in L.
    rewrite (HN v f2), (hash_namedNode_str_persists murmur3 v f t f1 E f2 L).
    reflexivity.
  - intros v lod f t f1 E lod' f2 R L. apply hash_later_extends in L.
    eapply hash_literal_persists; eauto.
  - intros s p o g f t f1 E s' p' o' g' f2 Cs Cp Co Cg L.
    apply hash_later_extends in L. eapply hash_quad_persists; eauto.
  - intros v f Hwf Hv Hp.
    assert (Ex : exists t f1, IndexFactory.blankNode_str (Some v) f = (Ok t, f1)).
    { rewrite (IndexFacts.index_blankNode_str_eq v f Hv), Hp.
      destruct (IndexFactory.blankNodeMap f !! v); eauto. }
    destruct Ex as (t & f1 & E). exists t, f1. rewrite (IB v f Hv). split; [exact E |].
    intros f2 L.
    assert (Hwf1 : IndexFactory.wf f1).
    { pose proof (IndexFacts.index_blankNode_str_roundtrip _ _ _ _ Hwf E) as [W _]. exact W. }
    apply (index_later_grows f1 f2 Hwf1) in L as [_ G].
    rewrite (IB v f2 Hv). eapply index_blankNode_str_persists; eauto.
  - intros v f Hwf Hp. simpl.
    destruct (IndexFacts.index_namedNode_str_plain_wf v f Hp Hwf) as (t & f1 & E & Hwf1).
    exists t, f1. split; [exact E |].
    intros f2 L. apply (index_later_grows f1 f2 Hwf1) in L as [_ G].
    eapply index_namedNode_str_persists; eauto.
  - intros v lod f Hwf.
    destruct (index_literal_persists v lod f Hwf) as (t & f1 & E & P).
    exists t, f1. split; [exact E |].
    intros lod' f2 R L.
    assert (Hwf1 : IndexFactory.wf f1).
    { pose proof (IndexFacts.index_wf_literal v lod f Hwf) as W. rewrite E in W. exact W. }
    apply (index_later_grows f1 f2 Hwf1) in L as [_ G]. apply P; assumption.
  - intros s p o g ns np no ng f Hwf Rs Rp Ro Rg.
    destruct (index_quad_persists s p o g ns np no ng f Hwf Rs Rp Ro Rg)
      as (q & f1 & E & Hwf1 & P).
    exists q, f1. split; [exact E |].
    intros s' p' o' g' f2 L. apply (index_later_grows f1 f2 Hwf1) in L as [W G].
    apply P; assumption.
  - intros f c n. apply resolved_stamped.
  - intros f v d t n Hd Ht Hn.
    apply (resolved_described "NamedNode" v d f t n); auto.
  - intros f v d t n Hd Ht Hn.
    apply (resolved_described "BlankNode" v d f t n); auto.
  - intros f d dt t n. apply resolved_literal.
  - intros f c c' n. apply resolved_content.
  - intros f f' c n Hwf L R. apply (index_later_grows f f' Hwf) in L as [_ G].
    eapply resolved_grows; eauto.
  - intros v f Hp Hn Hb. split.
    + simpl. rewrite IndexFacts.index_namedNode_str_eq, Hn, Hp. reflexivity.
    + assert (Hv : v <> "") by (intros ->; discriminate).
      rewrite (IB v f Hv), (IndexFacts.index_blankNode_str_eq v f Hv), Hb, Hp.
      reflexivity.
Qed.


(** C1 fails as stated: an empty blank node value counts as no value, so each
    call makes up a new name (index factory, and hash factory as soon as the
    two names hash apart); and in the index factory a quad over descriptions
    of nodes that are not stored is keyed by identities drawn afresh at
    every call. *)
Lemma singleton_interning_fails :
  distinct_instances (IndexFactory.blankNode (JStr "")) index0 /\
  distinct_instances
    (IndexFactory.quad (describeNode "NamedNode" "a") (describeNode "NamedNode" "b")
                       (describeNode "NamedNode" "c") None) index0 /\
  (forall murmur3 : string -> Z -> Z,
     murmur3 "b1" 1 <> murmur3 "b2" 1 ->
     distinct_instances (HashFactory.blankNode murmur3 (JStr "")) hash0).
Proof.
  split; [| split].
  - unfold distinct_instances. eexists _, _, _, _.
    split; [vm_compute; reflexivity |].
    split; [vm_compute; reflexivity |]. reflexivity.
  - unfold distinct_instances. eexists _, _, _, _.
    split; [vm_compute; reflexivity |].
    split; [vm_compute; reflexivity |]. reflexivity.
  - intros murmur3 Hne. unfold distinct_instances.
    unfold HashFactory.blankNode, HashFactory.blankNode_with, hash0,
      HashFactory.create, HashFactory.blankNode_str, HashFactory.intern.
    simpl. change (pretty 1%positive) with "1". change (0 + 1) with 1. simpl.
    rewrite lookup_empty.
    eexists _, _, _, _. split; [reflexivity |].
    simpl. change (pretty 2%positive) with "2". change (0 + 1) with 1. simpl.
    rewrite lookup_insert_ne by exact Hne.
    rewrite lookup_empty.
    split; reflexivity.
Qed.


Lemma singleton_interning_witness :
  IndexFactory.wf namedStore /\
  resolved namedStore (describeNode "NamedNode" "s") 1 /\
  exists q f1,
    IndexFactory.quad (describeNode "NamedNode" "s") node2 node3 None namedStore
      = (Ok q, f1) /\
    IndexFactory.quad node1 (describeNode "NamedNode" "p") node3 None
      (snd (IndexFactory.literal "x" Omitted (snd (IndexFactory.blankNode JUndefined f1))))
      = (Ok q,
         snd (IndexFactory.literal "x" Omitted (snd (IndexFactory.blankNode JUndefined f1)))).
Proof.
  assert (Hwf : IndexFactory.wf namedStore).
  { apply IndexFacts.index_reachable_wf. repeat constructor. }
  destruct (singleton_interning lengthHash)
    as (_ & _ & _ & _ & _ & _ & _ & HQ & HS & HD & _ & _ & _ & HL & _).
  assert (Rs : resolved namedStore (describeNode "NamedNode" "s") 1).
  { apply (HD namedStore "s" _
             (Obj 1 (Some 1) (Some "NamedNode") "s" "" None None None None None) 1).
    - repeat split.
    - vm_compute. reflexivity.
    - reflexivity. }
  assert (Rp : resolved namedStore (describeNode "NamedNode" "p") 2).
  { apply (HD namedStore "p" _
             (Obj 2 (Some 2) (Some "NamedNode") "p" "" None None None None None) 2).
    - repeat split.
    - vm_compute. reflexivity.
    - reflexivity. }
  split; [exact Hwf |]. split; [exact Rs |].
  destruct (HQ (describeNode "NamedNode" "s") node2 node3 None 1 2 3 0 namedStore Hwf Rs
              (HS namedStore node2 2 eq_refl) (HS namedStore node3 3 eq_refl) eq_refl)
    as (q & f1 & E & P).
  exists q, f1. split; [exact E |].
  set (f2 := snd (IndexFactory.literal "x" Omitted (snd (IndexFactory.blankNode JUndefined f1)))).
  assert (L : index_later f1 f2).
  { apply index_then_literal, index_then_blankNode, index_now. }
  assert (L0 : index_later namedStore f2).
  { apply index_then_literal, index_then_blankNode.
    change f1 with (snd (Ok q, f1)). rewrite <- E.
    apply index_then_quad, index_now. }
  apply (P node1 (describeNode "NamedNode" "p") node3 None f2 L).
  - apply HS. reflexivity.
  - apply (HL namedStore f2 _ _ Hwf L0 Rp).
  - apply HS. reflexivity.
  - exact I.
Defined.


(** ** The identity of a quad in the hash factory *)

(** C2, as the code has it. The identities of the components are numbers and
    the code adds them: [id] of a quad that carries no identity is the hash,
    under seed [seedBase + 3], of the decimal form of the sum of the
    identities of subject, predicate, object and graph ([0] for a missing
    graph); and the quad that [quad] returns from a consistent store carries
    the hash of the sum taken with the identity of the graph it stores, the
    default graph when none was supplied. *)
Theorem quad_identity_hashes_sum (murmur3 : string -> Z -> Z) :
  (forall seed t,
     truthy_id (obj_id t) = None -> isQuad t = true ->
     HashFactory.id_obj murmur3 seed t =
     murmur3
       (toString (HashFactory.id_of murmur3 seed (obj_subject t)
                  + HashFactory.id_of murmur3 seed (obj_predicate t)
                  + HashFactory.id_of murmur3 seed (obj_object t)
                  + match obj_graph t with
                    | Some g => HashFactory.id_obj murmur3 seed g
                    | None => 0
                    end))
       (seed + 3)) /\
  (forall s p o g f t f',
     HashFactory.consistent murmur3 f ->
     HashFactory.quad murmur3 s p o g f = (t, f') ->
     obj_id t =
       Some (HashFactory.quadIdentity murmur3 (HashFactory.seedBase f) s p o
               (HashFactory.usedGraph murmur3 g f)) /\
     HashFactory.id murmur3 (JObj t) f' =
       Ok (HashFactory.quadIdentity murmur3 (HashFactory.seedBase f) s p o
             (HashFactory.usedGraph murmur3 g f))).
Proof.
  split.
  - intros seed [r i k v l d s p o g]. unfold isQuad. simpl.
    intros -> Hq. destruct s as [s|]; [reflexivity | discriminate].
  - intros s p o g f t f' Hc E.
    pose proof (HashFacts.hash_quad_consistent murmur3 s p o g f t f' Hc E)
      as (_ & Hid & Hre).
    split; [exact Hid |].
    assert (Hs : HashFactory.seedBase f' = HashFactory.seedBase f).
    { unfold HashFactory.quad in E.
      destruct g as [g|].
      - apply HashFacts.hash_intern_spec in E as [_ [Hs _]]. exact Hs.
      - unfold HashFactory.defaultGraph in E.
        destruct (HashFactory.namedNode_str murmur3 "rdf:defaultGraph" f)
          as [d f1] eqn:E1.
        apply HashFacts.hash_namedNode_str_spec in E1 as [_ [Hs1 _]].
        apply HashFacts.hash_intern_spec in E as [_ [Hs _]]. congruence. }
    simpl. rewrite Hs, Hre. reflexivity.
Qed.

(** C2 fails as stated: for components with identities 1, 2, 3 and 4 the
    code hashes ["10"], the decimal form of their sum, and not ["1234"]. *)
Lemma quad_identity_not_concatenation :
  obj_id (fst (HashFactory.quad lengthHash node1 node2 node3 (Some node4) hash0))
    = Some (lengthHash "10" 3) /\
  HashFactory.concatenatedIdentity lengthHash 0 node1 node2 node3 (Some node4)
    = lengthHash "1234" 3 /\
  obj_id (fst (HashFactory.quad lengthHash node1 node2 node3 (Some node4) hash0))
    <> Some (HashFactory.concatenatedIdentity lengthHash 0 node1 node2 node3 (Some node4)).
Proof.
  split; [vm_compute; reflexivity |].
  split; [vm_compute; reflexivity |].
  vm_compute. discriminate.
Qed.

Lemma quad_identity_hashes_sum_witness :
  HashFactory.consistent lengthHash hash0 /\
  obj_id (fst (HashFactory.quad lengthHash node1 node2 node3 None hash0)) =
    Some (HashFactory.quadIdentity lengthHash 0 node1 node2 node3
            (HashFactory.usedGraph lengthHash None hash0)).
Proof.
  split; [apply HashFacts.hash_consistent_create |].
  destruct (HashFactory.quad lengthHash node1 node2 node3 None hash0) as [t f'] eqn:E.
  destruct (quad_identity_hashes_sum lengthHash) as [_ H].
  exact (proj1 (H node1 node2 node3 None hash0 t f'
                  (HashFacts.hash_consistent_create lengthHash None None) E)).
Defined.

(** ** The content key of a quad in the index factory *)





(** ** Literal defaulting *)

Lemma literalShape_new lod v r i d :
  (forall iri, datatypeIRI lod = Some iri -> obj_value d = iri) ->
  (forall d0, lod = Datatype d0 -> d = d0) ->
  literalShape lod v
    (Obj r i (Some "Literal") v (languageOf lod) (Some d) None None None None).
Proof.
  intros Hiri Hd. split; [reflexivity |]. split; [reflexivity |].
  destruct lod as [|l|d0]; simpl.
  - split; [reflexivity |]. exists d. split; [reflexivity |]. apply Hiri. reflexivity.
  - split; [reflexivity |]. exists d. split; [reflexivity |]. apply Hiri. reflexivity.
  - split; [reflexivity |]. rewrite (Hd d0 eq_refl). eauto.
Qed.

(** [literalMap] changes in [literal] only. *)
Lemma lit_bumped {A} (m : IndexFactory.M A) (r : outcome A) f f' :
  IndexFactory.bumps m -> m f = (r, f') ->
  IndexFactory.literalMap f' = IndexFactory.literalMap f.
Proof. intros B E. apply B in E as [-> _]. reflexivity. Qed.

Lemma lit_namedNode_str v f :
  IndexFactory.literalMap (snd (IndexFactory.namedNode_str v f)) = IndexFactory.literalMap f.
Proof.
  rewrite IndexFacts.index_namedNode_str_eq.
  destruct (IndexFactory.namedNodeMap f !! v); [reflexivity |].
  destruct (in_prototype v); reflexivity.
Qed.

Lemma lit_blankNode_str w f :
  IndexFactory.literalMap (snd (IndexFactory.blankNode_str w f)) = IndexFactory.literalMap f.
Proof.
  unfold IndexFactory.blankNode_str, IndexFactory.bind.
  destruct w as [v|]; simpl.
  - destruct (if negb (String.eqb v "") then _ else _); reflexivity.
  - match goal with
    | |- context [IndexFactory.at_key ?tb ?k] => destruct (IndexFactory.at_key tb k)
    end; reflexivity.
Qed.

Lemma lit_quad s p o g f :
  IndexFactory.wf f ->
  IndexFactory.literalMap (snd (IndexFactory.quad s p o g f)) = IndexFactory.literalMap f.
Proof.
  intros Hwf. rewrite IndexFacts.index_quad_eq. unfold IndexFactory.bind.
  destruct (match g with Some x => IndexFactory.ret x | None => IndexFactory.defaultGraph end f)
    as [ru f1] eqn:E1.
  assert (H1 : IndexFactory.literalMap f1 = IndexFactory.literalMap f).
  { destruct g as [x|]; [injection E1 as <- <-; reflexivity |].
    pose proof (lit_namedNode_str "rdf:defaultGraph" f) as H.
    unfold IndexFactory.defaultGraph in E1. rewrite E1 in H. exact H. }
  destruct ru as [u|e| |]; try exact H1.
  destruct (IndexFactory.quadMapId s p o g f1) as [r2 f2] eqn:E2.
  pose proof (lit_bumped _ _ _ _ (IndexFacts.index_bumps_quadMapId s p o g) E2) as H2.
  destruct r2 as [key|e| |]; simpl; try congruence.
  unfold IndexFactory.quad_tail.
  destruct (IndexFactory.quadMap f2 !! key); simpl; congruence.
Qed.

Lemma literals_keyed_literal v lod f :
  literals_keyed f -> literals_keyed (snd (IndexFactory.literal v lod f)).
Proof.
  intros Hk. rewrite IndexFacts.index_literal_eq. unfold IndexFactory.bind.
  destruct (IndexFactory.literal_datatype lod f) as [rd f1] eqn:E1.
  assert (H1 : IndexFactory.literalMap f1 = IndexFactory.literalMap f).
  { unfold IndexFactory.literal_datatype in E1. destruct lod as [|l|d].
    - pose proof (lit_namedNode_str datatypes.string f) as H. rewrite E1 in H. exact H.
    - pose proof (lit_namedNode_str datatypes.langString f) as H. rewrite E1 in H. exact H.
    - injection E1 as <- <-. reflexivity. }
  assert (Hk1 : literals_keyed f1) by (intros key t; rewrite H1; apply Hk).
  destruct rd as [d|e| |]; try exact Hk1.
  unfold IndexFactory.literal_tail.
  destruct (IndexFactory.literalMap f1 !! _) eqn:E; [exact Hk1 |].
  intros key t. simpl.
  match goal with
  | |- <[?k := _]> _ !! _ = _ -> _ => destruct (decide (key = k)) as [->|Hne]
  end.
  - rewrite lookup_insert_eq. intros [= <-]. simpl. eauto.
  - rewrite lookup_insert_ne by congruence. apply Hk1.
Qed.

Lemma reachable_literals_keyed f : IndexFactory.reachable f -> literals_keyed f.
Proof.
  induction 1 as [bn | v f Hr IH | v f Hr IH | v lod f Hr IH | s p o g f Hr IH
                 | v f Hr IH | a b f Hr IH].
  - intros key t. simpl. rewrite lookup_empty. discriminate.
  - intros key t. unfold IndexFactory.blankNode.
    destruct (_ && _); [apply IH |].
    destruct (if truthy v then v else JUndefined); rewrite lit_blankNode_str; apply IH.
  - intros key t. destruct v; try apply IH. simpl. rewrite lit_namedNode_str. apply IH.
  - apply literals_keyed_literal, IH.
  - intros key t. rewrite lit_quad by (apply IndexFacts.index_reachable_wf, Hr). apply IH.
  - intros key t. destruct (IndexFactory.id v f) as [r f'] eqn:E. simpl.
    rewrite (lit_bumped _ _ _ _ (IndexFacts.index_bumps_id v) E). apply IH.
  - intros key t. destruct (IndexFactory.equals a b f) as [r f'] eqn:E. simpl.
    rewrite (lit_bumped _ _ _ _ (IndexFacts.index_bumps_equals a b) E). apply IH.
Qed.

(** In a reachable index factory [literal] on strings without commas
    returns a literal of the asked shape, whether it is new or was
    stored. *)
Lemma index_literal_shape v lod f :
  IndexFactory.reachable f ->
  has_comma v = false -> has_comma (languageOf lod) = false ->
  (forall d, lod = Datatype d -> has_comma (obj_value d) = false) ->
  exists t f', IndexFactory.literal v lod f = (Ok t, f') /\ literalShape lod v t.
Proof.
  intros Hr Hv Hl Hd.
  pose proof (IndexFacts.index_reachable_wf f Hr) as Hwf.
  pose proof (IndexMore.more_reachable_keyed f Hr) as Hk.
  pose proof (reachable_literals_keyed f Hr) as Hlk.
  rewrite IndexFacts.index_literal_eq. unfold IndexFactory.bind.
  assert (Hdt : exists d f1,
            IndexFactory.literal_datatype lod f = (Ok d, f1) /\
            IndexFactory.literalMap f1 = IndexFactory.literalMap f /\
            has_comma (obj_value d) = false /\
            (forall iri, datatypeIRI lod = Some iri -> obj_value d = iri) /\
            (forall d0, lod = Datatype d0 -> d = d0)).
  { unfold IndexFactory.literal_datatype. destruct lod as [|l|d0].
    - destruct (IndexMore.more_namedNode_spec datatypes.string f eq_refl Hwf Hk)
        as (d & f1 & E & _ & (_ & Hval & _) & _ & _ & _ & Hlit & _).
      exists d, f1. split; [exact E |]. split; [exact Hlit |].
      split; [rewrite Hval; reflexivity |].
      split; [intros iri [= <-]; exact Hval | discriminate].
    - destruct (IndexMore.more_namedNode_spec datatypes.langString f eq_refl Hwf Hk)
        as (d & f1 & E & _ & (_ & Hval & _) & _ & _ & _ & Hlit & _).
      exists d, f1. split; [exact E |]. split; [exact Hlit |].
      split; [rewrite Hval; reflexivity |].
      split; [intros iri [= <-]; exact Hval | discriminate].
    - exists d0, f. split; [reflexivity |]. split; [reflexivity |].
      split; [apply Hd; reflexivity |].
      split; [discriminate | intros d1 [= <-]; reflexivity]. }
  destruct Hdt as (d & f1 & -> & Hlit & Hdc & Hiri & Hd0).
  unfold IndexFactory.literal_tail.
  destruct (IndexFactory.literalMap f1 !! _) as [t|] eqn:E.
  - exists t, f1. split; [reflexivity |].
    rewrite Hlit in E. destruct (Hlk _ _ E) as (Hty & d' & Hd' & Hkey).
    apply literalKey_inj in Hkey as (Hv' & Hl' & Hdv); try assumption.
    split; [exact Hty |]. split; [congruence |].
    destruct lod as [|l|d0]; simpl in *.
    + split; [congruence |]. exists d'. split; [exact Hd' |].
      rewrite <- Hdv. apply Hiri. reflexivity.
    + split; [congruence |]. exists d'. split; [exact Hd' |].
      rewrite <- Hdv. apply Hiri. reflexivity.
    + split; [congruence |]. exists d'. split; [exact Hd' |].
      rewrite <- Hdv, (Hd0 d0 eq_refl). reflexivity.
  - eexists _, _. split; [reflexivity |].
    apply literalShape_new; assumption.
Qed.


(** C4, as the code has it. [literal] on a string [v] gives a Literal with
    value [v] and: language [""] and datatype [xsd:string] when there is no
    second argument; the given language and datatype [rdf:langString] when
    the second argument is a string, the empty string included; language
    [""] and a datatype of the given IRI when it is a datatype node.
    In the index factory this holds of every call, on a new and on a stored
    literal alike, in every factory a program can get to, when neither [v]
    nor the language nor the IRI of a datatype passed has a comma.
    In the hash factory [literal] returns the term that the store holds
    under the identity of the literal, and when there is none a new literal
    of this shape, over the datatype node passed or the node that the
    store holds under the identity of the IRI or a new named node for the
    IRI; so the returned term has the shape whenever the terms the store
    holds under these two identities have it. *)
Theorem literal_defaulting (murmur3 : string -> Z -> Z) :
  (forall v lod f,
     IndexFactory.reachable f ->
     has_comma v = false -> has_comma (languageOf lod) = false ->
     (forall d, lod = Datatype d -> has_comma (obj_value d) = false) ->
     exists t f', IndexFactory.literal v lod f = (Ok t, f') /\ literalShape lod v t) /\
  (forall v lod f t f',
     HashFactory.literal murmur3 v lod f = (t, f') ->
     exists d f1,
       HashFactory.literal_datatype murmur3 lod f = (d, f1) /\
       datatypeNode murmur3 f lod d /\
       (HashFactory.memoizationMap f1
          !! HashFactory.id_obj murmur3 (HashFactory.seedBase f)
               (describeLiteral v d (languageOf lod)) = Some t
        \/ (HashFactory.memoizationMap f1
              !! HashFactory.id_obj murmur3 (HashFactory.seedBase f)
                   (describeLiteral v d (languageOf lod)) = None /\
            newLiteral v lod d t))) /\
  (forall v lod f t f',
     HashFactory.literal murmur3 v lod f = (t, f') ->
     (forall iri u,
        datatypeIRI lod = Some iri ->
        HashFactory.memoizationMap f !! murmur3 iri (HashFactory.seedBase f + 2) = Some u ->
        obj_value u = iri) ->
     (forall d f1 u,
        HashFactory.literal_datatype murmur3 lod f = (d, f1) ->
        HashFactory.memoizationMap f1
          !! HashFactory.id_obj murmur3 (HashFactory.seedBase f)
               (describeLiteral v d (languageOf lod)) = Some u ->
        literalShape lod v u) ->
     literalShape lod v t).
Proof.
  assert (Hash : forall v lod f t f',
     HashFactory.literal murmur3 v lod f = (t, f') ->
     exists d f1,
       HashFactory.literal_datatype murmur3 lod f = (d, f1) /\
       datatypeNode murmur3 f lod d /\
       (HashFactory.memoizationMap f1
          !! HashFactory.id_obj murmur3 (HashFactory.seedBase f)
               (describeLiteral v d (languageOf lod)) = Some t
        \/ (HashFactory.memoizationMap f1
              !! HashFactory.id_obj murmur3 (HashFactory.seedBase f)
                   (describeLiteral v d (languageOf lod)) = None /\
            newLiteral v lod d t))).
  { intros v lod f t f'. unfold HashFactory.literal.
    destruct (HashFactory.literal_datatype murmur3 lod f) as [d f1] eqn:Ed.
    assert (Hd : datatypeNode murmur3 f lod d /\ HashFactory.seedBase f1 = HashFactory.seedBase f).
    { assert (Node : forall iri,
                HashFactory.namedNode_str murmur3 iri f = (d, f1) ->
                (HashFactory.memoizationMap f
                   !! murmur3 iri (HashFactory.seedBase f + 2) = Some d
                 \/ (HashFactory.memoizationMap f
                       !! murmur3 iri (HashFactory.seedBase f + 2) = None
                     /\ obj_termType d = Some "NamedNode" /\ obj_value d = iri))
                /\ HashFactory.seedBase f1 = HashFactory.seedBase f).
      { intros iri E. unfold HashFactory.namedNode_str, HashFactory.intern in E.
        rewrite HashFacts.hash_id_describe_named in E.
        destruct (HashFactory.memoizationMap f !! _) as [u|] eqn:Eu.
        - injection E as <- <-. auto.
        - injection E as <- <-. simpl. auto. }
      unfold HashFactory.literal_datatype in Ed. destruct lod as [|l|d0]; simpl.
      - destruct (Node _ Ed) as [N S]. split; [| exact S]. exists datatypes.string. auto.
      - destruct (Node _ Ed) as [N S]. split; [| exact S]. exists datatypes.langString. auto.
      - injection Ed as <- <-. auto. }
    destruct Hd as [Hd Hs]. rewrite Hs.
    unfold HashFactory.intern.
    destruct (HashFactory.memoizationMap f1 !! _) as [u|] eqn:Eu.
    - intros [= <- <-]. exists d, f1. auto.
    - intros [= <- <-]. exists d, f1. split; [reflexivity |]. split; [exact Hd |].
      right. split; [exact Eu |]. repeat split. }
  split; [| split].
  - intros v lod f Hr Hv Hl Hd. apply index_literal_shape; assumption.
  - exact Hash.
  - intros v lod f t f' E Hiri Hhit.
    destruct (Hash v lod f t f' E) as (d & f1 & Ed & Hd & [Hit | [_ New]]).
    + eapply Hhit; eauto.
    + destruct New as (Hty & Hval & Hlang & Hdt).
      split; [exact Hty |]. split; [exact Hval |].
      unfold datatypeNode in Hd.
      destruct lod as [|l|d0]; simpl in *.
      * split; [exact Hlang |]. exists d. split; [exact Hdt |].
        destruct Hd as (iri & [= <-] & [Old | (_ & _ & V)]); [eapply Hiri; eauto | exact V].
      * split; [exact Hlang |]. exists d. split; [exact Hdt |].
        destruct Hd as (iri & [= <-] & [Old | (_ & _ & V)]); [eapply Hiri; eauto | exact V].
      * split; [exact Hlang |]. exists d. subst d0. auto.
Qed.


(** C4 fails as stated. An empty language string still makes the datatype
    [rdf:langString], in both factories. And the returned term is whatever
    the store holds under the key or the identity. In the index factory the
    literal ["a"] with a datatype whose IRI starts with ["b,,"] has the
    content key of the plain literal ["a,,b"], which then is not given value
    ["a,,b"] and datatype [xsd:string]. In the hash factory, with a hash
    under which ["ab"] and ["cd"] collide, [literal "cd"] after
    [literal "ab"] returns the literal ["ab"]. *)
Lemma literal_defaulting_fails :
  (exists t f' d,
     IndexFactory.literal "x" (Language "") index0 = (Ok t, f') /\
     obj_language t = "" /\ obj_datatype t = Some d /\
     obj_value d = "http://www.w3.org/1999/02/22-rdf-syntax-ns#langString") /\
  (exists t f' d,
     HashFactory.literal lengthHash "x" (Language "") hash0 = (t, f') /\
     obj_language t = "" /\ obj_datatype t = Some d /\
     obj_value d = "http://www.w3.org/1999/02/22-rdf-syntax-ns#langString") /\
  (exists t1 f1 t2 f2,
     IndexFactory.literal "a" (Datatype oddDatatype) index0 = (Ok t1, f1) /\
     IndexFactory.literal "a,,b" Omitted f1 = (Ok t2, f2) /\
     obj_value t2 = "a" /\ ~ literalShape Omitted "a,,b" t2) /\
  (exists t1 f1 t2 f2,
     HashFactory.literal lengthHash "ab" Omitted hash0 = (t1, f1) /\
     HashFactory.literal lengthHash "cd" Omitted f1 = (t2, f2) /\
     lengthHash "ab" 4 = lengthHash "cd" 4 /\
     obj_value t2 = "ab" /\ ~ literalShape Omitted "cd" t2).
Proof.
  split; [| split; [| split]].
  - eexists _, _, _. split; [vm_compute; reflexivity |].
    repeat split.
  - eexists _, _, _. split; [vm_compute; reflexivity |].
    repeat split.
  - eexists _, _, _, _. split; [vm_compute; reflexivity |].
    split; [vm_compute; reflexivity |].
    split; [reflexivity |].
    intros (_ & Hv & _). simpl in Hv. discriminate.
  - eexists _, _, _, _. split; [vm_compute; reflexivity |].
    split; [vm_compute; reflexivity |].
    split; [reflexivity |]. split; [reflexivity |].
    intros (_ & Hv & _). simpl in Hv. discriminate.
Qed.


Lemma literal_defaulting_witness :
  (exists t f', IndexFactory.literal "x" (Language "en") index0 = (Ok t, f') /\
                literalShape (Language "en") "x" t) /\
  (exists t1 f1 t2 f2,
     IndexFactory.literal "x" Omitted index0 = (Ok t1, f1) /\
     IndexFactory.literal "x" Omitted f1 = (Ok t2, f2) /\
     literalShape Omitted "x" t2).
Proof.
  destruct (literal_defaulting lengthHash) as [H _].
  split.
  - apply (H "x" (Language "en") index0).
    + apply IndexFactory.reach_create.
    + reflexivity.
    + reflexivity.
    + discriminate.
  - destruct (IndexFactory.literal "x" Omitted index0) as [r1 f1] eqn:E1.
    assert (Hr : IndexFactory.reachable f1).
    { change f1 with (snd (r1, f1)). rewrite <- E1.
      apply IndexFactory.reach_literal, IndexFactory.reach_create. }
    destruct (H "x" Omitted f1 Hr eq_refl eq_refl) as (t2 & f2 & E2 & S2);
      [discriminate |].
    pose proof E1 as E1'. vm_compute in E1'.
    destruct r1 as [t1| | |]; try discriminate.
    exists t1, f1, t2, f2. auto.
Defined.


(** ** Errors on bad input *)

(** C7, as the code has it. [namedNode] on a value that is not a string,
    and [blankNode] on a truthy value that is not a string, throw the
    [TypeError] of [createException] and leave the factory as it was, in the
    hash factory and in the index factory; the copy of the hash factory that
    gates its checks does so whenever [NODE_ENV] is not ["development"]. *)
Theorem bad_input_throws (murmur3 : string -> Z -> Z) :
  (forall v f, is_string v = false ->
     HashFactory.namedNode murmur3 v f = (Throw (TypeError "NamedNode" v), f)) /\
  (forall v f, is_string v = false ->
     IndexFactory.namedNode v f = (Throw (TypeError "NamedNode" v), f)) /\
  (forall v f, truthy v = true -> is_string v = false ->
     HashFactory.blankNode murmur3 v f = (Throw (TypeError "BlankNode" v), f)) /\
  (forall v f, truthy v = true -> is_string v = false ->
     IndexFactory.blankNode v f = (Throw (TypeError "BlankNode" v), f)) /\
  (forall env v f, env <> "development" -> is_string v = false ->
     HashFactory.namedNode_gated murmur3 env v f
       = (Throw (TypeError "NamedNode" v), f)) /\
  (forall env v f, env <> "development" -> truthy v = true -> is_string v = false ->
     HashFactory.blankNode_gated murmur3 env v f
       = (Throw (TypeError "BlankNode" v), f)).
Proof.
  repeat split.
  - intros v f Hs. unfold HashFactory.namedNode, HashFactory.namedNode_with.
    rewrite Hs. reflexivity.
  - intros v f Hs. destruct v; try reflexivity. discriminate.
  - intros v f Ht Hs. unfold HashFactory.blankNode, HashFactory.blankNode_with.
    rewrite Ht, Hs. reflexivity.
  - intros v f Ht Hs. unfold IndexFactory.blankNode. rewrite Ht, Hs. reflexivity.
  - intros env v f He Hs.
    unfold HashFactory.namedNode_gated, HashFactory.namedNode_with.
    destruct (String.eqb_spec env "development"); [contradiction |].
    rewrite Hs. reflexivity.
  - intros env v f He Ht Hs.
    unfold HashFactory.blankNode_gated, HashFactory.blankNode_with.
    destruct (String.eqb_spec env "development"); [contradiction |].
    rewrite Ht, Hs. reflexivity.
Qed.

(** C7 fails as stated: [0] is a supplied value that is no string, yet
    [blankNode] takes it for a missing one, names the node itself and stores
    it; and under [NODE_ENV = "development"] the gated copy skips the check
    and goes on with [42]. *)
Lemma bad_input_not_always_thrown :
  (exists t f',
     IndexFactory.blankNode (JNum 0) index0 = (Ok t, f') /\
     obj_value t = "_:b2" /\ IndexFactory.fromId 1 f' = Some t /\ f' <> index0) /\
  (exists t f',
     HashFactory.blankNode lengthHash (JNum 0) hash0 = (Ok t, f') /\
     obj_value t = "b1" /\ f' <> hash0) /\
  (forall murmur3 f,
     HashFactory.namedNode_gated murmur3 "development" (JNum 42) f = (IllTyped, f) /\
     HashFactory.blankNode_gated murmur3 "development" (JNum 42) f = (IllTyped, f)).
Proof.
  split; [| split].
  - eexists _, _. split; [vm_compute; reflexivity |].
    split; [reflexivity |]. split; [vm_compute; reflexivity |].
    intros H. apply (f_equal IndexFactory.index) in H. vm_compute in H. discriminate.
  - eexists _, _. split; [vm_compute; reflexivity |].
    split; [reflexivity |].
    intros H. apply (f_equal HashFactory.bnIndex) in H. vm_compute in H. discriminate.
  - intros murmur3 f. split; reflexivity.
Qed.

Lemma bad_input_throws_witness :
  is_string (JNum 42) = false /\
  HashFactory.namedNode lengthHash (JNum 42) hash0
    = (Throw (TypeError "NamedNode" (JNum 42)), hash0).
Proof.
  split; [reflexivity |].
  destruct (bad_input_throws lengthHash) as (H & _).
  apply H. reflexivity.
Defined.

(** ** [id] returns, and its sentinel *)

Lemma hash_id_unknown_kind murmur3 seed t :
  truthy_id (obj_id t) = None -> isQuad t = false ->
  known_kind (obj_termType t) = false ->
  HashFactory.id_obj murmur3 seed t = -1.
Proof.
  destruct t as [r i k v l d s p o g]. unfold isQuad, known_kind. simpl.
  intros -> Hs Hk. destruct s; [discriminate |].
  destruct k as [kind|]; [| reflexivity].
  rewrite !orb_false_iff in Hk. destruct Hk as [[-> ->] ->]. reflexivity.
Qed.

Lemma index_id_unknown_kind t f :
  truthy_id (obj_id t) = None -> isQuad t = false ->
  known_kind (obj_termType t) = false ->
  IndexFactory.id_obj t f = (Ok (-1), f).
Proof.
  destruct t as [r i k v l d s p o g]. unfold isQuad, known_kind. simpl.
  intros -> Hs Hk. destruct s; [discriminate |].
  destruct k as [kind|]; [| reflexivity].
  rewrite !orb_false_iff in Hk. destruct Hk as [[Hb Hn] Hl].
  unfold IndexFactory.bind, IndexFactory.kindMap, isQuad. simpl.
  rewrite Hb, Hn, Hl. reflexivity.
Qed.

(** C8, as the code has it. On an array, on [undefined] and on an object the
    [id] of the hash factory returns a number, and so does the [id] of the
    index factory in a well-formed factory when the literals in the object
    have their datatype and no blank or named node in it has the name of a
    member of [Object.prototype] as its value. On [null] both throw.
    Both return [-1], and leave the factory alone, for an array, for
    [undefined], and for an object that carries no identity, is no quad and
    bears none of the three kind tags; and both return the identity of an
    object that carries one (a non-zero [id]). *)
Theorem id_returns_and_sentinel (murmur3 : string -> Z -> Z) :
  (forall v f, is_term_arg v = true -> exists n, HashFactory.id murmur3 v f = Ok n) /\
  (forall v f,
     is_term_arg v = true ->
     (forall t, v = JObj t -> well_typed t = true /\ prototype_free t = true) ->
     IndexFactory.wf f ->
     exists n f', IndexFactory.id v f = (Ok n, f')) /\
  (forall xs f f',
     HashFactory.id murmur3 (JArr xs) f = Ok (-1) /\
     HashFactory.id murmur3 JUndefined f = Ok (-1) /\
     IndexFactory.id (JArr xs) f' = (Ok (-1), f') /\
     IndexFactory.id JUndefined f' = (Ok (-1), f')) /\
  (forall t f f',
     truthy_id (obj_id t) = None -> isQuad t = false ->
     known_kind (obj_termType t) = false ->
     HashFactory.id murmur3 (JObj t) f = Ok (-1) /\
     IndexFactory.id (JObj t) f' = (Ok (-1), f')) /\
  (forall t n f f',
     truthy_id (obj_id t) = Some n ->
     HashFactory.id murmur3 (JObj t) f = Ok n /\
     IndexFactory.id (JObj t) f' = (Ok n, f')) /\
  (forall f f',
     HashFactory.id murmur3 JNull f = Throw (TypeErrorRead "id") /\
     IndexFactory.id JNull f' = (Throw (TypeErrorRead "id"), f')).
Proof.
  split; [| split; [| split; [| split; [| split]]]].
  - intros v f Hv. destruct v; try discriminate; simpl; eauto.
  - intros v f Hv Hwt Hwf.
    destruct v; try discriminate; simpl; unfold IndexFactory.ret; eauto.
    destruct (Hwt o eq_refl). apply IndexFacts.index_id_obj_returns; auto.
  - intros xs f f'. repeat split.
  - intros t f f' Hi Hq Hk. split.
    + simpl. rewrite hash_id_unknown_kind; auto.
    + simpl. apply index_id_unknown_kind; auto.
  - intros t n f f' Hi. split.
    + destruct t. simpl in *. rewrite Hi. reflexivity.
    + simpl. apply IndexFacts.index_id_obj_stamped. exact Hi.
  - intros f f'. split; reflexivity.
Qed.


(** C8 fails as stated: [id] throws on [null], and in the index factory on a
    literal description without datatype; in the index factory [id] on the
    description of a named node called ["constructor"] finds the member of
    [Object.prototype] of that name in the empty table and returns its [id],
    which is [undefined] and no number; an object of an unknown kind that
    carries an identity gets that identity and not [-1]; and an [id] field
    of [0] counts as no identity. *)
Lemma id_throws_on_null :
  HashFactory.id lengthHash JNull hash0 = Throw (TypeErrorRead "id") /\
  IndexFactory.id JNull index0 = (Throw (TypeErrorRead "id"), index0) /\
  IndexFactory.id (JObj (describeNode "Literal" "x")) index0
    = (Throw (TypeErrorRead "value"), index0) /\
  IndexFactory.at_key (IndexFactory.namedNodeMap index0) (Some "constructor")
    = FromPrototype "constructor" /\
  IndexFactory.id (JObj (describeNode "NamedNode" "constructor")) index0
    = (IllTyped, index0) /\
  HashFactory.id lengthHash
    (JObj (Obj 0 (Some 7) (Some "Variable") "x" "" None None None None None)) hash0
    = Ok 7 /\
  fst (IndexFactory.id
         (JObj (Obj 0 (Some 0) (Some "NamedNode") "a" "" None None None None None))
         index0)
    = Ok 1.
Proof. repeat split. Qed.


Lemma id_returns_and_sentinel_witness :
  is_term_arg (JObj node1) = true /\ IndexFactory.wf index0 /\
  exists n f', IndexFactory.id (JObj node1) index0 = (Ok n, f').
Proof.
  split; [reflexivity |]. split; [apply IndexFacts.index_wf_create |].
  destruct (id_returns_and_sentinel lengthHash) as (_ & H & _).
  apply H.
  - reflexivity.
  - intros t [= <-]. split; reflexivity.
  - apply IndexFacts.index_wf_create.
Defined.


(** ** Identities in the hash factory are computed from the content *)

(** C5. In the hash factory the identity of a NamedNode description is
    [murmur3 value (seedBase + 2)] and that of a BlankNode description is
    [murmur3 value (seedBase + 1)]; [id] depends on the factory through its
    [seedBase] alone, so two calls on the same argument agree; and in a
    consistent store with [seedBase = 0] two calls of [namedNode] on
    ["http://ex.org/a"] return the same instance, whose [id] is
    [murmur3 "http://ex.org/a" 2]. *)
Theorem hash_identity_from_content (murmur3 : string -> Z -> Z) :
  (forall t f,
     truthy_id (obj_id t) = None -> isQuad t = false ->
     (obj_termType t = Some "NamedNode" ->
      HashFactory.id murmur3 (JObj t) f
        = Ok (murmur3 (obj_value t) (HashFactory.seedBase f + 2))) /\
     (obj_termType t = Some "BlankNode" ->
      HashFactory.id murmur3 (JObj t) f
        = Ok (murmur3 (obj_value t) (HashFactory.seedBase f + 1)))) /\
  (forall v f f',
     HashFactory.seedBase f = HashFactory.seedBase f' ->
     HashFactory.id murmur3 v f = HashFactory.id murmur3 v f') /\
  (forall f,
     HashFactory.consistent murmur3 f -> HashFactory.seedBase f = 0 ->
     exists t f1,
       HashFactory.namedNode murmur3 (JStr "http://ex.org/a") f = (Ok t, f1) /\
       HashFactory.namedNode murmur3 (JStr "http://ex.org/a") f1 = (Ok t, f1) /\
       HashFactory.id murmur3 (JObj t) f1 = Ok (murmur3 "http://ex.org/a" 2)).
Proof.
  split; [| split].
  - intros [r i k v l d s p o g] f. unfold isQuad. simpl.
    intros -> Hs. destruct s; [discriminate |].
    split; intros [= ->]; reflexivity.
  - intros v f f' Hs. destruct v; simpl; rewrite ?Hs; reflexivity.
  - intros f Hc Hs.
    destruct (HashFactory.namedNode_str murmur3 "http://ex.org/a" f) as [t f1] eqn:E.
    pose proof (HashFacts.hash_namedNode_str_repeats murmur3 "http://ex.org/a" f) as R.
    unfold repeats in R. rewrite E in R. simpl in R.
    pose proof (HashFacts.hash_namedNode_str_spec murmur3 _ _ _ _ E) as (_ & Hs1 & _).
    pose proof (HashFacts.hash_namedNode_str_consistent murmur3 _ _ _ _ Hc E)
      as (_ & _ & Hid).
    exists t, f1.
    unfold HashFactory.namedNode, HashFactory.namedNode_with. simpl.
    rewrite E, R. split; [reflexivity |]. split; [reflexivity |].
    rewrite Hs1, Hid, Hs. reflexivity.
Qed.

Lemma hash_identity_from_content_witness :
  HashFactory.consistent lengthHash hash0 /\ HashFactory.seedBase hash0 = 0 /\
  exists t f1,
    HashFactory.namedNode lengthHash (JStr "http://ex.org/a") hash0 = (Ok t, f1) /\
    HashFactory.namedNode lengthHash (JStr "http://ex.org/a") f1 = (Ok t, f1) /\
    HashFactory.id lengthHash (JObj t) f1 = Ok (lengthHash "http://ex.org/a" 2).
Proof.
  split; [apply HashFacts.hash_consistent_create |]. split; [reflexivity |].
  destruct (hash_identity_from_content lengthHash) as (_ & _ & H).
  apply H; [apply HashFacts.hash_consistent_create | reflexivity].
Defined.

(** ** Equality of tuples *)

Lemma index_same_id_settled f a b n m :
  settled f a n -> settled f b m ->
  IndexFactory.same_id a b f = (Ok (n =? m), f).
Proof.
  unfold settled, IndexFactory.same_id, IndexFactory.bind.
  intros -> ->. reflexivity.
Qed.

Lemma index_and_then_settled (l r : IndexFactory.M bool) f b :
  l f = (Ok b, f) ->
  IndexFactory.and_then l r f = if b then r f else (Ok false, f).
Proof.
  unfold IndexFactory.and_then, IndexFactory.bind. intros ->.
  destruct b; reflexivity.
Qed.

Lemma hash_same_id_ok murmur3 f a b n m :
  HashFactory.id murmur3 a f = Ok n -> HashFactory.id murmur3 b f = Ok m ->
  HashFactory.same_id murmur3 a b f = Ok (n =? m).
Proof. unfold HashFactory.same_id. intros -> ->. reflexivity. Qed.

(** In the index factory [id] may move the identity counter, so the eight
    calls are chained through the factory. *)
Lemma index_equals_chain f f' a0 a1 a2 a3 b0 b1 b2 b3 :
  IndexFactory.equals (JArr [a0; a1; a2; a3]) (JArr [b0; b1; b2; b3]) f = (Ok true, f')
  <->
  exists n0 n1 n2 n3 f1 f2 f3 f4 f5 f6 f7,
    IndexFactory.id a0 f = (Ok n0, f1) /\ IndexFactory.id b0 f1 = (Ok n0, f2) /\
    IndexFactory.id a1 f2 = (Ok n1, f3) /\ IndexFactory.id b1 f3 = (Ok n1, f4) /\
    IndexFactory.id a2 f4 = (Ok n2, f5) /\ IndexFactory.id b2 f5 = (Ok n2, f6) /\
    IndexFactory.id a3 f6 = (Ok n3, f7) /\ IndexFactory.id b3 f7 = (Ok n3, f').
Proof.
  unfold IndexFactory.equals. cbn [truthy negb orb nth].
  unfold IndexFactory.and_then, IndexFactory.same_id, IndexFactory.bind, IndexFactory.ret.
  split.
  - repeat match goal with
    | |- context [IndexFactory.id ?x ?g] =>
      destruct (IndexFactory.id x g) as [[?|?| |?] ?] eqn:?; try discriminate
    | |- context [?x =? ?y] => destruct (Z.eqb_spec x y); try discriminate; subst
    end.
    intros [= <-]. repeat eexists; eauto.
  - intros (n0 & n1 & n2 & n3 & f1 & f2 & f3 & f4 & f5 & f6 & f7 &
            E0 & E1 & E2 & E3 & E4 & E5 & E6 & E7).
    rewrite E0, E1, Z.eqb_refl, E2, E3, Z.eqb_refl, E4, E5, Z.eqb_refl, E6, E7, Z.eqb_refl.
    reflexivity.
Qed.

(** C6. [equals] on two arrays of four compares the identities that [id]
    gives for the elements, position by position: the result is [true]
    exactly when the four pairs of identities agree. In the hash factory
    this holds for all elements that have an [id]; in the index factory for
    elements whose identity is settled, and the factory is left as it was;
    for arbitrary elements the index factory answers [true] exactly when
    the eight calls of [id], run in turn, give equal identities pair by
    pair. *)
Theorem equals_tuples (murmur3 : string -> Z -> Z) :
  (forall f a0 a1 a2 a3 b0 b1 b2 b3 n0 n1 n2 n3 m0 m1 m2 m3,
     HashFactory.id murmur3 a0 f = Ok n0 -> HashFactory.id murmur3 b0 f = Ok m0 ->
     HashFactory.id murmur3 a1 f = Ok n1 -> HashFactory.id murmur3 b1 f = Ok m1 ->
     HashFactory.id murmur3 a2 f = Ok n2 -> HashFactory.id murmur3 b2 f = Ok m2 ->
     HashFactory.id murmur3 a3 f = Ok n3 -> HashFactory.id murmur3 b3 f = Ok m3 ->
     exists r,
       HashFactory.equals murmur3 (JArr [a0; a1; a2; a3]) (JArr [b0; b1; b2; b3]) f
         = Ok r /\
       (r = true <-> n0 = m0 /\ n1 = m1 /\ n2 = m2 /\ n3 = m3)) /\
  (forall f a0 a1 a2 a3 b0 b1 b2 b3 n0 n1 n2 n3 m0 m1 m2 m3,
     settled f a0 n0 -> settled f b0 m0 ->
     settled f a1 n1 -> settled f b1 m1 ->
     settled f a2 n2 -> settled f b2 m2 ->
     settled f a3 n3 -> settled f b3 m3 ->
     exists r,
       IndexFactory.equals (JArr [a0; a1; a2; a3]) (JArr [b0; b1; b2; b3]) f
         = (Ok r, f) /\
       (r = true <-> n0 = m0 /\ n1 = m1 /\ n2 = m2 /\ n3 = m3)) /\
  (forall f f' a0 a1 a2 a3 b0 b1 b2 b3,
     IndexFactory.equals (JArr [a0; a1; a2; a3]) (JArr [b0; b1; b2; b3]) f
       = (Ok true, f')
     <->
     exists n0 n1 n2 n3 f1 f2 f3 f4 f5 f6 f7,
       IndexFactory.id a0 f = (Ok n0, f1) /\ IndexFactory.id b0 f1 = (Ok n0, f2) /\
       IndexFactory.id a1 f2 = (Ok n1, f3) /\ IndexFactory.id b1 f3 = (Ok n1, f4) /\
       IndexFactory.id a2 f4 = (Ok n2, f5) /\ IndexFactory.id b2 f5 = (Ok n2, f6) /\
       IndexFactory.id a3 f6 = (Ok n3, f7) /\ IndexFactory.id b3 f7 = (Ok n3, f')).
Proof.
  split; [| split; [| intros; apply index_equals_chain]].
  - intros f a0 a1 a2 a3 b0 b1 b2 b3 n0 n1 n2 n3 m0 m1 m2 m3
           A0 B0 A1 B1 A2 B2 A3 B3.
    exists ((n0 =? m0) && (n1 =? m1) && (n2 =? m2) && (n3 =? m3))%bool.
    split.
    + unfold HashFactory.equals. cbn [truthy negb orb nth].
      rewrite (hash_same_id_ok _ _ _ _ _ _ A0 B0), (hash_same_id_ok _ _ _ _ _ _ A1 B1),
              (hash_same_id_ok _ _ _ _ _ _ A2 B2), (hash_same_id_ok _ _ _ _ _ _ A3 B3).
      destruct (n0 =? m0), (n1 =? m1), (n2 =? m2); reflexivity.
    + rewrite !andb_true_iff, !Z.eqb_eq. tauto.
  - intros f a0 a1 a2 a3 b0 b1 b2 b3 n0 n1 n2 n3 m0 m1 m2 m3
           A0 B0 A1 B1 A2 B2 A3 B3.
    exists ((n0 =? m0) && (n1 =? m1) && (n2 =? m2) && (n3 =? m3))%bool.
    split.
    + unfold IndexFactory.equals. cbn [truthy negb orb nth].
      rewrite (index_and_then_settled _ _ f _ (index_same_id_settled _ _ _ _ _ A0 B0)).
      destruct (n0 =? m0); [| reflexivity].
      rewrite (index_and_then_settled _ _ f _ (index_same_id_settled _ _ _ _ _ A1 B1)).
      destruct (n1 =? m1); [| reflexivity].
      rewrite (index_and_then_settled _ _ f _ (index_same_id_settled _ _ _ _ _ A2 B2)).
      destruct (n2 =? m2); [| reflexivity].
      rewrite (index_same_id_settled _ _ _ _ _ A3 B3). reflexivity.
    + rewrite !andb_true_iff, !Z.eqb_eq. tauto.
Qed.

Lemma equals_tuples_witness :
  exists r,
    IndexFactory.equals (JArr [JObj node1; JObj node2; JObj node3; JObj node4])
                        (JArr [JObj node1; JObj node2; JObj node3; JObj node1]) index0
      = (Ok r, index0) /\
    (r = true <-> 1 = 1 /\ 2 = 2 /\ 3 = 3 /\ 4 = 1).
Proof.
  destruct (equals_tuples lengthHash) as (_ & H & _).
  apply H; reflexivity.
Defined.

(** ** From a term to its identity and back *)






(** ** [id] on a description that is not interned *)

Lemma index_id_obj_miss t f key f1 :
  IndexFactory.wf f -> truthy_id (obj_id t) = None -> misses t f key f1 ->
  IndexFactory.id_obj t f
    = (Ok (IndexFactory.index f1), IndexFactory.with_index f (IndexFactory.index f1 + 1)) /\
  IndexFactory.index f <= IndexFactory.index f1 /\
  IndexFactory.fromId (IndexFactory.index f1)
    (IndexFactory.with_index f (IndexFactory.index f1 + 1)) = None.
Proof.
  intros Hwf Hi (Hm & table & Hk & Hmiss).
  pose proof (IndexFacts.index_bumps_mapId t f _ _ Hm) as [E L].
  split; [| split; [exact L |]].
  - rewrite IndexFacts.index_id_obj_eq, Hi. unfold IndexFactory.bind.
    rewrite Hm, Hk, Hmiss. unfold IndexFactory.id_or_next, IndexFactory.next_index.
    clear Hm Hk. remember (IndexFactory.index f1) as m eqn:Em.
    subst f1. reflexivity.
  - unfold IndexFactory.fromId. simpl.
    destruct (IndexFactory.memoizationMap f !! IndexFactory.index f1) as [u|] eqn:Eu;
      [| reflexivity].
    destruct Hwf as (_ & Hmemo & _). apply Hmemo in Eu. lia.
Qed.

Lemma index_stable_key_node t f :
  isQuad t = false -> well_typed t = true -> exists key, stable_key t f key.
Proof.
  destruct t as [r i k v l d s p o g]. unfold isQuad, stable_key. simpl.
  destruct s; [discriminate |]. intros _ Hwt.
  unfold IndexFactory.mapId. simpl.
  destruct k as [kind|]; [| eexists; reflexivity].
  destruct (_ || _); [eexists; reflexivity |].
  destruct (String.eqb kind "Literal") eqn:El; [| eexists; reflexivity].
  destruct d as [d0|]; [eexists; reflexivity |].
  simpl in Hwt. discriminate.
Qed.

Lemma index_stable_key_quad r i k v l d s p o g ns np no ng f :
  IndexFactory.stamped s ns -> IndexFactory.stamped p np ->
  IndexFactory.stamped o no ->
  (match g with Some x => IndexFactory.stamped x ng | None => ng = 0 end) ->
  stable_key (Obj r i k v l d (Some s) (Some p) (Some o) g) f
             (Some (IndexFactory.quadKey ns np no ng)).
Proof.
  intros Hs Hp Ho Hg m. unfold IndexFactory.mapId. simpl. unfold IndexFactory.bind.
  rewrite (IndexFacts.index_id_obj_stamped s ns _ Hs),
          (IndexFacts.index_id_obj_stamped p np _ Hp),
          (IndexFacts.index_id_obj_stamped o no _ Ho).
  destruct g as [x|]; simpl.
  - rewrite (IndexFacts.index_id_obj_stamped x ng _ Hg). reflexivity.
  - subst ng. reflexivity.
Qed.

(** [mapId] of a node or literal description does not look at the factory. *)
Lemma index_mapId_node_const c :
  isQuad c = false -> exists r, forall g, IndexFactory.mapId c g = (r, g).
Proof.
  destruct c as [r i k v l d s p o g]. unfold isQuad. simpl.
  destruct s; [discriminate |]. intros _. unfold IndexFactory.mapId. simpl.
  destruct k as [kind|]; [| eexists; reflexivity].
  destruct (_ || _); [eexists; reflexivity |].
  destruct (String.eqb kind "Literal"); [| eexists; reflexivity].
  destruct d; eexists; reflexivity.
Qed.

Lemma index_mapId_node c f key f1 :
  isQuad c = false -> IndexFactory.mapId c f = (Ok key, f1) -> f1 = f.
Proof.
  intros Hq E. destruct (index_mapId_node_const c Hq) as [r Hr].
  rewrite Hr in E. congruence.
Qed.

(** A node or literal description for which [id] returns either has an
    identity that does not depend on the identity counter, or draws the
    value of the counter. *)
Lemma index_answers_component c f m0 n f0 :
  isQuad c = false ->
  IndexFactory.id_obj c (IndexFactory.with_index f m0) = (Ok n, f0) ->
  exists a, answers f (IndexFactory.id_obj c) a.
Proof.
  intros Hq. rewrite IndexFacts.index_id_obj_eq.
  destruct (truthy_id (obj_id c)) as [i|] eqn:Ei.
  - intros _. exists (Some i). intros j.
    unfold IndexFactory.ret. simpl. rewrite Z.add_0_r. reflexivity.
  - destruct (index_mapId_node_const c Hq) as [r Hr].
    unfold answers, IndexFactory.bind. setoid_rewrite Hr.
    destruct r as [key| | |]; try discriminate.
    setoid_rewrite IndexFacts.index_kindMap_with_index.
    destruct (IndexFactory.kindMap c f) as [tb|] eqn:Ek.
    + unfold IndexFactory.id_or_next.
      destruct (IndexFactory.at_key tb key) as [u|nm|] eqn:Eu.
      * destruct (obj_id u) as [i|] eqn:Eu'; [| discriminate].
        intros _. exists (Some i). intros j. simpl. rewrite Z.add_0_r. reflexivity.
      * discriminate.
      * intros _. exists None. intros j. reflexivity.
    + intros _. exists (Some (-1)). intros j. simpl.
      rewrite Z.add_0_r. reflexivity.
Qed.

Lemma index_answers_id_of x f m0 n f0 :
  match x with Some c => isQuad c = false | None => True end ->
  IndexFactory.id_of x (IndexFactory.with_index f m0) = (Ok n, f0) ->
  exists a, answers f (IndexFactory.id_of x) a.
Proof.
  destruct x as [c|]; simpl.
  - apply index_answers_component.
  - intros _ _. exists (Some (-1)). intros j. unfold IndexFactory.ret. simpl.
    rewrite Z.add_0_r. reflexivity.
Qed.

Lemma index_answers_graph g f m0 n f0 :
  match g with Some c => isQuad c = false | None => True end ->
  match g with Some _ => IndexFactory.id_of g | None => IndexFactory.ret 0 end
    (IndexFactory.with_index f m0) = (Ok n, f0) ->
  exists a, answers f (match g with
                       | Some _ => IndexFactory.id_of g
                       | None => IndexFactory.ret 0
                       end) a.
Proof.
  destruct g as [c|].
  - apply (index_answers_id_of (Some c)).
  - intros _ _. exists (Some 0). intros j. unfold IndexFactory.ret. simpl.
    rewrite Z.add_0_r. reflexivity.
Qed.

Lemma flat_fields r i k v l d s p o g :
  flat (Obj r i k v l d s p o g) = true ->
  match s with Some c => isQuad c = false | None => True end /\
  match p with Some c => isQuad c = false | None => True end /\
  match o with Some c => isQuad c = false | None => True end /\
  match g with Some c => isQuad c = false | None => True end.
Proof.
  unfold flat. simpl. rewrite !andb_true_iff. intros (((Hs & Hp) & Ho) & Hg).
  repeat split;
    match goal with
    | |- match ?x with _ => _ end => destruct x; [apply negb_true_iff; assumption | exact I]
    end.
Qed.

(** The content key of a quad description over nodes and literals, as a
    function of the identity counter. *)
Lemma index_flat_quad_key r i k v l d s p o g f m0 key fm :
  flat (Obj r i k v l d (Some s) p o g) = true ->
  IndexFactory.mapId (Obj r i k v l d (Some s) p o g) (IndexFactory.with_index f m0)
    = (Ok key, fm) ->
  exists a b c e,
    forall j,
      IndexFactory.mapId (Obj r i k v l d (Some s) p o g) (IndexFactory.with_index f j)
      = (Ok (Some (IndexFactory.quadKey
                     (default j a)
                     (default (j + drawn a) b)
                     (default (j + drawn a + drawn b) c)
                     (default (j + drawn a + drawn b + drawn c) e))),
         IndexFactory.with_index f (j + drawn a + drawn b + drawn c + drawn e)).
Proof.
  intros Hflat. apply flat_fields in Hflat as (Hs & Hp & Ho & Hg).
  unfold IndexFactory.mapId. cbn [IndexFactory.mapId_with]. unfold IndexFactory.bind.
  destruct (IndexFactory.id_of (Some s) (IndexFactory.with_index f m0))
    as [[si| | |] g1] eqn:E1; try discriminate.
  destruct (index_answers_id_of (Some s) f m0 si g1 Hs E1) as [a Ha].
  rewrite (Ha m0) in E1. injection E1 as <- <-.
  destruct (IndexFactory.id_of p (IndexFactory.with_index f (m0 + drawn a)))
    as [[pi| | |] g2] eqn:E2; try discriminate.
  destruct (index_answers_id_of p f _ pi g2 Hp E2) as [b Hb].
  rewrite (Hb _) in E2. injection E2 as <- <-.
  destruct (IndexFactory.id_of o (IndexFactory.with_index f (m0 + drawn a + drawn b)))
    as [[oi| | |] g3] eqn:E3; try discriminate.
  destruct (index_answers_id_of o f _ oi g3 Ho E3) as [c Hc].
  rewrite (Hc _) in E3. injection E3 as <- <-.
  destruct (match g with Some _ => IndexFactory.id_of g | None => IndexFactory.ret 0 end
              (IndexFactory.with_index f (m0 + drawn a + drawn b + drawn c)))
    as [[gi| | |] g4] eqn:E4; try discriminate.
  destruct (index_answers_graph g f _ gi g4 Hg E4) as [e He].
  intros _. exists a, b, c, e. intros j.
  rewrite (Ha j), (Hb _), (Hc _), (He _). reflexivity.
Qed.

(** When no stored key mentions a number the counter has not reached, the
    second look-up for a quad description over nodes and literals finds
    nothing either. *)
Lemma index_flat_quad_second_miss t f key f1 :
  fresh_keys f -> isQuad t = true -> flat t = true ->
  misses t f key f1 ->
  exists key2 f2,
    misses t (IndexFactory.with_index f (IndexFactory.index f1 + 1)) key2 f2.
Proof.
  intros Hfresh Hq Hflat (Hm & tb & Hk & Hmiss).
  destruct t as [r i k v l d s p o g]. unfold isQuad in Hq. simpl in Hq.
  destruct s as [s|]; [| discriminate].
  pose proof Hm as Hm0. rewrite <- (IndexFacts.index_with_index_self f) in Hm0.
  destruct (index_flat_quad_key r i k v l d s p o g f _ key f1 Hflat Hm0)
    as (a & b & c & e & Hgen).
  rewrite (Hgen (IndexFactory.index f)) in Hm0. injection Hm0 as <- <-.
  unfold IndexFactory.kindMap, isQuad in Hk. simpl in Hk. injection Hk as <-.
  apply at_key_absent in Hmiss as [Hmiss _].
  eexists _, _. split; [apply Hgen |].
  exists (IndexFactory.quadMap f). split; [reflexivity |].
  rewrite (at_key_plain _ _ (quadKey_plain _ _ _ _)).
  match goal with
  | |- match ?l with _ => _ end = _ => destruct l as [u|] eqn:E; [| reflexivity]
  end.
  exfalso. pose proof (Hfresh _ _ _ _ _ E) as B. simpl in *.
  destruct a, b, c, e; simpl in *; try lia.
  congruence.
Qed.

(** C10, as the code has it. In a well-formed index factory, [id] on a
    description that carries no identity and whose look-up finds nothing
    returns the value that the identity counter has when the look-up is
    made, and moves the counter past it: for a node or a literal that is
    the value the counter had at the call, for a quad the value after the
    identities of its components were drawn. The five tables stay as they
    were and [fromId] finds nothing under the number returned.
    A second call returns a larger number whenever its look-up finds
    nothing again. That is so when the content key of the description does
    not depend on the counter, as for every description that is no quad
    and for a quad description whose components carry their identities; and
    it is so for every quad description over nodes and literals when no
    stored quad has a key that mentions a number the counter has not
    reached. *)
Theorem id_of_uninterned_description :
  (forall t f key f1,
     IndexFactory.wf f -> truthy_id (obj_id t) = None -> misses t f key f1 ->
     exists f',
       IndexFactory.id (JObj t) f = (Ok (IndexFactory.index f1), f') /\
       f' = IndexFactory.with_index f (IndexFactory.index f1 + 1) /\
       IndexFactory.index f <= IndexFactory.index f1 /\
       (isQuad t = false -> IndexFactory.index f1 = IndexFactory.index f) /\
       IndexFactory.index f' = IndexFactory.index f1 + 1 /\
       IndexFactory.memoizationMap f' = IndexFactory.memoizationMap f /\
       IndexFactory.blankNodeMap f' = IndexFactory.blankNodeMap f /\
       IndexFactory.namedNodeMap f' = IndexFactory.namedNodeMap f /\
       IndexFactory.literalMap f' = IndexFactory.literalMap f /\
       IndexFactory.quadMap f' = IndexFactory.quadMap f /\
       IndexFactory.fromId (IndexFactory.index f1) f' = None) /\
  (forall t f key f1 key2 f2,
     IndexFactory.wf f -> truthy_id (obj_id t) = None -> misses t f key f1 ->
     misses t (IndexFactory.with_index f (IndexFactory.index f1 + 1)) key2 f2 ->
     IndexFactory.id (JObj t) (IndexFactory.with_index f (IndexFactory.index f1 + 1))
       = (Ok (IndexFactory.index f2),
          IndexFactory.with_index f (IndexFactory.index f2 + 1)) /\
     IndexFactory.index f1 < IndexFactory.index f2) /\
  (forall t f key f1,
     misses t f key f1 -> stable_key t f key ->
     misses t (IndexFactory.with_index f (IndexFactory.index f1 + 1)) key
            (IndexFactory.with_index f (IndexFactory.index f1 + 1))) /\
  (forall t f,
     isQuad t = false -> well_typed t = true -> exists key, stable_key t f key) /\
  (forall r i k v l d s p o g ns np no ng f,
     IndexFactory.stamped s ns -> IndexFactory.stamped p np ->
     IndexFactory.stamped o no ->
     (match g with Some x => IndexFactory.stamped x ng | None => ng = 0 end) ->
     stable_key (Obj r i k v l d (Some s) (Some p) (Some o) g) f
                (Some (IndexFactory.quadKey ns np no ng))) /\
  (forall t f key f1,
     fresh_keys f -> isQuad t = true -> flat t = true -> misses t f key f1 ->
     exists key2 f2,
       misses t (IndexFactory.with_index f (IndexFactory.index f1 + 1)) key2 f2).
Proof.
  split; [| split; [| split; [| split; [| split]]]].
  - intros t f key f1 Hwf Hi Hm.
    destruct (index_id_obj_miss t f key f1 Hwf Hi Hm) as (E & L & Hf).
    exists (IndexFactory.with_index f (IndexFactory.index f1 + 1)).
    split; [exact E |]. split; [reflexivity |]. split; [exact L |].
    split.
    { intros Hq. destruct Hm as [Hm _].
      rewrite (index_mapId_node t f key f1 Hq Hm). reflexivity. }
    simpl. repeat split; auto.
  - intros t f key f1 key2 f2 Hwf Hi Hm Hm2.
    pose proof (IndexFacts.index_bumps_mapId t f _ _ (proj1 Hm)) as [_ L].
    set (f' := IndexFactory.with_index f (IndexFactory.index f1 + 1)) in *.
    assert (Hwf' : IndexFactory.wf f').
    { apply IndexFacts.index_wf_with_index; [exact Hwf | lia]. }
    destruct (index_id_obj_miss t f' key2 f2 Hwf' Hi Hm2) as (E' & L' & _).
    split; [exact E' |]. simpl in L'. lia.
  - intros t f key f1 (Hm & table & Hk & Hmiss) Hst.
    split; [apply Hst |].
    exists table. split; [| exact Hmiss].
    rewrite IndexFacts.index_kindMap_with_index.
    assert (E : f1 = f).
    { pose proof (Hst (IndexFactory.index f)) as H.
      rewrite IndexFacts.index_with_index_self in H. congruence. }
    rewrite E in Hk. exact Hk.
  - apply index_stable_key_node.
  - apply index_stable_key_quad.
  - apply index_flat_quad_second_miss.
Qed.


(** C10 fails as stated: after [quad] has stored a quad whose subject carries
    the identity [5], a number the counter has not reached, [id] on
    [looseQuad] finds nothing and returns the fresh [4] (its subject drew
    [3]), and a second call, whose subject draws [5], finds the stored quad
    and returns its identity [2]. *)
Lemma id_second_call_not_larger :
  exists q f1 key fk fa fb,
    IndexFactory.quad nodeX nodeP nodeO None index0 = (Ok q, f1) /\
    IndexFactory.wf f1 /\
    truthy_id (obj_id looseQuad) = None /\
    misses looseQuad f1 key fk /\
    IndexFactory.id (JObj looseQuad) f1 = (Ok 4, fa) /\
    IndexFactory.id (JObj looseQuad) fa = (Ok 2, fb) /\
    ~ (4 < 2) /\
    IndexFactory.quadMap f1 !! IndexFactory.quadKey 5 100 101 0 = Some q /\
    IndexFactory.index f1 = 3.
Proof.
  destruct (IndexFactory.quad nodeX nodeP nodeO None index0) as [r f1] eqn:E.
  pose proof E as E'. vm_compute in E'.
  destruct r as [q| | |]; try discriminate.
  pose proof (IndexFacts.index_quad_roundtrip _ _ _ _ _ _ _
                (IndexFacts.index_wf_create None) E) as [Hwf _].
  injection E' as Hq Hf1.
  exists q, f1. rewrite <- Hf1, <- Hq.
  eexists _, _, _, _. split; [reflexivity |].
  split; [rewrite Hf1; exact Hwf |].
  split; [reflexivity |].
  split.
  { split; [vm_compute; reflexivity |].
    eexists. split; vm_compute; reflexivity. }
  split; [vm_compute; reflexivity |].
  split; [vm_compute; reflexivity |].
  split; [lia |].
  split; vm_compute; reflexivity.
Qed.


Lemma id_of_uninterned_description_witness :
  IndexFactory.wf quadStore /\ fresh_keys quadStore /\
  exists key f1 key2 f2,
    misses looseQuad quadStore key f1 /\
    misses looseQuad
      (IndexFactory.with_index quadStore (IndexFactory.index f1 + 1)) key2 f2 /\
    IndexFactory.id (JObj looseQuad)
      (IndexFactory.with_index quadStore (IndexFactory.index f1 + 1))
      = (Ok (IndexFactory.index f2),
         IndexFactory.with_index quadStore (IndexFactory.index f2 + 1)) /\
    IndexFactory.index f1 < IndexFactory.index f2.
Proof.
  assert (Hwf : IndexFactory.wf quadStore).
  { apply IndexFacts.index_reachable_wf. repeat constructor. }
  assert (Hfresh : fresh_keys quadStore).
  { intros a b c d u.
    change (IndexFactory.quadMap quadStore)
      with (<[IndexFactory.quadKey 1 2 3 0 :=
               Obj 6 (Some 6) None "" "" None (Some node1) (Some node2) (Some node3)
                   (Some (Obj 5 (Some 5) (Some "NamedNode") "rdf:defaultGraph" ""
                              None None None None None))]>
              (∅ : gmap string obj)).
    intros H. apply lookup_insert_Some in H as [[H _]|[_ H]].
    - apply quadKey_inj in H as (<- & <- & <- & <-). vm_compute. repeat split.
    - rewrite lookup_empty in H. discriminate. }
  assert (Hm : misses looseQuad quadStore
                 (Some (IndexFactory.quadKey 7 100 101 0))
                 (IndexFactory.with_index quadStore 8)).
  { split; [vm_compute; reflexivity |].
    eexists. split; vm_compute; reflexivity. }
  destruct id_of_uninterned_description as (_ & H2 & _ & _ & _ & H6).
  destruct (H6 looseQuad quadStore _ _ Hfresh eq_refl eq_refl Hm) as (key2 & f2 & Hm2).
  split; [exact Hwf |]. split; [exact Hfresh |].
  exists (Some (IndexFactory.quadKey 7 100 101 0)), (IndexFactory.with_index quadStore 8),
         key2, f2.
  split; [exact Hm |]. split; [exact Hm2 |].
  exact (H2 looseQuad quadStore _ _ key2 f2 Hwf eq_refl Hm Hm2).
Defined.



(** ** Nodes of the index factory *)

(** X1. In a well-formed, keyed index factory [namedNode] on a string that
    names no member of [Object.prototype], and [blankNode] on such a string
    that is not empty, return a term of the asked kind whose value is the
    string asked for. On the name of a member of [Object.prototype] for
    which the tables have no entry of their own, both return that member,
    which is no term, and store nothing. *)
Theorem index_node_content :
  forall v f,
    (in_prototype v = false -> IndexFactory.wf f -> IndexFactory.keyed f ->
     (exists t f1,
        IndexFactory.namedNode (JStr v) f = (Ok t, f1) /\
        obj_termType t = Some "NamedNode" /\ obj_value t = v) /\
     (v <> "" ->
      exists t f1,
        IndexFactory.blankNode (JStr v) f = (Ok t, f1) /\
        obj_termType t = Some "BlankNode" /\ obj_value t = v)) /\
    (in_prototype v = true ->
     IndexFactory.namedNodeMap f !! v = None ->
     IndexFactory.blankNodeMap f !! v = None ->
     IndexFactory.namedNode (JStr v) f = (Inherited v, f) /\
     IndexFactory.blankNode (JStr v) f = (Inherited v, f)).
Proof.
  intros v f. split.
  - intros Hp Hwf Hk. split.
    + destruct (IndexMore.more_namedNode_spec v f Hp Hwf Hk)
        as (t & f1 & E & _ & (Hty & Hv & _) & _).
      exists t, f1. simpl. auto.
    + intros Hv.
      destruct (IndexMore.more_blankNode_spec v f Hv Hp Hwf Hk)
        as (t & f1 & E & _ & (Hty & Hval & _) & _).
      exists t, f1. auto.
  - intros Hp Hn Hb. split.
    + simpl. rewrite IndexFacts.index_namedNode_str_eq, Hn, Hp. reflexivity.
    + assert (Hv : v <> "") by (intros ->; discriminate).
      unfold IndexFactory.blankNode. simpl.
      destruct (String.eqb_spec v "") as [->|_]; [congruence |]. simpl.
      rewrite (IndexFacts.index_blankNode_str_eq v f Hv), Hb, Hp. reflexivity.
Qed.


Lemma index_node_content_witness :
  (exists t f1,
     IndexFactory.namedNode (JStr "http://ex.org/a") index0 = (Ok t, f1) /\
     obj_termType t = Some "NamedNode" /\ obj_value t = "http://ex.org/a") /\
  IndexFactory.namedNode (JStr "constructor") index0 = (Inherited "constructor", index0) /\
  IndexFactory.blankNode (JStr "toString") index0 = (Inherited "toString", index0).
Proof.
  split; [| split].
  - apply (proj1 (index_node_content "http://ex.org/a" index0)).
    + reflexivity.
    + apply IndexFacts.index_wf_create.
    + apply IndexMore.more_keyed_create.
  - apply (proj2 (index_node_content "constructor" index0)); reflexivity.
  - apply (proj2 (index_node_content "toString" index0)); reflexivity.
Defined.


(** ** Equality of interned terms *)

(** X2. On terms that the store holds, [equals] answers [true] exactly for
    one and the same instance, and leaves the factory alone: in the hash
    factory for terms of a consistent store, in the index factory for terms
    stored in a well-formed factory. *)
Theorem equals_is_same_instance (murmur3 : string -> Z -> Z) :
  (forall f k1 k2 t1 t2,
     HashFactory.consistent murmur3 f ->
     HashFactory.memoizationMap f !! k1 = Some t1 ->
     HashFactory.memoizationMap f !! k2 = Some t2 ->
     exists b, HashFactory.equals murmur3 (JObj t1) (JObj t2) f = Ok b /\
               (b = true <-> t1 = t2)) /\
  (forall f t1 t2,
     IndexFactory.wf f -> IndexFactory.stored f t1 -> IndexFactory.stored f t2 ->
     exists b, IndexFactory.equals (JObj t1) (JObj t2) f = (Ok b, f) /\
               (b = true <-> t1 = t2)).
Proof.
  split.
  - intros f k1 k2 t1 t2 Hc H1 H2.
    destruct (Hc k1 t1 H1) as [_ I1]. destruct (Hc k2 t2 H2) as [_ I2].
    exists (k1 =? k2). split.
    + unfold HashFactory.equals, HashFactory.same_id. simpl. rewrite I1, I2. reflexivity.
    + rewrite Z.eqb_eq. split; [intros -> | intros ->]; congruence.
  - intros f t1 t2 Hwf H1 H2.
    destruct (IndexMore.more_stored_stamped f t1 Hwf H1) as (n1 & I1 & S1 & _).
    destruct (IndexMore.more_stored_stamped f t2 Hwf H2) as (n2 & I2 & S2 & _).
    exists (n1 =? n2). split.
    + unfold IndexFactory.equals. simpl.
      apply index_same_id_settled; unfold settled; simpl;
        apply IndexFacts.index_id_obj_stamped; assumption.
    + rewrite Z.eqb_eq. split.
      * intros ->. eapply IndexMore.more_stored_same_id; eauto.
      * intros ->. congruence.
Qed.

Lemma equals_is_same_instance_witness :
  exists t f1,
    IndexFactory.namedNode (JStr "a") index0 = (Ok t, f1) /\
    exists b, IndexFactory.equals (JObj t) (JObj t) f1 = (Ok b, f1) /\
              (b = true <-> t = t).
Proof.
  destruct (IndexMore.more_namedNode_spec "a" index0 eq_refl
              (IndexFacts.index_wf_create None) (IndexMore.more_keyed_create None))
    as (t & f1 & E & Ht & _ & Hwf1 & _).
  exists t, f1. split; [exact E |].
  assert (Hs : IndexFactory.stored f1 t) by (exists "a"; auto).
  exact (proj2 (equals_is_same_instance lengthHash) f1 t t Hwf1 Hs Hs).
Defined.

(** ** Kind separation *)

(** X3. A blank node and a named node with the same value are two terms: in
    a well-formed, keyed index factory [blankNode v] and [namedNode v], for
    a [v] that names no member of [Object.prototype], return different
    instances with different identities, and [equals] on them is [false];
    in a consistent hash factory the same holds as soon as the two hashes
    of [v], under seeds [seedBase + 1] and [seedBase + 2], differ. *)
Theorem kind_separation (murmur3 : string -> Z -> Z) :
  (forall v f,
     v <> "" -> in_prototype v = false ->
     IndexFactory.wf f -> IndexFactory.keyed f ->
     exists b f1 n f2,
       IndexFactory.blankNode (JStr v) f = (Ok b, f1) /\
       IndexFactory.namedNode (JStr v) f1 = (Ok n, f2) /\
       b <> n /\ obj_id b <> obj_id n /\
       IndexFactory.equals (JObj b) (JObj n) f2 = (Ok false, f2)) /\
  (forall v f,
     v <> "" -> HashFactory.consistent murmur3 f ->
     murmur3 v (HashFactory.seedBase f + 1) <> murmur3 v (HashFactory.seedBase f + 2) ->
     exists b f1 n f2,
       HashFactory.blankNode murmur3 (JStr v) f = (Ok b, f1) /\
       HashFactory.namedNode murmur3 (JStr v) f1 = (Ok n, f2) /\
       b <> n /\ obj_id b <> obj_id n /\
       HashFactory.equals murmur3 (JObj b) (JObj n) f2 = Ok false).
Proof.
  split.
  - intros v f Hv Hp Hwf Hk.
    destruct (IndexMore.more_blankNode_spec v f Hv Hp Hwf Hk)
      as (b & f1 & Eb & Hb & (Tb & _) & Hwf1 & Hk1 & _).
    destruct (IndexMore.more_namedNode_spec v f1 Hp Hwf1 Hk1)
      as (n & f2 & En & Hn & (Tn & _) & Hwf2 & _ & Hbn & _).
    assert (Sb : IndexFactory.stored f2 b) by (exists v; rewrite Hbn; auto).
    assert (Sn : IndexFactory.stored f2 n) by (exists v; auto).
    assert (Hne : b <> n) by (intros ->; congruence).
    destruct (IndexMore.more_stored_stamped f2 b Hwf2 Sb) as (ib & Ib & Stb & _).
    destruct (IndexMore.more_stored_stamped f2 n Hwf2 Sn) as (i_n & In & Stn & _).
    assert (Hid : ib <> i_n).
    { intros ->. apply Hne. eapply IndexMore.more_stored_same_id; eauto. }
    exists b, f1, n, f2. split; [exact Eb |]. split; [exact En |].
    split; [exact Hne |]. split; [congruence |].
    unfold IndexFactory.equals. simpl.
    rewrite (index_same_id_settled f2 (JObj b) (JObj n) ib i_n).
    + destruct (Z.eqb_spec ib i_n); [contradiction | reflexivity].
    + apply IndexFacts.index_id_obj_stamped, Stb.
    + apply IndexFacts.index_id_obj_stamped, Stn.
  - intros v f Hv Hc Hh.
    destruct (HashFactory.blankNode_str murmur3 (Some v) f) as [b f1] eqn:Eb.
    destruct (HashFactory.namedNode_str murmur3 v f1) as [n f2] eqn:En.
    pose proof Eb as Eb'. unfold HashFactory.blankNode_str in Eb'.
    rewrite HashFacts.hash_id_describe_blank in Eb'.
    pose proof (HashFacts.hash_intern_spec _ _ _ _ _ Eb') as [_ [Hs1 _]].
    apply (HashFacts.hash_intern_consistent murmur3) in Eb' as (Hc1 & Ib & Rb); [| exact Hc |].
    2:{ intros r. split; [reflexivity |].
        apply (HashFacts.hash_id_obj_stamp murmur3 (HashFactory.seedBase f) 0 r
                 (Some "BlankNode") v "" None None None None None). }
    pose proof (HashFacts.hash_namedNode_str_spec murmur3 _ _ _ _ En) as [_ [Hs2 _]].
    pose proof (HashFacts.hash_namedNode_str_consistent murmur3 _ _ _ _ Hc1 En)
      as (_ & In & Rn).
    rewrite Hs1 in In, Rn.
    exists b, f1, n, f2.
    unfold HashFactory.blankNode, HashFactory.blankNode_with,
      HashFactory.namedNode, HashFactory.namedNode_with. simpl.
    destruct (String.eqb_spec v "") as [->|_]; [congruence |]. simpl.
    rewrite Eb, En. split; [reflexivity |]. split; [reflexivity |].
    assert (Hid : obj_id b <> obj_id n) by (rewrite Ib, In; congruence).
    split; [intros ->; congruence |]. split; [exact Hid |].
    unfold HashFactory.equals, HashFactory.same_id. simpl.
    rewrite Hs2, Hs1, Rb, Rn.
    destruct (Z.eqb_spec (murmur3 v (HashFactory.seedBase f + 1))
                         (murmur3 v (HashFactory.seedBase f + 2)));
      [contradiction | reflexivity].
Qed.


Lemma kind_separation_witness :
  exists b f1 n f2,
    IndexFactory.blankNode (JStr "a") index0 = (Ok b, f1) /\
    IndexFactory.namedNode (JStr "a") f1 = (Ok n, f2) /\
    b <> n /\ obj_id b <> obj_id n /\
    IndexFactory.equals (JObj b) (JObj n) f2 = (Ok false, f2).
Proof.
  apply (proj1 (kind_separation lengthHash) "a" index0).
  - discriminate.
  - reflexivity.
  - apply IndexFacts.index_wf_create.
  - apply IndexMore.more_keyed_create.
Defined.


(** ** Blank nodes without a value *)

(** X4. In a well-formed, keyed index factory whose blank-node counter
    stays within the integers that a JavaScript number counts exactly (it
    starts, and after [n] increments still is, at most [2^53] in size), [n]
    calls of [blankNode()] in a row return [n] blank nodes whose values are
    ["_:b"] followed by the next [n] values of the blank-node counter; they
    are pairwise different instances, and the counter ends [n] higher. *)
Theorem blank_node_auto_naming :
  forall n f rs f',
    IndexFactory.wf f -> IndexFactory.keyed f ->
    exact (IndexFactory.bnIndex f) ->
    exact (IndexFactory.bnIndex f + Z.of_nat n) ->
    IndexFactory.blankNodes n f = (rs, f') ->
    exists ts,
      rs = Ok <$> ts /\
      obj_value <$> ts
        = (fun i => "_:b" +:+ toString (IndexFactory.bnIndex f + Z.of_nat i))
            <$> seq 1 n /\
      NoDup ts /\
      IndexFactory.bnIndex f' = IndexFactory.bnIndex f + Z.of_nat n.
Proof.
  intros n f rs f' Hwf Hk _ _ E.
  destruct (IndexMore.more_blankNodes_values n f rs f' Hwf Hk E) as (ts & Hrs & Hvs & Hb).
  exists ts. split; [exact Hrs |]. split; [exact Hvs |]. split; [| exact Hb].
  apply (NoDup_fmap_1 obj_value). rewrite Hvs.
  apply NoDup_fmap_2; [apply IndexMore.more_auto_name_inj | apply NoDup_seq].
Qed.


Lemma blank_node_auto_naming_witness :
  exists ts,
    fst (IndexFactory.blankNodes 3 index0) = Ok <$> ts /\
    obj_value <$> ts = ["_:b2"; "_:b3"; "_:b4"] /\ NoDup ts.
Proof.
  destruct (IndexFactory.blankNodes 3 index0) as [rs f'] eqn:E.
  assert (H1 : exact (IndexFactory.bnIndex index0)) by (vm_compute; split; discriminate).
  assert (H2 : exact (IndexFactory.bnIndex index0 + Z.of_nat 3))
    by (vm_compute; split; discriminate).
  destruct (blank_node_auto_naming 3 index0 rs f'
              (IndexFacts.index_wf_create None) (IndexMore.more_keyed_create None)
              H1 H2 E)
    as (ts & Hrs & Hvs & Hnd & _).
  exists ts. split; [exact Hrs |]. split; [| exact Hnd].
  rewrite Hvs. vm_compute. reflexivity.
Defined.


(** ** The fields of a new quad, and the default graph *)

(** X5. [quad] returns a term the store already held, or a new quad with
    exactly the subject, predicate and object it was given, whose [graph]
    (and [why]) is the graph it was given or else the default graph node,
    the very instance that [defaultGraph()] returns afterwards. In the hash
    factory the term already held can also be the default graph node that
    the call itself has just interned. *)
Theorem quad_fields (murmur3 : string -> Z -> Z) :
  (forall s p o g f t f',
     IndexFactory.quad s p o g f = (Ok t, f') ->
     (exists key, IndexFactory.quadMap f !! key = Some t) \/
     (exists u, quad_of s p o u t /\
        match g with
        | Some x => u = x
        | None => IndexFactory.defaultGraph f' = (Ok u, f')
        end)) /\
  (forall s p o g f t f',
     HashFactory.quad murmur3 s p o g f = (t, f') ->
     (exists k, HashFactory.memoizationMap f !! k = Some t) \/
     (g = None /\ t = fst (HashFactory.defaultGraph murmur3 f)) \/
     (exists u, quad_of s p o u t /\
        match g with
        | Some x => u = x
        | None => HashFactory.defaultGraph murmur3 f' = (u, f')
        end)).
Proof.
  split.
  - intros s p o g f t f'. rewrite IndexFacts.index_quad_eq. unfold IndexFactory.bind.
    destruct g as [x|].
    + unfold IndexFactory.ret.
      destruct (IndexFactory.quadMapId s p o (Some x) f) as [[key|e| |] f2] eqn:E2;
        try discriminate.
      apply IndexFacts.index_bumps_quadMapId in E2 as [E2 _].
      unfold IndexFactory.quad_tail.
      destruct (IndexFactory.quadMap f2 !! key) as [t'|] eqn:E.
      * intros [= <- <-]. left. exists key. rewrite E2 in E. exact E.
      * unfold IndexFactory.register. intros [= <- <-]. right. exists x.
        split; [repeat split | reflexivity].
    + unfold IndexFactory.defaultGraph.
      destruct (IndexFacts.index_namedNode_str_spec "rdf:defaultGraph" f eq_refl)
        as (d & f1 & E1 & Hd & _ & Hq & _).
      rewrite E1.
      destruct (IndexFactory.quadMapId s p o None f1) as [[key|e| |] f2] eqn:E2;
        try discriminate.
      apply IndexFacts.index_bumps_quadMapId in E2 as [E2 _].
      unfold IndexFactory.quad_tail.
      destruct (IndexFactory.quadMap f2 !! key) as [t'|] eqn:E.
      * intros [= <- <-]. left. exists key. rewrite E2 in E. simpl in E.
        rewrite Hq in E. exact E.
      * unfold IndexFactory.register. intros [= <- <-]. right. exists d.
        split; [repeat split |].
        apply IndexFacts.index_namedNode_str_hit. simpl. rewrite E2. exact Hd.
  - intros s p o g f t f'. unfold HashFactory.quad.
    destruct g as [x|].
    + unfold HashFactory.intern.
      destruct (HashFactory.memoizationMap f !! _) as [t'|] eqn:E.
      * intros [= <- <-]. left. eauto.
      * intros [= <- <-]. right. right. exists x. split; [repeat split | reflexivity].
    + unfold HashFactory.defaultGraph.
      destruct (HashFactory.namedNode_str murmur3 "rdf:defaultGraph" f) as [d f1] eqn:E1.
      simpl. intros E.
      unfold HashFactory.intern in E.
      destruct (HashFactory.memoizationMap f1 !! _) as [t'|] eqn:El.
      all: pose proof (HashFacts.hash_namedNode_str_spec murmur3 _ _ _ _ E1)
             as (Hd & Hs1 & _).
      * injection E as <- <-.
        unfold HashFactory.namedNode_str, HashFactory.intern in E1.
        destruct (HashFactory.memoizationMap f !! _) as [d'|] eqn:Ed.
        -- injection E1 as <- <-. left. eauto.
        -- injection E1 as <- <-. simpl in El.
           match type of El with
           | <[?h := _]> _ !! ?i = _ => destruct (decide (i = h)) as [Hi|Hi]
           end.
           ++ rewrite Hi, lookup_insert_eq in El. injection El as <-. right. left. auto.
           ++ rewrite lookup_insert_ne in El by congruence. left. eauto.
      * injection E as <- <-. right. right. exists d.
        split; [repeat split |].
        apply HashFacts.hash_namedNode_str_hit. simpl.
        rewrite Hs1 in El |- *.
        rewrite lookup_insert_ne; [exact Hd |].
        intros Hi. rewrite Hi, Hd in El. discriminate.
Qed.

Lemma quad_fields_witness :
  exists t f' u,
    IndexFactory.quad node1 node2 node3 None index0 = (Ok t, f') /\
    quad_of node1 node2 node3 u t /\
    IndexFactory.defaultGraph f' = (Ok u, f').
Proof.
  destruct (IndexFactory.quad node1 node2 node3 None index0) as [r f'] eqn:E.
  assert (exists t, r = Ok t) as [t ->].
  { vm_compute in E. injection E as <- _. eauto. }
  destruct (proj1 (quad_fields lengthHash) node1 node2 node3 None index0 t f' E)
    as [[key Hk] | (u & Hq & Hd)].
  - simpl in Hk. rewrite lookup_empty in Hk. discriminate.
  - exists t, f', u. auto.
Defined.

(** ** The hash of a quad does not see the order of its components *)

(** X6. In the hash factory the identity of a quad is taken from the sum of
    the identities of its four components. When these four identities are
    small enough for their sum to be exact (each at most [2^51] in size, as
    every 32-bit hash is), the identity is the same for every order of the
    components: after [quad s p o g], the calls [quad p s o g],
    [quad o p s g] and [quad s p g o] return the quad of the first call
    and create nothing, and so does [quad p s o] after [quad s p o]. *)
Theorem hash_quad_ignores_order (murmur3 : string -> Z -> Z) :
  (forall s p o g f t f1,
     summand (HashFactory.id_obj murmur3 (HashFactory.seedBase f) s) ->
     summand (HashFactory.id_obj murmur3 (HashFactory.seedBase f) p) ->
     summand (HashFactory.id_obj murmur3 (HashFactory.seedBase f) o) ->
     summand (HashFactory.id_obj murmur3 (HashFactory.seedBase f) g) ->
     HashFactory.quad murmur3 s p o (Some g) f = (t, f1) ->
     HashFactory.quad murmur3 p s o (Some g) f1 = (t, f1) /\
     HashFactory.quad murmur3 o p s (Some g) f1 = (t, f1) /\
     HashFactory.quad murmur3 s p g (Some o) f1 = (t, f1)) /\
  (forall s p o f t f1,
     summand (HashFactory.id_obj murmur3 (HashFactory.seedBase f) s) ->
     summand (HashFactory.id_obj murmur3 (HashFactory.seedBase f) p) ->
     summand (HashFactory.id_obj murmur3 (HashFactory.seedBase f) o) ->
     summand (HashFactory.id_obj murmur3 (HashFactory.seedBase f)
                (HashFactory.usedGraph murmur3 None f)) ->
     HashFactory.quad murmur3 s p o None f = (t, f1) ->
     HashFactory.quad murmur3 p s o None f1 = (t, f1)).
Proof.
  split.
  - intros s p o g f t f1 _ _ _ _ E. unfold HashFactory.quad in *.
    apply HashFacts.hash_intern_spec in E as (Ht & Hs & _).
    rewrite Hs.
    repeat split; apply HashFacts.hash_intern_hit; rewrite <- Ht;
      f_equal; f_equal; f_equal; lia.
  - intros s p o f t f1 _ _ _ _. unfold HashFactory.quad, HashFactory.defaultGraph.
    destruct (HashFactory.namedNode_str murmur3 "rdf:defaultGraph" f) as [d f0] eqn:E0.
    intros E.
    pose proof (HashFacts.hash_namedNode_str_spec murmur3 _ _ _ _ E0) as (Hd & Hs0 & _).
    apply HashFacts.hash_intern_spec in E as (Ht & Hs & Hm).
    rewrite (HashFacts.hash_namedNode_str_hit murmur3 "rdf:defaultGraph" f1 d).
    + rewrite Hs. apply HashFacts.hash_intern_hit. rewrite <- Ht.
      f_equal. f_equal. f_equal. lia.
    + apply Hm. rewrite Hs, Hs0. exact Hd.
Qed.


Lemma hash_quad_ignores_order_witness :
  exists t f1,
    HashFactory.quad lengthHash node1 node2 node3 (Some node4) hash0 = (t, f1) /\
    HashFactory.quad lengthHash node2 node1 node3 (Some node4) f1 = (t, f1) /\
    obj_subject t = Some node1.
Proof.
  destruct (HashFactory.quad lengthHash node1 node2 node3 (Some node4) hash0)
    as [t f1] eqn:E.
  exists t, f1. split; [reflexivity |].
  split.
  - refine (proj1 (proj1 (hash_quad_ignores_order lengthHash)
                     node1 node2 node3 node4 hash0 t f1 _ _ _ _ E));
      vm_compute; split; discriminate.
  - vm_compute in E. injection E as <- _. reflexivity.
Defined.


(** ** [equals] in the hash factory *)

(** X7. In the hash factory the [equals] method of a term is an equivalence
    on objects: it always returns, a term equals itself, the answer does not
    depend on which of the two terms the method is called on, and two terms
    that equal a third equal each other. Against [null] and [undefined] it
    answers [false], without the [TypeError] that [id] has for [null]. *)
Theorem hash_equals_equivalence (murmur3 : string -> Z -> Z) :
  forall f a b c,
    (exists r, HashFactory.term_equals murmur3 a (JObj b) f = Ok r) /\
    HashFactory.term_equals murmur3 a (JObj a) f = Ok true /\
    HashFactory.term_equals murmur3 a (JObj b) f
      = HashFactory.term_equals murmur3 b (JObj a) f /\
    (HashFactory.term_equals murmur3 a (JObj b) f = Ok true ->
     HashFactory.term_equals murmur3 b (JObj c) f = Ok true ->
     HashFactory.term_equals murmur3 a (JObj c) f = Ok true) /\
    HashFactory.term_equals murmur3 a JNull f = Ok false /\
    HashFactory.term_equals murmur3 a JUndefined f = Ok false.
Proof.
  intros f a b c.
  unfold HashFactory.term_equals, HashFactory.equals, HashFactory.same_id. simpl.
  split; [eauto |]. split; [rewrite Z.eqb_refl; reflexivity |].
  split; [rewrite Z.eqb_sym; reflexivity |].
  split; [| split; reflexivity].
  intros [= H1] [= H2]. apply Z.eqb_eq in H1, H2.
  rewrite H1, H2, Z.eqb_refl. reflexivity.
Qed.

Lemma hash_equals_equivalence_witness :
  HashFactory.term_equals lengthHash node1 (JObj node1) hash0 = Ok true /\
  HashFactory.term_equals lengthHash node1 (JObj node2) hash0 = Ok false.
Proof.
  split.
  - exact (proj1 (proj2 (hash_equals_equivalence lengthHash hash0 node1 node1 node1))).
  - reflexivity.
Defined.

(** ** [equals] in the index factory on descriptions *)

Lemma index_id_miss_twice t f key :
  IndexFactory.wf f -> truthy_id (obj_id t) = None ->
  stable_key t f key -> misses t f key f ->
  IndexFactory.id_obj t f
    = (Ok (IndexFactory.index f), IndexFactory.with_index f (IndexFactory.index f + 1)) /\
  IndexFactory.id_obj t (IndexFactory.with_index f (IndexFactory.index f + 1))
    = (Ok (IndexFactory.index f + 1),
       IndexFactory.with_index f (IndexFactory.index f + 1 + 1)).
Proof.
  intros Hwf Hi Hst Hm.
  destruct (index_id_obj_miss t f key f Hwf Hi Hm) as (E & _ & _).
  split; [exact E |].
  set (f' := IndexFactory.with_index f (IndexFactory.index f + 1)).
  assert (Hwf' : IndexFactory.wf f').
  { apply IndexFacts.index_wf_with_index; [exact Hwf | lia]. }
  assert (Hm' : misses t f' key f').
  { destruct Hm as (_ & tb & Hk & Hmiss). split; [apply Hst |].
    exists tb. split; [| exact Hmiss].
    unfold f'. rewrite IndexFacts.index_kindMap_with_index. exact Hk. }
  destruct (index_id_obj_miss t f' key f' Hwf' Hi Hm') as (E' & _ & _).
  exact E'.
Qed.

(** X8. In a well-formed index factory, [equals] of a description with
    itself is [false] when the description carries no identity, its content
    key does not depend on the counter and the look-up for it finds nothing:
    each side draws an identity of its own, and the counter ends two
    higher. *)
Theorem index_equals_not_reflexive :
  forall t f key,
    IndexFactory.wf f -> truthy_id (obj_id t) = None ->
    stable_key t f key -> misses t f key f ->
    IndexFactory.equals (JObj t) (JObj t) f
      = (Ok false, IndexFactory.with_index f (IndexFactory.index f + 1 + 1)).
Proof.
  intros t f key Hwf Hi Hst Hm.
  destruct (index_id_miss_twice t f key Hwf Hi Hst Hm) as [E1 E2].
  unfold IndexFactory.equals, IndexFactory.same_id, IndexFactory.bind. simpl.
  rewrite E1, E2. unfold IndexFactory.ret.
  destruct (Z.eqb_spec (IndexFactory.index f) (IndexFactory.index f + 1)); [lia |].
  reflexivity.
Qed.

Lemma index_equals_not_reflexive_witness :
  IndexFactory.equals (JObj (describeNode "NamedNode" "a"))
                      (JObj (describeNode "NamedNode" "a")) index0
    = (Ok false, IndexFactory.with_index index0 3).
Proof.
  apply (index_equals_not_reflexive (describeNode "NamedNode" "a") index0 (Some "a")).
  - apply IndexFacts.index_wf_create.
  - reflexivity.
  - intros k. reflexivity.
  - split; [reflexivity |]. eexists. split; [reflexivity |]. vm_compute. reflexivity.
Defined.

(** ** Descriptions of interned nodes *)

(** X9. In a well-formed, keyed index factory, for a [v] that names no
    member of [Object.prototype]: once [namedNode v] (or [blankNode v], [v]
    not empty) has returned a term, [id] on any description of that node
    finds the identity of the term without moving the counter, and [equals]
    of the term and the description is [true]. *)
Theorem index_description_finds_interned :
  (forall v f,
     in_prototype v = false -> IndexFactory.wf f -> IndexFactory.keyed f ->
     exists t f1 n,
       IndexFactory.namedNode (JStr v) f = (Ok t, f1) /\ obj_id t = Some n /\
       forall d, describes "NamedNode" v d ->
         IndexFactory.id (JObj d) f1 = (Ok n, f1) /\
         IndexFactory.equals (JObj t) (JObj d) f1 = (Ok true, f1)) /\
  (forall v f,
     v <> "" -> in_prototype v = false ->
     IndexFactory.wf f -> IndexFactory.keyed f ->
     exists t f1 n,
       IndexFactory.blankNode (JStr v) f = (Ok t, f1) /\ obj_id t = Some n /\
       forall d, describes "BlankNode" v d ->
         IndexFactory.id (JObj d) f1 = (Ok n, f1) /\
         IndexFactory.equals (JObj t) (JObj d) f1 = (Ok true, f1)).
Proof.
  split.
  - intros v f Hp Hwf Hk.
    destruct (IndexMore.more_namedNode_spec v f Hp Hwf Hk)
      as (t & f1 & E & Ht & _ & Hwf1 & _).
    assert (Hs : IndexFactory.stored f1 t) by (exists v; auto).
    destruct (IndexMore.more_stored_stamped f1 t Hwf1 Hs) as (n & Hn & Hst & _).
    exists t, f1, n. split; [exact E |]. split; [exact Hn |].
    intros d Hd.
    assert (Ed : IndexFactory.id (JObj d) f1 = (Ok n, f1)).
    { simpl. apply (index_id_described "NamedNode" v d f1 t n); auto.
      destruct Hd as (Hty & _ & _ & Hq). unfold IndexFactory.kindMap.
      rewrite Hq, Hty. reflexivity. }
    split; [exact Ed |].
    unfold IndexFactory.equals. simpl.
    rewrite (index_same_id_settled f1 (JObj t) (JObj d) n n).
    + rewrite Z.eqb_refl. reflexivity.
    + apply IndexFacts.index_id_obj_stamped, Hst.
    + exact Ed.
  - intros v f Hv Hp Hwf Hk.
    destruct (IndexMore.more_blankNode_spec v f Hv Hp Hwf Hk)
      as (t & f1 & E & Ht & _ & Hwf1 & _).
    assert (Hs : IndexFactory.stored f1 t) by (exists v; auto).
    destruct (IndexMore.more_stored_stamped f1 t Hwf1 Hs) as (n & Hn & Hst & _).
    exists t, f1, n. split; [exact E |]. split; [exact Hn |].
    intros d Hd.
    assert (Ed : IndexFactory.id (JObj d) f1 = (Ok n, f1)).
    { simpl. apply (index_id_described "BlankNode" v d f1 t n); auto.
      destruct Hd as (Hty & _ & _ & Hq). unfold IndexFactory.kindMap.
      rewrite Hq, Hty. reflexivity. }
    split; [exact Ed |].
    unfold IndexFactory.equals. simpl.
    rewrite (index_same_id_settled f1 (JObj t) (JObj d) n n).
    + rewrite Z.eqb_refl. reflexivity.
    + apply IndexFacts.index_id_obj_stamped, Hst.
    + exact Ed.
Qed.


Lemma index_description_finds_interned_witness :
  exists t f1 n,
    IndexFactory.namedNode (JStr "a") index0 = (Ok t, f1) /\ obj_id t = Some n /\
    IndexFactory.id (JObj (describeNode "NamedNode" "a")) f1 = (Ok n, f1).
Proof.
  destruct (proj1 index_description_finds_interned "a" index0 eq_refl
              (IndexFacts.index_wf_create None) (IndexMore.more_keyed_create None))
    as (t & f1 & n & E & Hn & H).
  exists t, f1, n. split; [exact E |]. split; [exact Hn |].
  apply H. repeat split.
Defined.



(** ** Nothing is dropped or replaced *)

(** X10. No operation drops or replaces an entry of the store. In the hash
    factory, every term in [memoizationMap] is there under the same
    identity after [blankNode], [namedNode], [literal] and [quad], and the
    seed stays; in a well-formed index factory every entry of the four kind
    tables and of [memoizationMap] is still there after these four and
    after [id] and [equals]. *)
Theorem no_eviction (murmur3 : string -> Z -> Z) :
  (forall f,
     (forall v, HashFactory.extends f (snd (HashFactory.blankNode murmur3 v f))) /\
     (forall v, HashFactory.extends f (snd (HashFactory.namedNode murmur3 v f))) /\
     (forall v lod, HashFactory.extends f (snd (HashFactory.literal murmur3 v lod f))) /\
     (forall s p o g, HashFactory.extends f (snd (HashFactory.quad murmur3 s p o g f)))) /\
  (forall f, IndexFactory.wf f ->
     (forall v, IndexFactory.grows f (snd (IndexFactory.blankNode v f))) /\
     (forall v, IndexFactory.grows f (snd (IndexFactory.namedNode v f))) /\
     (forall v lod, IndexFactory.grows f (snd (IndexFactory.literal v lod f))) /\
     (forall s p o g, IndexFactory.grows f (snd (IndexFactory.quad s p o g f))) /\
     (forall v, IndexFactory.grows f (snd (IndexFactory.id v f))) /\
     (forall a b, IndexFactory.grows f (snd (IndexFactory.equals a b f)))).
Proof.
  split.
  - intros f.
    split; [intros v; apply HashMore.hmore_extends_blankNode |].
    split; [intros v; apply HashMore.hmore_extends_namedNode |].
    split; [intros v lod; apply HashMore.hmore_extends_literal |].
    intros s p o g. apply HashMore.hmore_extends_quad.
  - intros f Hwf.
    split; [intros v; apply IndexMore.more_grows_blankNode, Hwf |].
    split; [intros v; apply IndexMore.more_grows_namedNode, Hwf |].
    split; [intros v lod; apply IndexMore.more_grows_literal, Hwf |].
    split; [intros s p o g; apply IndexMore.more_grows_quad, Hwf |].
    split.
    + intros v. destruct (IndexFactory.id v f) as [r f'] eqn:E.
      eapply IndexMore.more_grows_bumped; [apply IndexFacts.index_bumps_id | exact E].
    + intros a b. destruct (IndexFactory.equals a b f) as [r f'] eqn:E.
      eapply IndexMore.more_grows_bumped; [apply IndexFacts.index_bumps_equals | exact E].
Qed.

Lemma no_eviction_witness :
  IndexFactory.wf index0 /\
  IndexFactory.grows index0
    (snd (IndexFactory.quad node1 node2 node3 None index0)).
Proof.
  split; [apply IndexFacts.index_wf_create |].
  destruct (proj2 (no_eviction lengthHash) index0 (IndexFacts.index_wf_create None))
    as (_ & _ & _ & H & _).
  apply H.
Defined.

(** ** From an identity to its term and back *)

(** X11. In every reachable factory, a term that [fromId n] finds carries
    the identity [n], and [id] on it gives [n] back without touching the
    factory; in the index factory [n] then lies between [0] and the
    identity counter, and [fromId] finds nothing for any other number. *)
Theorem fromId_then_id (murmur3 : string -> Z -> Z) :
  (forall f n t,
     HashFactory.reachable murmur3 f -> HashFactory.fromId n f = Some t ->
     obj_id t = Some n /\ HashFactory.id murmur3 (JObj t) f = Ok n) /\
  (forall f n t,
     IndexFactory.reachable f -> IndexFactory.fromId n f = Some t ->
     obj_id t = Some n /\ 0 < n < IndexFactory.index f /\
     IndexFactory.id (JObj t) f = (Ok n, f)) /\
  (forall f n,
     IndexFactory.reachable f -> n <= 0 \/ IndexFactory.index f <= n ->
     IndexFactory.fromId n f = None).
Proof.
  split; [| split].
  - intros f n t Hr Hf.
    apply HashFacts.hash_reachable_consistent in Hr.
    destruct (Hr n t Hf) as [Hi Hid]. split; [exact Hi |].
    simpl. rewrite Hid. reflexivity.
  - intros f n t Hr Hf.
    pose proof (IndexFacts.index_reachable_wf f Hr) as (_ & Hmemo & _).
    pose proof (IndexMore.more_reachable_keyed f Hr) as (_ & Hids).
    pose proof (Hids n t Hf) as Hi. pose proof (Hmemo n t Hf) as Hn.
    split; [exact Hi |]. split; [exact Hn |].
    simpl. apply IndexFacts.index_id_obj_stamped.
    apply IndexFacts.index_stamped_positive; [exact Hi | lia].
  - intros f n Hr Hn.
    pose proof (IndexFacts.index_reachable_wf f Hr) as (_ & Hmemo & _).
    unfold IndexFactory.fromId.
    destruct (IndexFactory.memoizationMap f !! n) as [t|] eqn:E; [| reflexivity].
    apply Hmemo in E. lia.
Qed.

Lemma fromId_then_id_witness :
  IndexFactory.reachable (snd (IndexFactory.namedNode (JStr "a") index0)) /\
  exists t,
    IndexFactory.fromId 1 (snd (IndexFactory.namedNode (JStr "a") index0)) = Some t /\
    obj_id t = Some 1.
Proof.
  assert (Hr : IndexFactory.reachable (snd (IndexFactory.namedNode (JStr "a") index0))).
  { apply IndexFactory.reach_namedNode, IndexFactory.reach_create. }
  split; [exact Hr |].
  destruct (IndexFactory.fromId 1 (snd (IndexFactory.namedNode (JStr "a") index0)))
    as [t|] eqn:E; [| vm_compute in E; discriminate].
  exists t. split; [reflexivity |].
  exact (proj1 (proj1 (proj2 (fromId_then_id lengthHash)) _ 1 t Hr E)).
Defined.

(** ** The default datatype, passed or left out *)

(** X12. Passing the default datatype node explicitly gives the literal
    that leaving it out gives: after [literal v], the call [literal v d]
    with [d] the node that [namedNode] returns for [xsd:string] returns the
    same instance and changes nothing; likewise [literal v ""] and
    [literal v d] with [d] the node for [rdf:langString]. In both
    factories. *)
Theorem literal_default_datatype_explicit (murmur3 : string -> Z -> Z) :
  (forall v lod iri f t f1,
     datatypeIRI lod = Some iri -> languageOf lod = "" ->
     IndexFactory.literal v lod f = (Ok t, f1) ->
     exists d,
       IndexFactory.namedNode (JStr iri) f1 = (Ok d, f1) /\
       IndexFactory.literal v (Datatype d) f1 = (Ok t, f1)) /\
  (forall v lod iri f t f1,
     datatypeIRI lod = Some iri -> languageOf lod = "" ->
     HashFactory.literal murmur3 v lod f = (t, f1) ->
     exists d,
       HashFactory.namedNode murmur3 (JStr iri) f1 = (Ok d, f1) /\
       HashFactory.literal murmur3 v (Datatype d) f1 = (t, f1)).
Proof.
  split.
  - intros v lod iri f t f1 Hiri Hl.
    rewrite IndexFacts.index_literal_eq. unfold IndexFactory.bind. rewrite Hl.
    assert (Hd : IndexFactory.literal_datatype lod f = IndexFactory.namedNode_str iri f).
    { destruct lod; simpl in Hiri; try discriminate; injection Hiri as <-; reflexivity. }
    rewrite Hd.
    assert (Hp : in_prototype iri = false).
    { destruct lod; simpl in Hiri; try discriminate; injection Hiri as <-; reflexivity. }
    destruct (IndexFacts.index_namedNode_str_spec iri f Hp) as (d & f0 & E0 & Hn & _).
    rewrite E0.
    destruct (IndexFacts.index_literal_tail_repeats v "" d f0) as (t' & f' & E1 & E2 & Hm).
    rewrite E1. intros [= <- <-].
    exists d. split.
    + simpl. apply IndexFacts.index_namedNode_str_hit. rewrite Hm. exact Hn.
    + rewrite IndexFacts.index_literal_eq. exact E2.
  - intros v lod iri f t f1 Hiri Hl.
    unfold HashFactory.literal. rewrite Hl.
    assert (Hd : HashFactory.literal_datatype murmur3 lod f
                 = HashFactory.namedNode_str murmur3 iri f).
    { destruct lod; simpl in Hiri; try discriminate; injection Hiri as <-; reflexivity. }
    rewrite Hd.
    destruct (HashFactory.namedNode_str murmur3 iri f) as [d f0] eqn:E0.
    intros E.
    pose proof (HashFacts.hash_namedNode_str_spec murmur3 _ _ _ _ E0) as (Hn & Hs0 & _).
    pose proof (HashFacts.hash_intern_spec _ _ _ _ _ E) as (Ht & Hs & Hm).
    exists d. split.
    + unfold HashFactory.namedNode, HashFactory.namedNode_with. simpl.
      rewrite (HashFacts.hash_namedNode_str_hit murmur3 iri f1 d); [reflexivity |].
      apply Hm. rewrite Hs, Hs0. exact Hn.
    + simpl. rewrite Hs. apply HashFacts.hash_intern_hit. exact Ht.
Qed.

Lemma literal_default_datatype_explicit_witness :
  exists t f1 d,
    IndexFactory.literal "x" Omitted index0 = (Ok t, f1) /\
    IndexFactory.namedNode (JStr "http://www.w3.org/2001/XMLSchema#string") f1
      = (Ok d, f1) /\
    IndexFactory.literal "x" (Datatype d) f1 = (Ok t, f1).
Proof.
  destruct (IndexFactory.literal "x" Omitted index0) as [r f1] eqn:E.
  assert (exists t, r = Ok t) as [t ->].
  { vm_compute in E. injection E as <- _. eauto. }
  destruct (proj1 (literal_default_datatype_explicit lengthHash)
              "x" Omitted "http://www.w3.org/2001/XMLSchema#string" index0 t f1
              eq_refl eq_refl E) as (d & H1 & H2).
  exists t, f1, d. auto.
Defined.

(** ** Identities of the hash factory, written out *)

(** X13. In a consistent hash factory the identity stamped on a returned
    term is a function of the seed and of what was asked for, whatever the
    store holds: [murmur3 v (seedBase + 2)] for [namedNode v],
    [murmur3 v (seedBase + 1)] for [blankNode v] with [v] not empty, the
    hash of [v] under [seedBase + 4] plus the hash of the language, or else
    the identity of the datatype, for [literal], and for [quad s p o]
    without graph the hash of the sum taken with the identity
    [murmur3 "rdf:defaultGraph" (seedBase + 2)] of the default graph. Two
    consistent factories with the same seed therefore stamp the same
    identities. *)
Theorem hash_identities_from_seed (murmur3 : string -> Z -> Z) :
  forall f, HashFactory.consistent murmur3 f ->
    (forall v t f',
       HashFactory.namedNode murmur3 (JStr v) f = (Ok t, f') ->
       obj_id t = Some (murmur3 v (HashFactory.seedBase f + 2))) /\
    (forall v t f',
       v <> "" -> HashFactory.blankNode murmur3 (JStr v) f = (Ok t, f') ->
       obj_id t = Some (murmur3 v (HashFactory.seedBase f + 1))) /\
    (forall v lod t f',
       HashFactory.literal murmur3 v lod f = (t, f') ->
       obj_id t = Some (HashFactory.literalIdentity murmur3 (HashFactory.seedBase f) v lod)) /\
    (forall s p o t f',
       HashFactory.quad murmur3 s p o None f = (t, f') ->
       obj_id t =
       Some (murmur3
               (toString
                  (HashFactory.id_obj murmur3 (HashFactory.seedBase f) s
                   + HashFactory.id_obj murmur3 (HashFactory.seedBase f) p
                   + HashFactory.id_obj murmur3 (HashFactory.seedBase f) o
                   + murmur3 "rdf:defaultGraph" (HashFactory.seedBase f + 2)))
               (HashFactory.seedBase f + 3))).
Proof.
  intros f Hc.
  assert (Lit : forall v d l f0 t f',
            HashFactory.consistent murmur3 f0 ->
            HashFactory.intern
              (HashFactory.id_obj murmur3 (HashFactory.seedBase f0) (describeLiteral v d l))
              (fun r => Obj r (Some (HashFactory.id_obj murmur3 (HashFactory.seedBase f0)
                                      (describeLiteral v d l)))
                         (Some "Literal") v l (Some d) None None None None) f0
            = (t, f') ->
            obj_id t = Some (HashFactory.id_obj murmur3 (HashFactory.seedBase f0)
                               (describeLiteral v d l))).
  { intros v d l f0 t f' Hc0 E.
    apply (HashFacts.hash_intern_consistent murmur3) in E as (_ & Hi & _);
      [exact Hi | exact Hc0 |].
    intros r. split; [reflexivity |].
    apply (HashFacts.hash_id_obj_stamp murmur3 (HashFactory.seedBase f0) 0 r
             (Some "Literal") v l (Some d) None None None None). }
  split; [| split; [| split]].
  - intros v t f'. unfold HashFactory.namedNode, HashFactory.namedNode_with. simpl.
    destruct (HashFactory.namedNode_str murmur3 v f) as [t0 f0] eqn:E.
    intros [= <- <-].
    apply (HashFacts.hash_namedNode_str_consistent murmur3 _ _ _ _ Hc E).
  - intros v t f' Hv. unfold HashFactory.blankNode, HashFactory.blankNode_with. simpl.
    destruct (String.eqb_spec v "") as [->|_]; [congruence |]. simpl.
    destruct (HashFactory.blankNode_str murmur3 (Some v) f) as [t0 f0] eqn:E.
    intros [= <- <-].
    unfold HashFactory.blankNode_str in E. rewrite HashFacts.hash_id_describe_blank in E.
    apply (HashFacts.hash_intern_consistent murmur3) in E as (_ & Hi & _);
      [exact Hi | exact Hc |].
    intros r. split; [reflexivity |].
    apply (HashFacts.hash_id_obj_stamp murmur3 (HashFactory.seedBase f) 0 r
             (Some "BlankNode") v "" None None None None None).
  - intros v lod t f'. unfold HashFactory.literal, HashFactory.literal_datatype.
    destruct lod as [|l|d]; unfold languageOf.
    + destruct (HashFactory.namedNode_str murmur3 datatypes.string f) as [d f0] eqn:E0.
      pose proof (HashFacts.hash_namedNode_str_spec murmur3 _ _ _ _ E0) as (_ & Hs0 & _).
      pose proof (HashFacts.hash_namedNode_str_consistent murmur3 _ _ _ _ Hc E0)
        as (Hc0 & _ & Hid).
      intros E. rewrite (Lit _ _ _ _ _ _ Hc0 E). simpl.
      rewrite Hs0, Hid. reflexivity.
    + destruct (HashFactory.namedNode_str murmur3 datatypes.langString f) as [d f0] eqn:E0.
      pose proof (HashFacts.hash_namedNode_str_spec murmur3 _ _ _ _ E0) as (_ & Hs0 & _).
      pose proof (HashFacts.hash_namedNode_str_consistent murmur3 _ _ _ _ Hc E0)
        as (Hc0 & _ & Hid).
      intros E. rewrite (Lit _ _ _ _ _ _ Hc0 E). simpl.
      rewrite Hs0, Hid. reflexivity.
    + intros E. rewrite (Lit _ _ _ _ _ _ Hc E). reflexivity.
  - intros s p o t f' E.
    pose proof (HashFacts.hash_quad_consistent murmur3 s p o None f t f' Hc E)
      as (_ & Hi & _).
    rewrite Hi. unfold HashFactory.quadIdentity, HashFactory.usedGraph,
      HashFactory.defaultGraph.
    destruct (HashFactory.namedNode_str murmur3 "rdf:defaultGraph" f) as [d f0] eqn:E0.
    pose proof (HashFacts.hash_namedNode_str_consistent murmur3 _ _ _ _ Hc E0)
      as (_ & _ & Hid).
    simpl. rewrite Hid. reflexivity.
Qed.

Lemma hash_identities_from_seed_witness :
  HashFactory.consistent lengthHash hash0 /\
  obj_id (fst (HashFactory.literal lengthHash "x" (Language "en") hash0))
    = Some (lengthHash "x" (0 + 4 + lengthHash "en" 0)).
Proof.
  split; [apply HashFacts.hash_consistent_create |].
  destruct (HashFactory.literal lengthHash "x" (Language "en") hash0) as [t f'] eqn:E.
  destruct (hash_identities_from_seed lengthHash hash0
              (HashFacts.hash_consistent_create lengthHash None None))
    as (_ & _ & H & _).
  exact (H "x" (Language "en") t f' E).
Defined.

(** ** Quads over descriptions of interned nodes *)

Lemma index_id_described_named v d f t :
  IndexFactory.wf f -> describes "NamedNode" v d ->
  IndexFactory.namedNodeMap f !! v = Some t ->
  exists n, IndexFactory.stamped t n /\ IndexFactory.id_obj d f = (Ok n, f).
Proof.
  intros Hwf Hd Ht.
  assert (Hs : IndexFactory.stored f t) by (exists v; auto).
  destruct (IndexMore.more_stored_stamped f t Hwf Hs) as (n & Hn & Hst & _).
  exists n. split; [exact Hst |].
  apply (index_id_described "NamedNode" v d f t n); auto.
  destruct Hd as (Hty & _ & _ & Hq). unfold IndexFactory.kindMap.
  rewrite Hq, Hty. reflexivity.
Qed.

(** X14. In a well-formed index factory, a quad asked for through
    descriptions of named nodes that are interned is the quad asked for
    through the interned nodes themselves: after [quad s p o g] on four
    stored named nodes, [quad] on any descriptions of them returns the same
    instance and stores nothing. *)
Theorem index_quad_over_descriptions :
  forall f vs vp vo vg s p o g ds dp do_ dg,
    IndexFactory.wf f ->
    IndexFactory.namedNodeMap f !! vs = Some s ->
    IndexFactory.namedNodeMap f !! vp = Some p ->
    IndexFactory.namedNodeMap f !! vo = Some o ->
    IndexFactory.namedNodeMap f !! vg = Some g ->
    describes "NamedNode" vs ds -> describes "NamedNode" vp dp ->
    describes "NamedNode" vo do_ -> describes "NamedNode" vg dg ->
    exists q f1,
      IndexFactory.quad s p o (Some g) f = (Ok q, f1) /\
      IndexFactory.quad ds dp do_ (Some dg) f1 = (Ok q, f1).
Proof.
  intros f vs vp vo vg s p o g ds dp do_ dg Hwf Hs Hp Ho Hg Ds Dp Do Dg.
  destruct (index_id_described_named vs ds f s Hwf Ds Hs) as (ns & Ss & _).
  destruct (index_id_described_named vp dp f p Hwf Dp Hp) as (np & Sp & _).
  destruct (index_id_described_named vo do_ f o Hwf Do Ho) as (no & So & _).
  destruct (index_id_described_named vg dg f g Hwf Dg Hg) as (ng & Sg & _).
  rewrite IndexFacts.index_quad_eq. unfold IndexFactory.bind, IndexFactory.ret.
  rewrite (IndexFacts.index_quadMapId_stamped s p o (Some g) ns np no ng f) by assumption.
  destruct (IndexFacts.index_quad_tail_repeats s p o g (IndexFactory.quadKey ns np no ng) f)
    as (q & f1 & E1 & E2 & Hn).
  exists q, f1. split; [exact E1 |].
  assert (Hwf1 : IndexFactory.wf f1).
  { pose proof (IndexFacts.index_quad_wf s p o (Some g) f Hwf) as W.
    rewrite IndexFacts.index_quad_eq in W. unfold IndexFactory.bind, IndexFactory.ret in W.
    rewrite (IndexFacts.index_quadMapId_stamped s p o (Some g) ns np no ng f) in W
      by assumption.
    rewrite E1 in W. exact W. }
  rewrite <- Hn in Hs, Hp, Ho, Hg.
  destruct (index_id_described_named vs ds f1 s Hwf1 Ds Hs) as (ns' & Ss' & Is).
  destruct (index_id_described_named vp dp f1 p Hwf1 Dp Hp) as (np' & Sp' & Ip).
  destruct (index_id_described_named vo do_ f1 o Hwf1 Do Ho) as (no' & So' & Io).
  destruct (index_id_described_named vg dg f1 g Hwf1 Dg Hg) as (ng' & Sg' & Ig).
  unfold IndexFactory.stamped in *.
  assert (ns' = ns) by congruence. assert (np' = np) by congruence.
  assert (no' = no) by congruence. assert (ng' = ng) by congruence. subst.
  rewrite IndexFacts.index_quad_eq. unfold IndexFactory.bind, IndexFactory.ret.
  unfold IndexFactory.quadMapId, IndexFactory.bind. rewrite Is, Ip, Io, Ig.
  unfold IndexFactory.ret.
  unfold IndexFactory.quad_tail in *.
  destruct (IndexFactory.quadMap f1 !! IndexFactory.quadKey ns np no ng) as [q'|] eqn:Eq.
  - injection E2 as <-. reflexivity.
  - unfold IndexFactory.register in E2. injection E2 as _ E2.
    apply (f_equal IndexFactory.index) in E2. simpl in E2. lia.
Qed.

Lemma index_quad_over_descriptions_witness :
  exists s p o g q f1,
    IndexFactory.namedNodeMap namedStore !! "s" = Some s /\
    IndexFactory.namedNodeMap namedStore !! "p" = Some p /\
    IndexFactory.namedNodeMap namedStore !! "o" = Some o /\
    IndexFactory.namedNodeMap namedStore !! "g" = Some g /\
    IndexFactory.quad s p o (Some g) namedStore = (Ok q, f1) /\
    IndexFactory.quad (describeNode "NamedNode" "s") (describeNode "NamedNode" "p")
                      (describeNode "NamedNode" "o")
                      (Some (describeNode "NamedNode" "g")) f1 = (Ok q, f1).
Proof.
  assert (Hwf : IndexFactory.wf namedStore).
  { apply IndexFacts.index_reachable_wf.
    repeat apply IndexFactory.reach_namedNode. apply IndexFactory.reach_create. }
  destruct (IndexFactory.namedNodeMap namedStore !! "s") as [s|] eqn:Es;
    [| vm_compute in Es; discriminate].
  destruct (IndexFactory.namedNodeMap namedStore !! "p") as [p|] eqn:Ep;
    [| vm_compute in Ep; discriminate].
  destruct (IndexFactory.namedNodeMap namedStore !! "o") as [o|] eqn:Eo;
    [| vm_compute in Eo; discriminate].
  destruct (IndexFactory.namedNodeMap namedStore !! "g") as [g|] eqn:Eg;
    [| vm_compute in Eg; discriminate].
  destruct (index_quad_over_descriptions namedStore "s" "p" "o" "g" s p o g
              (describeNode "NamedNode" "s") (describeNode "NamedNode" "p")
              (describeNode "NamedNode" "o") (describeNode "NamedNode" "g")
              Hwf Es Ep Eo Eg)
    as (q & f1 & E1 & E2); try (repeat split).
  exists s, p, o, g, q, f1. auto 10.
Defined.

(** ** A made-up blank node name can be taken *)

(** X15. The name that [blankNode()] makes up is not looked at before it is
    used: when the node with the next name, ["_:b"] (index factory) or ["b"]
    (hash factory) followed by the counter plus one, has been asked for by
    name, the next [blankNode()] returns that very node and only moves the
    blank-node counter. *)
Theorem auto_name_can_be_taken (murmur3 : string -> Z -> Z) :
  (forall f t f1,
     IndexFactory.blankNode
       (JStr ("_:b" +:+ toString (IndexFactory.bnIndex f + 1))) f = (Ok t, f1) ->
     exists f2,
       IndexFactory.blankNode JUndefined f1 = (Ok t, f2) /\
       IndexFactory.bnIndex f2 = IndexFactory.bnIndex f + 1 /\
       IndexFactory.index f2 = IndexFactory.index f1 /\
       IndexFactory.blankNodeMap f2 = IndexFactory.blankNodeMap f1 /\
       IndexFactory.memoizationMap f2 = IndexFactory.memoizationMap f1) /\
  (forall f t f1,
     HashFactory.blankNode murmur3
       (JStr ("b" +:+ toString (HashFactory.bnIndex f + 1))) f = (Ok t, f1) ->
     exists f2,
       HashFactory.blankNode murmur3 JUndefined f1 = (Ok t, f2) /\
       HashFactory.bnIndex f2 = HashFactory.bnIndex f + 1 /\
       HashFactory.memoizationMap f2 = HashFactory.memoizationMap f1).
Proof.
  split.
  - intros f t f1.
    set (name := "_:b" +:+ toString (IndexFactory.bnIndex f + 1)).
    assert (Hne : name <> "") by discriminate.
    change (IndexFactory.blankNode (JStr name) f)
      with (IndexFactory.blankNode_str (Some name) f).
    rewrite (IndexFacts.index_blankNode_str_eq name f Hne). intros E.
    assert (H1 : IndexFactory.blankNodeMap f1 !! name = Some t /\
                 IndexFactory.bnIndex f1 = IndexFactory.bnIndex f).
    { destruct (IndexFactory.blankNodeMap f !! name) as [u|] eqn:Eu.
      - injection E as <- <-. auto.
      - unfold IndexFactory.register in E. injection E as <- <-. simpl.
        rewrite lookup_insert_eq. auto. }
    destruct H1 as [Ht Hb].
    change (IndexFactory.blankNode JUndefined f1)
      with (IndexFactory.blankNode_str None f1).
    unfold IndexFactory.blankNode_str, IndexFactory.bind, IndexFactory.next_bnode_name.
    rewrite Hb. fold name.
    set (fb := IndexFactory.Factory _ _ _ _ _ _ _ _).
    change (IndexFactory.mapId (describeNode "BlankNode" name) fb)
      with (@Ok (option string) (Some name), fb).
    cbv iota beta. change (truthy (JStr name)) with true. cbv iota.
    unfold IndexFactory.at_key. simpl. rewrite Ht.
    exists fb. repeat split.
  - intros f t f1.
    set (name := "b" +:+ toString (HashFactory.bnIndex f + 1)).
    change (HashFactory.blankNode murmur3 (JStr name) f)
      with (let '(t, f') := HashFactory.blankNode_str murmur3 (Some name) f in (Ok t, f')).
    destruct (HashFactory.blankNode_str murmur3 (Some name) f) as [t0 f0] eqn:E.
    intros [= <- <-].
    unfold HashFactory.blankNode_str in E. rewrite HashFacts.hash_id_describe_blank in E.
    pose proof (HashFacts.hash_intern_spec _ _ _ _ _ E) as (Ht & Hs & _).
    assert (Hb : HashFactory.bnIndex f0 = HashFactory.bnIndex f).
    { unfold HashFactory.intern in E.
      destruct (HashFactory.memoizationMap f !! _); injection E as <- <-; reflexivity. }
    change (HashFactory.blankNode murmur3 JUndefined f0)
      with (let '(t, f') := HashFactory.blankNode_str murmur3 None f0 in (Ok t, f')).
    unfold HashFactory.blankNode_str. rewrite HashFacts.hash_id_describe_blank.
    cbn [HashFactory.seedBase]. rewrite Hb, Hs. fold name.
    unfold HashFactory.intern. cbn [HashFactory.memoizationMap]. rewrite Ht.
    eexists. split; [reflexivity |]. split; reflexivity.
Qed.

Lemma auto_name_can_be_taken_witness :
  exists t f1 f2,
    IndexFactory.blankNode (JStr "_:b2") index0 = (Ok t, f1) /\
    IndexFactory.blankNode JUndefined f1 = (Ok t, f2).
Proof.
  destruct (IndexFactory.blankNode (JStr "_:b2") index0) as [r f1] eqn:E.
  assert (exists t, r = Ok t) as [t ->].
  { vm_compute in E. injection E as <- _. eauto. }
  destruct (proj1 (auto_name_can_be_taken lengthHash) index0 t f1) as (f2 & H & _).
  - rewrite <- E. reflexivity.
  - exists t, f1, f2. auto.
Defined.
